(** * chia-monitor: the collection and notification pipeline

    A shallow embedding of

      - [src/monitor/collectors/rpc_collector.py]  (class [RpcCollector])
      - [src/monitor/notifications/summary.py]     (class [SummaryNotification])

    Python integers are [Z]; a [datetime] is the number of microseconds
    since the epoch and a [timedelta] a number of microseconds, both in
    [Z]; Python [str] is [string]; an [async def] is a tree of effects
    ([coro]) whose [Await] nodes are the points where the event loop may
    switch to another task. *)

From Stdlib Require Import ZArith List String Ascii DecimalString DecimalZ DecimalPos Lia.
From stdpp Require Import gmap strings list sorting.

Local Open Scope Z_scope.
Local Open Scope string_scope.

(** ** Python values *)

Module Py.

Definition datetime := Z.
Definition timedelta := Z.

(** [timedelta(hours=h)] *)
Definition timedelta_hours (h : Z) : timedelta := h * 3600 * 1000000.
(** the argument of [asyncio.sleep], in seconds *)
Definition seconds (s : Z) : timedelta := s * 1000000.

(** [str(n)] of an integer: decimal digits, a leading [-] when negative. *)
Definition str (n : Z) : string := NilZero.string_of_int (Z.to_int n).

(** The whitespace that [int] skips at both ends of a string of ASCII
    characters: tab to carriage return, and the space. *)
Definition is_space (c : ascii) : bool :=
  let n := nat_of_ascii c in
  ((9 <=? n) && (n <=? 13) || (n =? 32))%nat.

Definition is_digit (c : ascii) : bool :=
  let n := nat_of_ascii c in ((48 <=? n) && (n <=? 57))%nat.

Fixpoint lstrip (s : string) : string :=
  match s with
  | String c rest => if is_space c then lstrip rest else s
  | EmptyString => s
  end.

Fixpoint rstrip (s : string) : string :=
  match s with
  | EmptyString => EmptyString
  | String c rest =>
      match rstrip rest with
      | EmptyString => if is_space c then EmptyString else String c EmptyString
      | kept => String c kept
      end
  end.

Definition strip (s : string) : string := rstrip (lstrip s).

(** The digits of a literal without the underscores that may stand, one
    at a time, between two digits; [None] for an underscore at any other
    place. *)
Fixpoint ungroup (after_digit : bool) (s : string) : option string :=
  match s with
  | EmptyString => Some EmptyString
  | String c rest =>
      if Ascii.eqb c "_" then
        if after_digit then
          match rest with
          | String d _ => if is_digit d then ungroup false rest else None
          | EmptyString => None
          end
        else None
      else option_map (String c) (ungroup (is_digit c) rest)
  end.

(** [int(s)] of a string; [None] stands for [ValueError].  Whitespace at
    both ends is skipped, one sign may come first, and digits follow,
    with single underscores between them if any.  This is [int] on the
    strings of ASCII characters; Python reads the digits and spaces of
    other scripts too, which are not read here. *)
Definition int (s : string) : option Z :=
  let s := strip s in
  let (negative, digits) :=
    match s with
    | String "-" rest => (true, rest)
    | String "+" rest => (false, rest)
    | _ => (false, s)
    end in
  match ungroup false digits with
  | Some digits =>
      option_map (fun d => if negative then - Z.of_uint d else Z.of_uint d)
                 (NilZero.uint_of_string digits)
  | None => None
  end.

(** The string holds digits only. *)
Fixpoint all_digits (s : string) : bool :=
  match s with
  | EmptyString => true
  | String c rest => is_digit c && all_digits rest
  end.

(** The string holds ASCII characters only. *)
Definition ascii_only (s : string) : bool :=
  forallb (fun c => (nat_of_ascii c <? 128)%nat) (list_ascii_of_string s).

(** [sum(xs)] *)
Definition sum (xs : list Z) : Z := fold_left Z.add xs 0.

(** [len(xs)] *)
Definition len {A} (xs : list A) : Z := Z.of_nat (length xs).

(** The string ["\n"]. *)
Definition newline : string := String (Ascii.ascii_of_nat 10) EmptyString.

(** [sep.join(lines)] *)
Fixpoint join (sep : string) (lines : list string) : string :=
  match lines with
  | [] => ""
  | [l] => l
  | l :: rest => l ++ sep ++ join sep rest
  end.

(** The exceptions that occur in the two modules. *)
Inductive exn : Type :=
| ConnectionError (msg : string)
| ClientConnectorError (msg : string)   (* aiohttp: the endpoint is not reachable *)
| Exception (msg : string)              (* anything else a client raises *)
| TypeError (msg : string)
| ValueError (msg : string)
| AttributeError (msg : string)
| UnboundLocalError (msg : string)
| OperationalError (msg : string).      (* sqlalchemy: the store is not reachable *)

(** [str(e)] *)
Definition str_exn (e : exn) : string :=
  match e with
  | ConnectionError m | ClientConnectorError m | Exception m
  | TypeError m | ValueError m | AttributeError m | UnboundLocalError m
  | OperationalError m => m
  end.

(** How a call ends: with a value or with a raised exception. *)
Inductive result (A : Type) : Type :=
| Ok (a : A)
| Raised (e : exn).
Arguments Ok {A} a.
Arguments Raised {A} e.

Definition succeeded {A} (r : result A) : bool :=
  match r with Ok _ => true | Raised _ => false end.

End Py.
Import Py.

(** ** Events ([monitor.events], as the two modules construct and read them) *)

Module Events.

Record WalletBalanceEvent := {
  wb_ts : datetime;
  confirmed : string;
}.

Record HarvesterPlotsEvent := {
  hp_ts : datetime;
  plot_count : Z;
  plot_size : Z;
}.

Record BlockchainStateEvent := {
  bs_ts : datetime;
  space : string;
  diffculty : Z;
  peak_height : string;
  synced : bool;
}.

Record ConnectionsEvent := {
  cn_ts : datetime;
  full_node_count : Z;
  farmer_count : Z;
  wallet_count : Z;
}.

(** Written by the websocket collector, which is not part of these two
    modules; the summary only sums its [proofs] column. *)
Record FarmingInfoEvent := {
  fi_ts : datetime;
  proofs : Z;
}.

Inductive ChiaEvent : Type :=
| EvWalletBalance (e : WalletBalanceEvent)
| EvHarvesterPlots (e : HarvesterPlotsEvent)
| EvBlockchainState (e : BlockchainStateEvent)
| EvConnections (e : ConnectionsEvent)
| EvFarmingInfo (e : FarmingInfoEvent).

Definition ts (ev : ChiaEvent) : datetime :=
  match ev with
  | EvWalletBalance e => wb_ts e
  | EvHarvesterPlots e => hp_ts e
  | EvBlockchainState e => bs_ts e
  | EvConnections e => cn_ts e
  | EvFarmingInfo e => fi_ts e
  end.

(** The same event with its timestamp set to [t]. *)
Definition at_time (t : datetime) (ev : ChiaEvent) : ChiaEvent :=
  match ev with
  | EvWalletBalance e => EvWalletBalance {| wb_ts := t; confirmed := confirmed e |}
  | EvHarvesterPlots e =>
      EvHarvesterPlots {| hp_ts := t; plot_count := plot_count e; plot_size := plot_size e |}
  | EvBlockchainState e =>
      EvBlockchainState {| bs_ts := t; space := space e; diffculty := diffculty e;
                           peak_height := peak_height e; synced := synced e |}
  | EvConnections e =>
      EvConnections {| cn_ts := t; full_node_count := full_node_count e;
                       farmer_count := farmer_count e; wallet_count := wallet_count e |}
  | EvFarmingInfo e => EvFarmingInfo {| fi_ts := t; proofs := proofs e |}
  end.

(** What an event says, whenever it was observed. *)
Definition payload (ev : ChiaEvent) : ChiaEvent := at_time 0 ev.

End Events.
Import Events.


(** ** The remote services (the chia RPC clients) *)

Module Rpc.

(** [chia.server.outbound_message.NodeType] *)
Inductive NodeType := FULL_NODE | HARVESTER | FARMER | TIMELORD | INTRODUCER | WALLET.

Global Instance NodeType_eq_dec : EqDecision NodeType.
Proof. solve_decision. Defined.

(** One entry of a [get_connections] answer: [c["type"]], [c["peer_host"]]. *)
Record Connection := {
  type : NodeType;
  peer_host : string;
}.

(** One entry of [get_wallets]: [wallet["id"]]. *)
Record Wallet := { id : Z }.

(** The answer of [get_wallet_balance]: [balance["confirmed_wallet_balance"]]. *)
Record Balance := { confirmed_wallet_balance : Z }.

(** One entry of [plots["plots"]]: [plot["file_size"]]. *)
Record Plot := { file_size : Z }.

(** The answer of a harvester's [get_plots]: [plots["success"]], [plots["plots"]]. *)
Record PlotsResponse := {
  success : bool;
  plots : list Plot;
}.

(** A block record, as far as the collector reads it: [peak.height]. *)
Record BlockRecord := { height : Z }.

(** The answer of [get_blockchain_state]: [state["space"]],
    [state["difficulty"]], [state["peak"]], [state["sync"]["synced"]].
    The peak is [None] as long as the node has no block. *)
Record BlockchainState := {
  state_space : Z;
  state_difficulty : Z;
  state_peak : option BlockRecord;
  state_sync_synced : bool;
}.

(** [config.yaml], as far as the collector reads it. *)
Record Config := {
  self_hostname : string;
  harvester_rpc_port : Z;
  farmer_rpc_port : Z;
}.

(** What the collector calls outside itself, indexed by the type of the
    answer.  The wallet and full node clients are the ones made in
    [RpcCollector.create].  A farmer and a harvester client are made per
    call: [Load_config] is [load_config(DEFAULT_ROOT_PATH, "config.yaml")],
    [Farmer_create] and [Harvester_create] are [uint16(port)] and the
    [create] of the client class for a host and a port, [Farmer_close]
    and [Harvester_close] are [close()] and [await_closed()] of that
    client. *)
Inductive request : Type -> Type :=
| Wallet_get_wallets : request (list Wallet)
| Wallet_get_wallet_balance (wallet_id : Z) : request Balance
| Load_config : request unit
| Farmer_create (host : string) (port : Z) : request unit
| Farmer_get_connections (host : string) (port : Z) : request (list Connection)
| Farmer_close (host : string) (port : Z) : request unit
| Harvester_create (host : string) (port : Z) : request unit
| Harvester_get_plots (host : string) (port : Z) : request PlotsResponse
| Harvester_close (host : string) (port : Z) : request unit
| FullNode_get_blockchain_state : request BlockchainState
| FullNode_get_connections : request (list Connection).

(** The services as the collector finds them during one poll cycle: each
    call is answered or raises (file or network error, malformed answer,
    timeout). *)
Definition Remote := forall X, request X -> result X.

End Rpc.
Import Rpc.

(** ** Coroutines and the event loop ([asyncio]) *)

Module Asyncio.

(** The body of an [async def]: what it does next and how it goes on.
    [Await] is a call that may raise, most of them suspension points (an
    RPC request in flight); the other effects run without giving up
    control. *)
Inductive coro (A : Type) : Type :=
| Ret (a : A)
| Throw (e : exn)
| Await {X : Type} (rq : request X) (k : result X -> coro A)
| Now (k : datetime -> coro A)                    (* datetime.now() *)
| Put (ev : ChiaEvent) (k : coro A)               (* event_queue.put(ev), queue unbounded *)
| Print (line : string) (k : coro A).
Arguments Ret {A} a.
Arguments Throw {A} e.
Arguments Await {A X} rq k.
Arguments Now {A} k.
Arguments Put {A} ev k.
Arguments Print {A} line k.

Fixpoint bind {A B} (c : coro A) (f : A -> coro B) : coro B :=
  match c with
  | Ret a => f a
  | Throw e => Throw e
  | Await rq k => Await rq (fun x => bind (k x) f)
  | Now k => Now (fun t => bind (k t) f)
  | Put ev k => Put ev (bind k f)
  | Print s k => Print s (bind k f)
  end.

(** [try: c  except ...: h e] *)
Fixpoint try_except {A} (c : coro A) (h : exn -> coro A) : coro A :=
  match c with
  | Ret a => Ret a
  | Throw e => h e
  | Await rq k => Await rq (fun x => try_except (k x) h)
  | Now k => Now (fun t => try_except (k t) h)
  | Put ev k => Put ev (try_except k h)
  | Print s k => Print s (try_except k h)
  end.

Definition await {X} (rq : request X) : coro X :=
  Await rq (fun x => match x with Ok a => Ret a | Raised e => Throw e end).
Definition raise {A} (e : exn) : coro A := Throw e.
Definition datetime_now : coro datetime := Now Ret.
Definition print (line : string) : coro unit := Print line (Ret tt).

Declare Scope coro_scope.
Delimit Scope coro_scope with coro.
Notation "'let*' x ':=' c 'in' k" := (bind c (fun x => k))
  (at level 10, x name, c at level 100, k at level 200) : coro_scope.
Notation "'do*' c 'in' k" := (bind c (fun _ => k))
  (at level 10, c at level 100, k at level 200) : coro_scope.

(** What the process shares between its tasks. *)
Record World := {
  clock : datetime;                (* the wall clock *)
  event_queue : list ChiaEvent;    (* oldest first *)
  stdout : list string;
}.

Definition elapse (d : timedelta) (w : World) : World :=
  {| clock := clock w + d; event_queue := event_queue w; stdout := stdout w |}.
Definition put (ev : ChiaEvent) (w : World) : World :=
  {| clock := clock w; event_queue := event_queue w ++ [ev]; stdout := stdout w |}.
Definition write (line : string) (w : World) : World :=
  {| clock := clock w; event_queue := event_queue w; stdout := stdout w ++ [line] |}.

(** A coroutine awaited on its own, from start to end. *)
Fixpoint exec {A} (remote : Remote) (c : coro A) (w : World) : result A * World :=
  match c with
  | Ret a => (Ok a, w)
  | Throw e => (Raised e, w)
  | Await rq k => exec remote (k (remote _ rq)) w
  | Now k => exec remote (k (clock w)) w
  | Put ev k => exec remote k (put ev w)
  | Print s k => exec remote k (write s w)
  end.

(** The number of effects a coroutine performs up to its end, when it is
    awaited on its own at time [t]. *)
Fixpoint steps {A} (remote : Remote) (t : datetime) (c : coro A) : nat :=
  match c with
  | Ret _ | Throw _ => 0
  | Await rq k => S (steps remote t (k (remote _ rq)))
  | Now k => S (steps remote t (k t))
  | Put _ k | Print _ k => S (steps remote t k)
  end.

(** The events a coroutine puts on the queue when it is awaited on its
    own at time [t]. *)
Fixpoint emitted {A} (remote : Remote) (t : datetime) (c : coro A) : list ChiaEvent :=
  match c with
  | Ret _ | Throw _ => []
  | Await rq k => emitted remote t (k (remote _ rq))
  | Now k => emitted remote t (k t)
  | Put ev k => ev :: emitted remote t k
  | Print _ k => emitted remote t k
  end.

(** Two coroutines that differ at most in the times they have read: they
    send the same requests, end alike, and put events that agree up to
    their timestamps. *)
Inductive alike {A} : coro A -> coro A -> Prop :=
| alike_Ret a : alike (Ret a) (Ret a)
| alike_Throw e : alike (Throw e) (Throw e)
| alike_Await X (rq : request X) k k' :
    (forall x, alike (k x) (k' x)) -> alike (Await rq k) (Await rq k')
| alike_Now k k' :
    (forall t t', alike (k t) (k' t')) -> alike (Now k) (Now k')
| alike_Put ev ev' k k' :
    payload ev = payload ev' -> alike k k' -> alike (Put ev k) (Put ev' k')
| alike_Print line k k' :
    alike k k' -> alike (Print line k) (Print line k').

(** Every event the coroutine can put on the queue satisfies [P]. *)
Fixpoint puts_only {A} (P : ChiaEvent -> bool) (c : coro A) : Prop :=
  match c with
  | Ret _ | Throw _ => True
  | Await rq k => forall x, puts_only P (k x)
  | Now k => forall t, puts_only P (k t)
  | Put ev k => P ev = true /\ puts_only P k
  | Print _ k => puts_only P k
  end.

(** A task of the event loop. *)
Inductive task_state : Type :=
| Pending (c : coro unit)
| Finished (r : result unit).

(** One step of a task: its next effect. *)
Definition step_task (remote : Remote) (c : coro unit) (w : World) : task_state * World :=
  match c with
  | Ret a => (Finished (Ok a), w)
  | Throw e => (Finished (Raised e), w)
  | Await rq k => (Pending (k (remote _ rq)), w)
  | Now k => (Pending (k (clock w)), w)
  | Put ev k => (Pending k, put ev w)
  | Print s k => (Pending k, write s w)
  end.

(** [asyncio.gather(c0, c1, c2, c3)] with [return_exceptions=False]:
    the four coroutines become tasks of the event loop; the first
    exception one of them raises is handed to whoever awaits the
    gather, and the other tasks are not cancelled and go on running. *)
Inductive slot := Slot0 | Slot1 | Slot2 | Slot3.

Global Instance slot_eq_dec : EqDecision slot.
Proof. solve_decision. Defined.

Record Gather := {
  children : slot -> task_state;
  raised : option exn;             (* the first exception, for the awaiter *)
  world : World;
}.

Definition gather (c0 c1 c2 c3 : coro unit) (w : World) : Gather :=
  {| children := fun s => Pending match s with
                                  | Slot0 => c0 | Slot1 => c1 | Slot2 => c2 | Slot3 => c3
                                  end;
     raised := None;
     world := w |}.

Definition set_child (s : slot) (t : task_state) (ch : slot -> task_state)
  : slot -> task_state :=
  fun s' => if decide (s' = s) then t else ch s'.

Definition first_exception (old : option exn) (t : task_state) : option exn :=
  match t with
  | Finished (Raised e) => match old with None => Some e | Some _ => old end
  | _ => old
  end.

(** The event loop lets time [d] pass and then runs task [s] for one
    step; a finished task has nothing left to run.  A turn is one effect:
    asyncio switches tasks at an [Await] only, so what it can do is what
    the schedules do that give a task its turns in a row up to its next
    [Await]. *)
Definition step (remote : Remote) (g : Gather) (turn : slot * timedelta) : Gather :=
  let (s, d) := turn in
  let w := elapse d (world g) in
  match children g s with
  | Finished _ => {| children := children g; raised := raised g; world := w |}
  | Pending c =>
      let (t, w') := step_task remote c w in
      {| children := set_child s t (children g);
         raised := first_exception (raised g) t;
         world := w' |}
  end.

(** A schedule: which task runs next, and after how long. *)
Definition schedule := list (slot * timedelta).

Definition run (remote : Remote) (g : Gather) (sched : schedule) : Gather :=
  fold_left (step remote) sched g.

(** How often the schedule runs task [s]. *)
Definition turns (s : slot) (sched : schedule) : nat :=
  length (List.filter (fun turn => bool_decide (fst turn = s)) sched).

Definition all_finished (g : Gather) : bool :=
  forallb (fun s => match children g s with Finished _ => true | Pending _ => false end)
          [Slot0; Slot1; Slot2; Slot3].

(** What [await asyncio.gather(...)] gives its awaiter so far: nothing
    while no task has raised and some task is still pending. *)
Definition outcome (g : Gather) : option (result unit) :=
  match raised g with
  | Some e => Some (Raised e)
  | None => if all_finished g then Some (Ok tt) else None
  end.

(** A task is quiet about the events [mine] when it never puts one. *)
Definition quiet (mine : ChiaEvent -> bool) (t : task_state) : Prop :=
  match t with
  | Pending c => puts_only (fun ev => negb (mine ev)) c
  | Finished _ => True
  end.

(** The events [mine] on the queue, whenever they were observed. *)
Definition queued (mine : ChiaEvent -> bool) (w : World) : list ChiaEvent :=
  map payload (List.filter mine (event_queue w)).

(** The tasks other than [s] never put an event of [s]'s. *)
Definition others_quiet (s : slot) (mine : ChiaEvent -> bool) (g : Gather) : Prop :=
  forall s', s' <> s -> quiet mine (children g s').

(** The exception kept for the awaiter is one a task has raised, and one
    is kept as soon as a task has raised. *)
Definition raised_ok (g : Gather) : Prop :=
  match raised g with
  | None => forall s e, children g s <> Finished (Raised e)
  | Some e => exists s, children g s = Finished (Raised e)
  end.

End Asyncio.
Import Asyncio.

(** ** [monitor/collectors/rpc_collector.py] *)

Module RpcCollector.

Local Open Scope coro_scope.

(** Modelled from the spec: [Collector.publish_event] of the base class
    [monitor.collectors.collector.Collector], which is not among the
    sources: it enqueues one event on the publisher channel. *)
Definition publish_event (event : ChiaEvent) : coro unit := Put event (Ret tt).

Section Collector.

(** What [load_config(DEFAULT_ROOT_PATH, "config.yaml")] returns when it
    returns. *)
Variable config : Config.

(** The loop of [get_wallet_balance]. *)
Fixpoint wallet_balances (wallets : list Wallet) (confirmed_balances : list Z)
  : coro (list Z) :=
  match wallets with
  | [] => Ret confirmed_balances
  | wallet :: rest =>
      let* balance := await (Wallet_get_wallet_balance (id wallet)) in
      wallet_balances rest (confirmed_balances ++ [confirmed_wallet_balance balance])
  end.

Definition get_wallet_balance : coro unit :=
  let* confirmed_balances :=
    try_except
      (let* wallets := await Wallet_get_wallets in
       wallet_balances wallets [])
      (fun _ => raise (ConnectionError
                         "Failed to get wallet balance via RPC. Is your wallet running?")) in
  let* now := datetime_now in
  let event := EvWalletBalance {| wb_ts := now; confirmed := str (sum confirmed_balances) |} in
  publish_event event.

(** [f"{x}"] of a string or a number that may be [None]. *)
Definition fmt_str (x : option string) : string := default "None" x.
Definition fmt_int (x : option Z) : string :=
  match x with Some n => str n | None => "None" end.

(** What the [except] clause of [get_plots] prints, with the host name
    and the port as they are when the exception comes. *)
Definition complaint_text (harvester_rpc_hostname : option string)
                          (harvester_rpc_port : option Z) (e : exn) : string :=
  match e with
  | ClientConnectorError _ =>
      "Connection error. Check if harvester is running at "
        ++ fmt_str harvester_rpc_hostname ++ ":" ++ fmt_int harvester_rpc_port
  | _ => "Exception from 'harvester' " ++ str_exn e
  end.

Definition complain (harvester_rpc_hostname : option string) (harvester_rpc_port : option Z)
                    (e : exn) : coro unit :=
  print (complaint_text harvester_rpc_hostname harvester_rpc_port e).

(** A local variable is read that no statement has bound.  The text is
    the one of Python 3.11; nothing here reads it. *)
Definition unbound (name : string) : exn :=
  UnboundLocalError
    ("cannot access local variable '" ++ name
       ++ "' where it is not associated with a value").

(** The [try] block is entered three times over, once for each call in
    it that may raise, so that the [except] clause finds the local
    variables as the block has left them.  What the block leaves for the
    statements after it: the client, if it has been bound, and [plots].
    [harvester_client.close()] after the block raises [UnboundLocalError]
    when the client has not been bound. *)
Definition get_plots (harvester_rpc_port : option Z) (harvester_rpc_hostname : option string)
  : coro (option PlotsResponse) :=
  let* attempt :=
    try_except
      (do* await Load_config in
       let hostname := default (self_hostname config) harvester_rpc_hostname in
       let port := default (Rpc.harvester_rpc_port config) harvester_rpc_port in
       try_except
         (do* await (Harvester_create hostname port) in
          try_except
            (let* plots := await (Harvester_get_plots hostname port) in
             Ret (Some (hostname, port), Some plots))
            (fun e =>
               do* complain (Some hostname) (Some port) e in
               Ret (Some (hostname, port), None)))
         (fun e => do* complain (Some hostname) (Some port) e in Ret (None, None)))
      (fun e =>
         do* complain harvester_rpc_hostname harvester_rpc_port e in Ret (None, None)) in
  match attempt with
  | (Some (hostname, port), plots) =>
      do* await (Harvester_close hostname port) in
      Ret plots
  | (None, _) => raise (unbound "harvester_client")
  end.

(** The loop of [get_all_plots].  [all_plots] is the answer of the
    first harvester that succeeded, and [+=] extends its plot list in
    place; no one else holds that answer. *)
Fixpoint all_plots_loop (harvester_rpc_port : option Z) (harvester_hosts : list string)
                        (all_plots : option PlotsResponse) : coro (option PlotsResponse) :=
  match harvester_hosts with
  | [] => Ret all_plots
  | host :: rest =>
      let* plots := get_plots harvester_rpc_port (Some host) in
      all_plots_loop harvester_rpc_port rest
        match plots with
        | Some p =>
            if success p then
              match all_plots with
              | None => Some p
              | Some a => Some {| success := success a;
                                  plots := (Rpc.plots a ++ Rpc.plots p)%list |}
              end
            else all_plots
        | None => all_plots
        end
  end.

Definition get_all_plots (harvester_rpc_port : option Z) (harvester_hosts : list string)
  : coro (option PlotsResponse) :=
  all_plots_loop harvester_rpc_port harvester_hosts None.

Definition is_harvester (c : Connection) : bool := bool_decide (type c = HARVESTER).

(** The [try] block as in [get_plots]; it leaves the client, if it has
    been bound, and the hosts found. *)
Definition get_harvesters (farmer_rpc_port : option Z) : coro (list string) :=
  let* attempt :=
    try_except
      (do* await Load_config in
       let port := default (Rpc.farmer_rpc_port config) farmer_rpc_port in
       try_except
         (do* await (Farmer_create (self_hostname config) port) in
          try_except
            (let* connections := await (Farmer_get_connections (self_hostname config) port) in
             Ret (Some port, map peer_host (List.filter is_harvester connections)))
            (fun e =>
               do* print ("Exception from 'farmer' " ++ str_exn e) in Ret (Some port, [])))
         (fun e => do* print ("Exception from 'farmer' " ++ str_exn e) in Ret (None, [])))
      (fun e => do* print ("Exception from 'farmer' " ++ str_exn e) in Ret (None, [])) in
  match attempt with
  | (Some port, harvester_hosts) =>
      do* await (Farmer_close (self_hostname config) port) in
      Ret harvester_hosts
  | (None, _) => raise (unbound "farmer_client")
  end.

(** [plots["plots"]] of the answer of [get_all_plots], which is [None]
    when no harvester gave one. *)
Definition get_harvester_plots : coro unit :=
  let* plots :=
    try_except
      (let* harvesters := get_harvesters None in
       get_all_plots None harvesters)
      (fun _ => raise (ConnectionError
                         "Failed to get harvester plots via RPC. Is your harvester running?")) in
  let* now := datetime_now in
  match plots with
  | None => raise (TypeError "'NoneType' object is not subscriptable")
  | Some plots =>
      let event := EvHarvesterPlots
                     {| hp_ts := now;
                        plot_count := len (Rpc.plots plots);
                        plot_size := sum (map file_size (Rpc.plots plots)) |} in
      publish_event event
  end.

Definition get_blockchain_state : coro unit :=
  let* state :=
    try_except
      (await FullNode_get_blockchain_state)
      (fun _ => raise (ConnectionError
                         "Failed to get blockchain state via RPC. Is your full node running?")) in
  let* now := datetime_now in
  match state_peak state with
  | None => raise (AttributeError "'NoneType' object has no attribute 'height'")
  | Some peak =>
      let event := EvBlockchainState
                     {| bs_ts := now;
                        space := str (state_space state);
                        diffculty := state_difficulty state;
                        peak_height := str (height peak);
                        synced := state_sync_synced state |} in
      publish_event event
  end.

Definition has_type (t : NodeType) (peer : Connection) : bool := bool_decide (type peer = t).

Definition get_connections : coro unit :=
  let* peers := await FullNode_get_connections in
  let full_node_connections := List.filter (has_type FULL_NODE) peers in
  let farmer_connections := List.filter (has_type FARMER) peers in
  let wallet_connections := List.filter (has_type WALLET) peers in
  let* now := datetime_now in
  let event := EvConnections
                 {| cn_ts := now;
                    full_node_count := len full_node_connections;
                    farmer_count := len farmer_connections;
                    wallet_count := len wallet_connections |} in
  publish_event event.

(** The configuration loads and the client of the farmer can be created
    and closed. *)
Definition farmer_served (remote : Remote) : bool :=
  succeeded (remote _ Load_config)
  && succeeded (remote _ (Farmer_create (self_hostname config) (Rpc.farmer_rpc_port config)))
  && succeeded (remote _ (Farmer_close (self_hostname config) (Rpc.farmer_rpc_port config))).

(** The configuration loads and the client of the harvester at [host]
    can be created and closed. *)
Definition harvester_served (remote : Remote) (host : string) : bool :=
  succeeded (remote _ Load_config)
  && succeeded (remote _ (Harvester_create host (Rpc.harvester_rpc_port config)))
  && succeeded (remote _ (Harvester_close host (Rpc.harvester_rpc_port config))).

(** The harvesters of a poll cycle: the hosts of the peers that the
    farmer reports as harvesters ([[]] when the farmer does not answer). *)
Definition harvesters (remote : Remote) : list string :=
  match remote _ (Farmer_get_connections (self_hostname config) (Rpc.farmer_rpc_port config)) with
  | Ok connections => map peer_host (List.filter is_harvester connections)
  | Raised _ => []
  end.

(** A harvester succeeds when its [get_plots] answers with
    [success]; any other harvester fails. *)
Definition answer (remote : Remote) (host : string) : option PlotsResponse :=
  match remote _ (Harvester_get_plots host (Rpc.harvester_rpc_port config)) with
  | Ok p => if success p then Some p else None
  | Raised _ => None
  end.

(** The answers of the harvesters that succeed. *)
Definition succeeding (remote : Remote) : list PlotsResponse :=
  omap (answer remote) (harvesters remote).

(** How [get_harvesters(None)] ends. *)
Definition hosts_from (remote : Remote) : result (list string) :=
  match remote _ Load_config with
  | Raised _ => Raised (unbound "farmer_client")
  | Ok _ =>
      match remote _ (Farmer_create (self_hostname config) (Rpc.farmer_rpc_port config)) with
      | Raised _ => Raised (unbound "farmer_client")
      | Ok _ =>
          match remote _ (Farmer_close (self_hostname config) (Rpc.farmer_rpc_port config)) with
          | Raised e => Raised e
          | Ok _ => Ok (harvesters remote)
          end
      end
  end.

(** How [get_plots(None, host)] ends. *)
Definition plots_from (remote : Remote) (host : string) : result (option PlotsResponse) :=
  match remote _ Load_config with
  | Raised _ => Raised (unbound "harvester_client")
  | Ok _ =>
      match remote _ (Harvester_create host (Rpc.harvester_rpc_port config)) with
      | Raised _ => Raised (unbound "harvester_client")
      | Ok _ =>
          match remote _ (Harvester_close host (Rpc.harvester_rpc_port config)) with
          | Raised e => Raised e
          | Ok _ =>
              Ok match remote _ (Harvester_get_plots host (Rpc.harvester_rpc_port config)) with
                 | Ok p => Some p
                 | Raised _ => None
                 end
          end
      end
  end.

(** What [get_plots(None, host)] prints: nothing when its three calls
    are answered, even without [success], and else one line. *)
Definition complaint (remote : Remote) (host : string) : option string :=
  match remote _ Load_config with
  | Raised e => Some (complaint_text (Some host) None e)
  | Ok _ =>
      match remote _ (Harvester_create host (Rpc.harvester_rpc_port config)) with
      | Raised e => Some (complaint_text (Some host) (Some (Rpc.harvester_rpc_port config)) e)
      | Ok _ =>
          match remote _ (Harvester_get_plots host (Rpc.harvester_rpc_port config)) with
          | Raised e =>
              Some (complaint_text (Some host) (Some (Rpc.harvester_rpc_port config)) e)
          | Ok _ => None
          end
      end
  end.

(** The hosts that [get_all_plots] gets to: those up to the first one
    for which [get_plots] raises, that one included. *)
Fixpoint asked (remote : Remote) (hosts : list string) : list string :=
  match hosts with
  | [] => []
  | host :: rest =>
      host :: if succeeded (plots_from remote host) then asked remote rest else []
  end.

(** The clients of the farmer and of every harvester can be created and
    closed. *)
Definition served (remote : Remote) : bool :=
  farmer_served remote && forallb (harvester_served remote) (harvesters remote).

(** The four metrics of a poll cycle, in the order [task] gathers them. *)
Definition metric := slot.
Definition wallet_balance : metric := Slot0.
Definition harvester_plots : metric := Slot1.
Definition blockchain_state : metric := Slot2.
Definition connections : metric := Slot3.

Definition fetch (m : metric) : coro unit :=
  match m with
  | Slot0 => get_wallet_balance
  | Slot1 => get_harvester_plots
  | Slot2 => get_blockchain_state
  | Slot3 => get_connections
  end.

(** The kind of event a metric publishes. *)
Definition event_of (m : metric) (ev : ChiaEvent) : bool :=
  match m, ev with
  | Slot0, EvWalletBalance _ | Slot1, EvHarvesterPlots _
  | Slot2, EvBlockchainState _ | Slot3, EvConnections _ => true
  | _, _ => false
  end.

(** One poll cycle: the [asyncio.gather] of [task], run by the event
    loop along a schedule. *)
Definition poll_cycle (remote : Remote) (sched : schedule) (w : World) : Gather :=
  run remote
      (gather get_wallet_balance get_harvester_plots get_blockchain_state get_connections w)
      sched.

(** Where the [while True] loop of [task] stands. *)
Inductive loop_state : Type :=
| Looping (cycle : nat)                  (* about to start this cycle *)
| Gathering (cycle : nat)                (* waiting in the gather of this cycle *)
| Terminated (cycle : nat) (e : exn).    (* an exception left the loop in this cycle *)

(** [task], run for the poll cycles of [plan]: what the services answer
    in each cycle and how the event loop schedules it.  Nothing in the
    loop catches what the gather raises. *)
Fixpoint task (cycle : nat) (plan : list (Remote * schedule)) (w : World)
  : loop_state * World :=
  match plan with
  | [] => (Looping cycle, w)
  | (remote, sched) :: rest =>
      let g := poll_cycle remote sched w in
      match outcome g with
      | None => (Gathering cycle, world g)
      | Some (Raised e) => (Terminated cycle e, world g)
      | Some (Ok _) => task (S cycle) rest (elapse (seconds 10) (world g))
      end
  end.

(** The loop got past cycle [n]. *)
Definition proceeds_past (n : nat) (l : loop_state) : bool :=
  match l with
  | Looping c | Gathering c | Terminated c _ => bool_decide (n < c)%nat
  end.

(** The services answer every fetch of the cycle. *)
Definition all_succeed (remote : Remote) (w : World) : bool :=
  forallb (fun m => succeeded (fst (exec remote (fetch m) w)))
          [wallet_balance; harvester_plots; blockchain_state; connections].

(** The event loop runs each of the four tasks to its end. *)
Definition completes (remote : Remote) (sched : schedule) (w : World) : Prop :=
  forall m, (steps remote (clock w) (fetch m) < turns m sched)%nat.

End Collector.

(** The balances [bs] are what the wallet service answers for the wallets [ws]. *)
Definition balances_of (remote : Remote) (ws : list Wallet) (bs : list Balance) : Prop :=
  Forall2 (fun wallet b => remote _ (Wallet_get_wallet_balance (id wallet)) = Ok b) ws bs.

(** What [get_all_plots] holds after one more answer that succeeded. *)
Definition merge (all_plots : option PlotsResponse) (p : PlotsResponse) : option PlotsResponse :=
  match all_plots with
  | None => Some p
  | Some a => Some {| success := success a; plots := plots a ++ plots p |}
  end.

Definition plots_of (all_plots : option PlotsResponse) : list Plot :=
  match all_plots with
  | Some p => plots p
  | None => []
  end.

(** Two worlds that differ in what was printed only. *)
Definition printed_only (w w' : World) : Prop :=
  clock w' = clock w /\ event_queue w' = event_queue w.

End RpcCollector.

(** ** The event store ([monitor.db] and the queries of the summary) *)

Module Db.

(** One table per kind of event, rows in the order they were stored. *)
Record Store := {
  wallet_balance_events : list WalletBalanceEvent;
  harvester_plots_events : list HarvesterPlotsEvent;
  blockchain_state_events : list BlockchainStateEvent;
  connections_events : list ConnectionsEvent;
  farming_info_events : list FarmingInfoEvent;
}.

Definition empty : Store :=
  {| wallet_balance_events := []; harvester_plots_events := [];
     blockchain_state_events := []; connections_events := [];
     farming_info_events := [] |}.

(** [a] comes before [b] under [order_by(ts.desc())]. *)
Definition ts_desc {E} (ts : E -> datetime) (a b : E) : Prop := ts b <= ts a.

Global Instance ts_desc_dec {E} (ts : E -> datetime) (a b : E) : Decision (ts_desc ts a b).
Proof. unfold ts_desc. apply _. Defined.

(** [.order_by(E.ts.desc())]: a sort of the rows by falling [ts].  SQL
    leaves the order among rows with the same [ts] open; here the sort
    decides it. *)
Definition order_by_desc {E} (ts : E -> datetime) (rows : list E) : list E :=
  merge_sort (ts_desc ts) rows.

(** [.limit(n)] *)
Definition limit {E} (n : nat) (rows : list E) : list E := take n rows.

(** [result.scalars().first()] *)
Definition first {E} (rows : list E) : option E := head rows.

(** [select(E).order_by(E.ts.desc()).limit(1)], then [.scalars().first()] *)
Definition latest {E} (ts : E -> datetime) (rows : list E) : option E :=
  first (limit 1 (order_by_desc ts rows)).

(** [select(func.sum(E.col))], then [.scalars().first()]: SQL's [SUM] of
    no rows is [NULL]. *)
Definition func_sum {E} (col : E -> Z) (rows : list E) : option Z :=
  match rows with
  | [] => None
  | _ => Some (sum (map col rows))
  end.

(** Modelled from the spec: the persistence consumer, which is not
    among the sources, drains the publisher channel into the event
    store, and the store is an append-only log. *)
Definition persist (s : Store) (ev : ChiaEvent) : Store :=
  match ev with
  | EvWalletBalance e =>
      {| wallet_balance_events := wallet_balance_events s ++ [e];
         harvester_plots_events := harvester_plots_events s;
         blockchain_state_events := blockchain_state_events s;
         connections_events := connections_events s;
         farming_info_events := farming_info_events s |}
  | EvHarvesterPlots e =>
      {| wallet_balance_events := wallet_balance_events s;
         harvester_plots_events := harvester_plots_events s ++ [e];
         blockchain_state_events := blockchain_state_events s;
         connections_events := connections_events s;
         farming_info_events := farming_info_events s |}
  | EvBlockchainState e =>
      {| wallet_balance_events := wallet_balance_events s;
         harvester_plots_events := harvester_plots_events s;
         blockchain_state_events := blockchain_state_events s ++ [e];
         connections_events := connections_events s;
         farming_info_events := farming_info_events s |}
  | EvConnections e =>
      {| wallet_balance_events := wallet_balance_events s;
         harvester_plots_events := harvester_plots_events s;
         blockchain_state_events := blockchain_state_events s;
         connections_events := connections_events s ++ [e];
         farming_info_events := farming_info_events s |}
  | EvFarmingInfo e =>
      {| wallet_balance_events := wallet_balance_events s;
         harvester_plots_events := harvester_plots_events s;
         blockchain_state_events := blockchain_state_events s;
         connections_events := connections_events s;
         farming_info_events := farming_info_events s ++ [e] |}
  end.

Definition persist_all (s : Store) (events : list ChiaEvent) : Store :=
  fold_left persist events s.

End Db.
Import Db.

(** ** [monitor/notifications/summary.py] *)

Module SummaryNotification.

(** A call of [apobj.notify]: when, and with which title and body. *)
Record Notify := {
  sent_at : datetime;
  title : string;
  body : string;
}.

(** What a rule runs in.  [summary_interval] and [last_summary_ts] are
    attributes of the class; [self.last_summary_ts = ...] gives the
    object [self] an attribute of its own, which from then on hides the
    one of the class for that object only. *)
Record Process := {
  time : datetime;                              (* the wall clock *)
  passing : list timedelta;                     (* the time that passes before each coming effect *)
  db : Store;
  db_up : list bool;                            (* whether the store answers each coming query *)
  summary_interval : timedelta;                 (* class attribute *)
  last_summary_ts : datetime;                   (* class attribute *)
  own_last_summary_ts : gmap nat datetime;      (* instance attribute, by object *)
  notified : list Notify;                       (* most recent first *)
}.

Definition M (A : Type) : Type := Process -> result A * Process.

Definition ret {A} (a : A) : M A := fun p => (Ok a, p).
Definition raise {A} (e : exn) : M A := fun p => (Raised e, p).
Definition bind {A B} (c : M A) (f : A -> M B) : M B :=
  fun p => match c p with
           | (Ok a, p') => f a p'
           | (Raised e, p') => (Raised e, p')
           end.

Declare Scope rule_scope.
Delimit Scope rule_scope with rule.
Notation "'let*' x ':=' c 'in' k" := (bind c (fun x => k))
  (at level 10, x name, c at level 100, k at level 200) : rule_scope.
Notation "'do*' c 'in' k" := (bind c (fun _ => k))
  (at level 10, c at level 100, k at level 200) : rule_scope.
Local Open Scope rule_scope.

(** Time passes before an effect. *)
Definition tick : M unit := fun p =>
  match passing p with
  | [] => (Ok tt, p)
  | d :: rest =>
      (Ok tt, {| time := time p + d; passing := rest; db := db p; db_up := db_up p;
                 summary_interval := summary_interval p;
                 last_summary_ts := last_summary_ts p;
                 own_last_summary_ts := own_last_summary_ts p;
                 notified := notified p |})
  end.

(** [datetime.now()] *)
Definition datetime_now : M datetime :=
  do* tick in fun p => (Ok (time p), p).

(** [await db_session.execute(query)]; the store may be out of reach. *)
Definition execute {A} (query : Store -> A) : M A :=
  do* tick in fun p =>
    let answered (up : list bool) :=
      {| time := time p; passing := passing p; db := db p; db_up := up;
         summary_interval := summary_interval p;
         last_summary_ts := last_summary_ts p;
         own_last_summary_ts := own_last_summary_ts p;
         notified := notified p |} in
    match db_up p with
    | [] => (Ok (query (db p)), p)
    | true :: rest => (Ok (query (db p)), answered rest)
    | false :: rest => (Raised (OperationalError "unable to open database"), answered rest)
    end.

(** [self.apobj.notify(title=..., body=...)] *)
Definition notify (title body : string) : M unit :=
  do* tick in fun p =>
    (Ok tt, {| time := time p; passing := passing p; db := db p; db_up := db_up p;
               summary_interval := summary_interval p;
               last_summary_ts := last_summary_ts p;
               own_last_summary_ts := own_last_summary_ts p;
               notified := {| sent_at := time p; title := title; body := body |}
                             :: notified p |}).

(** [self.last_summary_ts], read: the object's own attribute if it has
    one, else the attribute of the class. *)
Definition observed_last_summary_ts (self : nat) (p : Process) : datetime :=
  default (last_summary_ts p) (own_last_summary_ts p !! self).

Definition get_last_summary_ts (self : nat) : M datetime :=
  fun p => (Ok (observed_last_summary_ts self p), p).

(** [self.summary_interval], read: no object ever gets one of its own. *)
Definition get_summary_interval (self : nat) : M timedelta :=
  fun p => (Ok (summary_interval p), p).

(** [self.last_summary_ts = v] *)
Definition set_last_summary_ts (self : nat) (v : datetime) : M unit := fun p =>
  (Ok tt, {| time := time p; passing := passing p; db := db p; db_up := db_up p;
             summary_interval := summary_interval p;
             last_summary_ts := last_summary_ts p;
             own_last_summary_ts := <[self := v]> (own_last_summary_ts p);
             notified := notified p |}).

(** The body of [class SummaryNotification], run once when the module
    is imported. *)
Definition class_body : M unit :=
  let summary_interval := timedelta_hours 1 in
  let* now := datetime_now in
  fun p =>
    (Ok tt, {| time := time p; passing := passing p; db := db p; db_up := db_up p;
               summary_interval := summary_interval;
               last_summary_ts := now - summary_interval;
               own_last_summary_ts := own_last_summary_ts p;
               notified := notified p |}).

Definition condition (self : nat) : M bool :=
  let* now := datetime_now in
  let* last_summary_ts := get_last_summary_ts self in
  let* summary_interval := get_summary_interval self in
  if bool_decide (now - last_summary_ts > summary_interval) then
    let* now := datetime_now in
    do* set_last_summary_ts self now in
    ret true
  else
    ret false.

(** [int(s)] *)
Definition int_of (s : string) : M Z :=
  match int s with
  | Some n => ret n
  | None => raise (ValueError ("invalid literal for int() with base 10: '" ++ s ++ "'"))
  end.

Definition farm_status_title : string := "** 👨‍🌾 Farm Status 👩‍🌾 **".

Section Rule.

(** [monitor.format], which is not among the sources. *)
Variable format_plot_count : Z -> string.
Variable format_balance : Z -> string.
Variable format_space : Z -> string.
Variable format_peak_height : string -> string.
Variable format_full_node_count : Z -> string.
Variable format_synced : bool -> string.
Variable format_proofs : Z -> string.

Definition trigger (self : nat) : M unit :=
  let* last_plots := execute (fun s => latest hp_ts (harvester_plots_events s)) in
  let* last_state := execute (fun s => latest bs_ts (blockchain_state_events s)) in
  let* last_balance := execute (fun s => latest wb_ts (wallet_balance_events s)) in
  let* last_connections := execute (fun s => latest cn_ts (connections_events s)) in
  let* proofs_found := execute (fun s => func_sum proofs (farming_info_events s)) in
  match last_plots, last_balance, last_state, last_connections, proofs_found with
  | Some last_plots, Some last_balance, Some last_state, Some last_connections,
    Some proofs_found =>
      let* balance := int_of (confirmed last_balance) in
      let* space := int_of (space last_state) in
      let summary :=
        join newline
             [ format_plot_count (plot_count last_plots);
               format_balance balance;
               format_space space;
               format_peak_height (peak_height last_state);
               format_full_node_count (full_node_count last_connections);
               format_synced (synced last_state);
               format_proofs proofs_found ] in
      do* notify farm_status_title summary in
      let* now := datetime_now in
      set_last_summary_ts self now
  | _, _, _, _, _ => ret tt
  end.

(** Modelled from the spec: the Notification Driver, which is not among
    the sources.  On each of its ticks it evaluates [condition()] of a
    rule and then, if that gave true, [trigger()]; a failure of the
    rule stays within the tick. *)
Definition driver_tick (self : nat) : M unit :=
  let* fire := condition self in
  if fire then trigger self else ret tt.

Fixpoint drive (ticks : nat) (self : nat) (p : Process) : Process :=
  match ticks with
  | O => p
  | S n => drive n self (snd (driver_tick self p))
  end.

End Rule.

(** The times of the [notify] calls, most recent first. *)
Definition notify_times (p : Process) : list datetime := map sent_at (notified p).

(** The calls that fall into the window from [a] to [a + c]. *)
Definition in_window (a : datetime) (c : timedelta) (times : list datetime) : list datetime :=
  List.filter (fun t => bool_decide (a <= t <= a + c)) times.

(** The wall clock does not go back. *)
Definition monotone (p : Process) : Prop := Forall (fun d => 0 <= d) (passing p).

(** Calls, most recent first, any two of which are more than [c] apart. *)
Definition spaced (c : timedelta) (times : list datetime) : Prop :=
  StronglySorted (fun later earlier => later - earlier > c) times.

(** The object [self] with [self.last_summary_ts = v]. *)
Definition stamped (self : nat) (v : datetime) (p : Process) : Process :=
  snd (set_last_summary_ts self v p).

(** What the rule reads from the store in [trigger]. *)
Definition complete (s : Store) : bool :=
  match latest hp_ts (harvester_plots_events s), latest bs_ts (blockchain_state_events s),
        latest wb_ts (wallet_balance_events s), latest cn_ts (connections_events s),
        func_sum proofs (farming_info_events s) with
  | Some _, Some _, Some _, Some _, Some _ => true
  | _, _, _, _, _ => false
  end.

(** [p'] is [p] some time later: the store and the class are as they were. *)
Record later (p p' : Process) : Prop := {
  later_db : db p' = db p;
  later_interval : summary_interval p' = summary_interval p;
  later_last : last_summary_ts p' = last_summary_ts p;
  later_time : monotone p -> time p <= time p' /\ monotone p';
}.

(** Nothing but time has passed: also the objects and the calls of
    [notify] are as they were. *)
Record steady (p p' : Process) : Prop := {
  steady_later : later p p';
  steady_own : own_last_summary_ts p' = own_last_summary_ts p;
  steady_notified : notified p' = notified p;
}.

(** What the debounce keeps: the clock does not go back, the calls of
    [notify] so far are more than the interval [c] apart, and none of them
    is later than the [last_summary_ts] of [self]. *)
Definition cooled (c : timedelta) (self : nat) (p : Process) : Prop :=
  monotone p /\ summary_interval p = c /\
  spaced c (notify_times p) /\
  Forall (fun t => t <= observed_last_summary_ts self p) (notify_times p).

End SummaryNotification.


(** * Two settings to run the code in *)

(** ** A farm to run the collector on *)

Module Farm.

Definition config : Config :=
  {| self_hostname := "localhost"; harvester_rpc_port := 8560; farmer_rpc_port := 8559 |}.

(** The services of a farm with the wallets [1] and [2] and the harvesters
    [h1] and [h2].  [wallet_up] tells whether the wallet service answers,
    [balance] what wallet [1] holds (wallet [2] holds 50), and
    [harvesters_up] which harvesters answer. *)
Definition services (wallet_up : bool) (balance : Z) (harvesters_up : list string) : Remote :=
  fun X rq =>
    match rq in request X return result X with
    | Wallet_get_wallets =>
        if wallet_up then Ok [ {| id := 1 |}; {| id := 2 |} ]
        else Raised (ClientConnectorError "Cannot connect to host localhost:9256")
    | Wallet_get_wallet_balance wallet_id =>
        Ok {| confirmed_wallet_balance := if Z.eqb wallet_id 1 then balance else 50 |}
    | Load_config | Farmer_create _ _ | Farmer_close _ _
    | Harvester_create _ _ | Harvester_close _ _ => Ok tt
    | Farmer_get_connections _ _ =>
        Ok [ {| type := HARVESTER; peer_host := "h1" |};
             {| type := FULL_NODE; peer_host := "n1" |};
             {| type := HARVESTER; peer_host := "h2" |} ]
    | Harvester_get_plots host _ =>
        if existsb (String.eqb host) harvesters_up then
          Ok {| success := true;
                plots := if String.eqb host "h1"
                         then [ {| file_size := 10 |}; {| file_size := 20 |} ]
                         else [ {| file_size := 5 |} ] |}
        else Raised (ClientConnectorError ("Cannot connect to host " ++ host ++ ":8560"))%string
    | FullNode_get_blockchain_state =>
        Ok {| state_space := 1000; state_difficulty := 7;
              state_peak := Some {| height := 42 |}; state_sync_synced := true |}
    | FullNode_get_connections =>
        Ok [ {| type := FULL_NODE; peer_host := "n1" |};
             {| type := WALLET; peer_host := "localhost" |};
             {| type := FULL_NODE; peer_host := "n2" |} ]
    end.

Definition all_up : Remote := services true 50 ["h1"; "h2"].
Definition all_up_later : Remote := services true 100 ["h1"; "h2"].
Definition wallet_down : Remote := services false 100 ["h1"; "h2"].
Definition one_harvester_down : Remote := services true 50 ["h1"].

(** The client for [h2] cannot be created; everything else is up. *)
Definition h2_refused : Remote :=
  fun X rq =>
    match rq in request X return result X with
    | Harvester_create host port =>
        if String.eqb host "h2"
        then Raised (Exception "Failed to load SSL certificates")
        else Ok tt
    | rq' => all_up _ rq'
    end.

(** The full node has no block yet. *)
Definition no_peak : Remote :=
  fun X rq =>
    match rq in request X return result X with
    | FullNode_get_blockchain_state =>
        Ok {| state_space := 0; state_difficulty := 0; state_peak := None;
              state_sync_synced := false |}
    | rq' => all_up _ rq'
    end.

(** The event loop gives each of the four tasks a turn, one after the
    other, a millisecond apart, [n] times over. *)
Definition round_robin (n : nat) : schedule :=
  concat (repeat [(Slot0, 1000); (Slot1, 1000); (Slot2, 1000); (Slot3, 1000)] n).

Definition start : World := {| clock := 1000000; event_queue := []; stdout := [] |}.

(** Three poll cycles: the wallets hold 100 in the first and 150 in the
    second, and the wallet service does not answer in the third. *)
Definition three_cycles : World :=
  snd (RpcCollector.task config 0
         [(all_up, round_robin 20); (all_up_later, round_robin 20);
          (wallet_down, round_robin 20)] start).

(** What the store holds after them. *)
Definition stored : Store := persist_all Db.empty (event_queue three_cycles).

End Farm.

(** ** A rule to drive *)

Module Office.

Import SummaryNotification.

Definition format_plot_count (n : Z) : string := ("Plot Count: " ++ str n)%string.
Definition format_balance (n : Z) : string := ("Total Balance: " ++ str n)%string.
Definition format_space (n : Z) : string := ("Current Netspace: " ++ str n)%string.
Definition format_peak_height (s : string) : string := ("Peak Height: " ++ s)%string.
Definition format_full_node_count (n : Z) : string := ("Peer Count: " ++ str n)%string.
Definition format_synced (b : bool) : string :=
  ("Synchronized: " ++ if b then "True" else "False")%string.
Definition format_proofs (n : Z) : string := ("Proofs found: " ++ str n)%string.

Definition trigger : nat -> M unit :=
  SummaryNotification.trigger format_plot_count format_balance format_space
    format_peak_height format_full_node_count format_synced format_proofs.
Definition driver_tick : nat -> M unit :=
  SummaryNotification.driver_tick format_plot_count format_balance format_space
    format_peak_height format_full_node_count format_synced format_proofs.
Definition drive : nat -> nat -> Process -> Process :=
  SummaryNotification.drive format_plot_count format_balance format_space
    format_peak_height format_full_node_count format_synced format_proofs.

(** A store with one event of each kind. *)
Definition store : Store :=
  {| wallet_balance_events := [ {| wb_ts := 10; confirmed := "100" |} ];
     harvester_plots_events := [ {| hp_ts := 10; plot_count := 3; plot_size := 35 |} ];
     blockchain_state_events :=
       [ {| bs_ts := 10; space := "1000"; diffculty := 7; peak_height := "42";
            synced := true |} ];
     connections_events :=
       [ {| cn_ts := 10; full_node_count := 2; farmer_count := 0; wallet_count := 1 |} ];
     farming_info_events := [ {| fi_ts := 10; proofs := 1 |} ] |}.

(** The process before the module is imported: the class has no
    attributes yet (the zeros stand for that). *)
Definition fresh (passing : list timedelta) (db : Store) (db_up : list bool) : Process :=
  {| time := 1000000; passing := passing; db := db; db_up := db_up;
     summary_interval := 0; last_summary_ts := 0;
     own_last_summary_ts := ∅; notified := [] |}.

(** The process once the module is imported. *)
Definition imported (passing : list timedelta) (db : Store) (db_up : list bool) : Process :=
  snd (class_body (fresh passing db db_up)).

Definition minutes (m : Z) : timedelta := m * 60 * 1000000.

(** Seven minutes pass before each effect; the store has everything and
    answers. *)
Definition busy : Process := imported (repeat (minutes 7) 60) store [].


(** No wallet balance has been stored yet. *)
Definition no_balance : Process :=
  imported [5; 1; 1; 1; 1; 1; 1; 1; 1]
    {| wallet_balance_events := [];
       harvester_plots_events := harvester_plots_events store;
       blockchain_state_events := blockchain_state_events store;
       connections_events := connections_events store;
       farming_info_events := farming_info_events store |} [].

(** The clock reads on the first tick what it read in the class body. *)
Definition same_instant : Process := imported [5; 0; 0] store [].

End Office.

(** * The clients of the collector: [create] and [close] *)

Module Lifecycle.

Import Py.

(** A value of the configuration that [load_config] has read. *)
#[warnings="-register-all"]
Inductive value : Type :=
| VStr (s : string)
| VInt (n : Z)
| VDict (entries : gmap string value).

Inductive service : Type := FullNode | Wallet | Harvester | Farmer.

(** An RPC client object; [serial] tells the objects apart. *)
Record RpcClient := {
  serial : nat;
  kind : service;
  hostname : value;
  port : Z;
}.

(** The collector with its four clients. *)
Record RpcCollector := {
  full_node_client : RpcClient;
  wallet_client : RpcClient;
  harvester_client : RpcClient;
  farmer_client : RpcClient;
}.

(** What can be raised here: besides the exceptions of [Py], the
    [KeyError] of a dictionary. *)
Inductive error : Type :=
| KeyError (key : string)
| Error (e : exn).

Inductive outcome (A : Type) : Type :=
| Returned (a : A)
| Raises (e : error).
Arguments Returned {A} a.
Arguments Raises {A} e.

(** The clients that were created and those that were closed, each in
    the order in which it happened. *)
Record Clients := {
  created : list RpcClient;
  closed : list RpcClient;
}.

Definition M (A : Type) : Type := Clients -> outcome A * Clients.

Definition ret {A} (a : A) : M A := fun st => (Returned a, st).
Definition raise {A} (e : error) : M A := fun st => (Raises e, st).
Definition bind {A B} (c : M A) (f : A -> M B) : M B :=
  fun st => match c st with
            | (Returned a, st') => f a st'
            | (Raises e, st') => (Raises e, st')
            end.

Declare Scope clients_scope.
Delimit Scope clients_scope with clients.
Notation "'let*' x ':=' c 'in' k" := (bind c (fun x => k))
  (at level 10, x name, c at level 100, k at level 200) : clients_scope.
Notation "'do*' c 'in' k" := (bind c (fun _ => k))
  (at level 10, c at level 100, k at level 200) : clients_scope.
Local Open Scope clients_scope.

(** [d[key]] *)
Definition getitem (d : value) (key : string) : M value :=
  match d with
  | VDict entries =>
      match entries !! key with
      | Some v => ret v
      | None => raise (KeyError key)
      end
  | VStr _ => raise (Error (TypeError "string indices must be integers"))
  | VInt _ => raise (Error (TypeError "'int' object is not subscriptable"))
  end.

Section Environment.

(** [chia.util.ints.uint16], which is not among the sources. *)
Variable uint16 : value -> result Z.

(** Whether the [create] of the client class of a service raises, for a
    host and a port; the client classes are not among the sources. *)
Variable refuses : service -> value -> Z -> option exn.

(** Whether closing a client raises. *)
Variable lingers : RpcClient -> option exn.

Definition to_uint16 (v : value) : M Z :=
  match uint16 v with
  | Ok n => ret n
  | Raised e => raise (Error e)
  end.

(** [await FullNodeRpcClient.create(self_hostname, port, root_path, net_config)]
    and the like for the other services. *)
Definition RpcClient_create (kind : service) (self_hostname : value) (port : Z)
  : M RpcClient :=
  fun st =>
    match refuses kind self_hostname port with
    | Some e => (Raises (Error e), st)
    | None =>
        let client := {| serial := length (created st); kind := kind;
                         hostname := self_hostname; port := port |} in
        (Returned client, {| created := created st ++ [client]; closed := closed st |})
    end.

Definition create (net_config : value) : M RpcCollector :=
  let* self_hostname := getitem net_config "self_hostname" in
  let* full_node_rpc_port :=
    (let* section := getitem net_config "full_node" in getitem section "rpc_port") in
  let* wallet_rpc_port :=
    (let* section := getitem net_config "wallet" in getitem section "rpc_port") in
  let* harvester_rpc_port :=
    (let* section := getitem net_config "harvester" in getitem section "rpc_port") in
  let* farmer_rpc_port :=
    (let* section := getitem net_config "farmer" in getitem section "rpc_port") in
  let* full_node_client :=
    (let* port := to_uint16 full_node_rpc_port in
     RpcClient_create FullNode self_hostname port) in
  let* wallet_client :=
    (let* port := to_uint16 wallet_rpc_port in
     RpcClient_create Wallet self_hostname port) in
  let* harvester_client :=
    (let* port := to_uint16 harvester_rpc_port in
     RpcClient_create Harvester self_hostname port) in
  let* farmer_client :=
    (let* port := to_uint16 farmer_rpc_port in
     RpcClient_create Farmer self_hostname port) in
  ret {| full_node_client := full_node_client; wallet_client := wallet_client;
         harvester_client := harvester_client; farmer_client := farmer_client |}.

(** [rpc_client.close()] and [await rpc_client.await_closed()] *)
Definition close_rpc_client (rpc_client : RpcClient) : M unit :=
  fun st =>
    match lingers rpc_client with
    | Some e => (Raises (Error e), st)
    | None => (Returned tt, {| created := created st; closed := closed st ++ [rpc_client] |})
    end.

Definition close (self : RpcCollector) : M unit :=
  do* close_rpc_client (full_node_client self) in
  do* close_rpc_client (wallet_client self) in
  do* close_rpc_client (harvester_client self) in
  close_rpc_client (farmer_client self).

End Environment.

(** The clients of a collector, in the order of its fields. *)
Definition clients (self : RpcCollector) : list RpcClient :=
  [full_node_client self; wallet_client self; harvester_client self; farmer_client self].

(** The RPC port that the configuration gives for a service. *)
Definition rpc_port (net_config : gmap string value) (section : string) : option value :=
  match net_config !! section with
  | Some (VDict entries) => entries !! "rpc_port"
  | _ => None
  end.

(** The clients that are still open. *)
Definition still_open (st : Clients) : list RpcClient :=
  List.filter (fun c => negb (existsb (Nat.eqb (serial c)) (map serial (closed st))))
              (created st).

(** A configuration as the YAML file has it, and services that accept
    every connection. *)
Definition net_config : gmap string value :=
  {[ "self_hostname" := VStr "localhost";
     "full_node" := VDict {[ "rpc_port" := VInt 8555 ]};
     "wallet" := VDict {[ "rpc_port" := VInt 9256 ]};
     "harvester" := VDict {[ "rpc_port" := VInt 8560 ]};
     "farmer" := VDict {[ "rpc_port" := VInt 8559 ]} ]}.

Definition checked_uint16 (v : value) : result Z :=
  match v with
  | VInt n => if bool_decide (0 <= n < 65536) then Ok n
              else Raised (ValueError "Value is not in range of uint16")
  | _ => Raised (ValueError "not a number")
  end.

Definition nobody : Clients := {| created := []; closed := [] |}.

(** Every service accepts its client. *)
Definition welcome (kind : service) (host : value) (port : Z) : option exn := None.

(** The wallet does not, the others do. *)
Definition wallet_refuses (kind : service) (host : value) (port : Z) : option exn :=
  match kind with
  | Wallet => Some (ClientConnectorError "Cannot connect to host localhost:9256")
  | _ => None
  end.

(** Every client closes. *)
Definition closes (client : RpcClient) : option exn := None.

End Lifecycle.

(** * What a run shows *)

(** The notions in which the outcomes of the collector and of the rule
    are told. *)

Section Outcomes.

Import RpcCollector.

(** The peers that [get_connections] counts. *)
Definition counted (peer : Connection) : bool :=
  has_type FULL_NODE peer || has_type FARMER peer || has_type WALLET peer.

(** The events of the websocket collector. *)
Definition is_farming (ev : ChiaEvent) : bool :=
  match ev with EvFarmingInfo _ => true | _ => false end.

Variable config : Config.
Variable remote : Remote.

(** What [get_all_plots] gives for the hosts, as a list of plots. *)
Definition all_plots (hosts : list string) (w : World) : list Plot :=
  match fst (exec remote (get_all_plots config None hosts) w) with
  | Ok (Some p) => plots p
  | _ => []
  end.

End Outcomes.

(** ** Timestamps *)

(** With the clock at [u] or later, every event the coroutine puts is
    stamped no earlier than [lo] and no later than the clock at the time
    it is put. *)
Fixpoint stamps {A} (lo u : datetime) (c : coro A) : Prop :=
  match c with
  | Ret _ | Throw _ => True
  | Await rq k => forall x, stamps lo u (k x)
  | Now k => forall t, u <= t -> stamps lo t (k t)
  | Put ev k => lo <= ts ev <= u /\ stamps lo u k
  | Print _ k => stamps lo u k
  end.

(** The tasks of a gather stamp on time, and so did what the gather has
    put on the queue [q0] so far. *)
Definition on_time (lo : datetime) (q0 : list ChiaEvent) (g : Gather) : Prop :=
  (forall s, match children g s with
             | Pending c => stamps lo (clock (world g)) c
             | Finished _ => True
             end) /\
  exists new, event_queue (world g) = (q0 ++ new)%list /\
              Forall (fun ev => lo <= ts ev <= clock (world g)) new.

(** The clock does not go back during the schedule. *)
Definition forward (sched : schedule) : Prop := Forall (fun turn => 0 <= snd turn) sched.

(** In every cycle of the plan the clock does not go back and the event
    loop runs each of the four tasks to its end. *)
Definition punctual (config : Config) (plan : list (Remote * schedule)) : Prop :=
  Forall (fun cycle =>
            forward (snd cycle) /\
            forall t m, (steps (fst cycle) t (RpcCollector.fetch config m)
                         < turns m (snd cycle))%nat) plan.

(** One event after the other, each stamped later than the one before. *)
Definition ascending (events : list ChiaEvent) : Prop :=
  StronglySorted (fun a b => ts a < ts b) events.

(** The wallet balances among the events, in their order. *)
Definition wallet_rows (events : list ChiaEvent) : list WalletBalanceEvent :=
  omap (fun ev => match ev with EvWalletBalance e => Some e | _ => None end) events.

(** ** Numbers as strings *)

(** The numbers that the event carries as strings read as numbers. *)
Definition readable (ev : ChiaEvent) : bool :=
  match ev with
  | EvWalletBalance e => bool_decide (is_Some (int (confirmed e)))
  | EvBlockchainState e => bool_decide (is_Some (int (space e)))
  | _ => true
  end.

(** The tasks of a gather put readable events only, and so did
    everything before them. *)
Definition legible (g : Gather) : Prop :=
  (forall s, match children g s with
             | Pending c => puts_only readable c
             | Finished _ => True
             end) /\
  Forall (fun ev => readable ev = true) (event_queue (world g)).

(** ** The summary *)

(** The store answers the next [n] queries. *)
Definition reachable (n : nat) (p : SummaryNotification.Process) : Prop :=
  Forall (fun up => up = true) (take n (SummaryNotification.db_up p)).

Section Summary.

Import SummaryNotification.

Variable format_plot_count : Z -> string.
Variable format_balance : Z -> string.
Variable format_space : Z -> string.
Variable format_peak_height : string -> string.
Variable format_full_node_count : Z -> string.
Variable format_synced : bool -> string.
Variable format_proofs : Z -> string.

(** The summary of a store, when the store has everything and the
    numbers in it read as numbers. *)
Definition summary_of (s : Store) : option string :=
  match latest hp_ts (harvester_plots_events s), latest wb_ts (wallet_balance_events s),
        latest bs_ts (blockchain_state_events s), latest cn_ts (connections_events s),
        func_sum proofs (farming_info_events s) with
  | Some last_plots, Some last_balance, Some last_state, Some last_connections,
    Some proofs_found =>
      match int (confirmed last_balance), int (space last_state) with
      | Some balance, Some space =>
          Some (join newline
                  [ format_plot_count (plot_count last_plots);
                    format_balance balance;
                    format_space space;
                    format_peak_height (peak_height last_state);
                    format_full_node_count (full_node_count last_connections);
                    format_synced (synced last_state);
                    format_proofs proofs_found ])
      | _, _ => None
      end
  | _, _, _, _, _ => None
  end.

(** The five lookups of [trigger], lines 24 to 42, and what they find:
    the latest harvester plots, blockchain state, wallet balance and
    connections, and the sum of the proofs. *)
Definition lookups
  : M (option HarvesterPlotsEvent * option BlockchainStateEvent * option WalletBalanceEvent
       * option ConnectionsEvent * option Z) :=
  (let* last_plots := execute (fun s => latest hp_ts (harvester_plots_events s)) in
   let* last_state := execute (fun s => latest bs_ts (blockchain_state_events s)) in
   let* last_balance := execute (fun s => latest wb_ts (wallet_balance_events s)) in
   let* last_connections := execute (fun s => latest cn_ts (connections_events s)) in
   let* proofs_found := execute (fun s => func_sum proofs (farming_info_events s)) in
   ret (last_plots, last_state, last_balance, last_connections, proofs_found))%rule.

(** The rest of [trigger], lines 44 to 56, for what the lookups have
    found. *)
Definition summarise (self : nat)
    (found : option HarvesterPlotsEvent * option BlockchainStateEvent
             * option WalletBalanceEvent * option ConnectionsEvent * option Z) : M unit :=
  let '(last_plots, last_state, last_balance, last_connections, proofs_found) := found in
  match last_plots, last_balance, last_state, last_connections, proofs_found with
  | Some last_plots, Some last_balance, Some last_state, Some last_connections,
    Some proofs_found =>
      (let* balance := int_of (confirmed last_balance) in
       let* space := int_of (space last_state) in
       let summary :=
         join newline
              [ format_plot_count (plot_count last_plots);
                format_balance balance;
                format_space space;
                format_peak_height (peak_height last_state);
                format_full_node_count (full_node_count last_connections);
                format_synced (synced last_state);
                format_proofs proofs_found ] in
       do* notify farm_status_title summary in
       let* now := datetime_now in
       set_last_summary_ts self now)%rule
  | _, _, _, _, _ => ret tt
  end.

End Summary.

(** The latest wallet balance in the store is no number. *)
Definition garbled : SummaryNotification.Process :=
  Office.imported [5; 1; 1; 1; 1; 1; 1; 1; 1]
    {| wallet_balance_events := [ {| wb_ts := 10; confirmed := "n/a" |} ];
       harvester_plots_events := harvester_plots_events Office.store;
       blockchain_state_events := blockchain_state_events Office.store;
       connections_events := connections_events Office.store;
       farming_info_events := farming_info_events Office.store |} [].

(** * Properties *)

Local Open Scope list_scope.

(** ** Python integers and strings *)

Section PyFacts.

Lemma fold_add_sum (xs : list Z) (a : Z) : fold_left Z.add xs a = a + sum xs.
Proof.
  unfold sum. revert a.
  induction xs as [|x xs IH]; intros a; simpl; [lia|].
  rewrite (IH (a + x)), (IH (0 + x)). lia.
Qed.

Lemma sum_nil : sum [] = 0.
Proof. reflexivity. Qed.

Lemma sum_cons (x : Z) (xs : list Z) : sum (x :: xs) = x + sum xs.
Proof. unfold sum at 1. simpl. apply fold_add_sum. Qed.

Lemma sum_app (xs ys : list Z) : sum (xs ++ ys) = sum xs + sum ys.
Proof.
  induction xs as [|x xs IH]; simpl.
  - rewrite sum_nil. lia.
  - rewrite !sum_cons, IH. lia.
Qed.

Lemma sum_nonneg (xs : list Z) : Forall (fun x => 0 <= x) xs -> 0 <= sum xs.
Proof.
  induction 1 as [|x xs Hx _ IH]; [rewrite sum_nil; lia|].
  rewrite sum_cons. lia.
Qed.

Lemma len_app {A} (xs ys : list A) : len (xs ++ ys) = len xs + len ys.
Proof. unfold len. rewrite length_app. lia. Qed.

Lemma all_digits_of_uint (d : Decimal.uint) : all_digits (NilEmpty.string_of_uint d) = true.
Proof. induction d; simpl; auto. Qed.

Lemma digit_no_space (c : ascii) : is_digit c = true -> is_space c = false.
Proof. destruct c as [[] [] [] [] [] [] [] []]; intros H; solve [reflexivity | discriminate H]. Qed.

Lemma digit_no_underscore (c : ascii) : is_digit c = true -> Ascii.eqb c "_" = false.
Proof.
  intros H. apply Ascii.eqb_neq. intros ->. discriminate H.
Qed.

Lemma rstrip_digits (s : string) : all_digits s = true -> rstrip s = s.
Proof.
  induction s as [|c rest IH]; simpl; [reflexivity|].
  intros H. apply andb_prop in H. destruct H as [Hc Hrest].
  rewrite (IH Hrest). destruct rest; [|reflexivity].
  rewrite (digit_no_space c Hc). reflexivity.
Qed.

Lemma ungroup_digits (s : string) (b : bool) : all_digits s = true -> ungroup b s = Some s.
Proof.
  revert b. induction s as [|c rest IH]; simpl; intros b H; [reflexivity|].
  apply andb_prop in H. destruct H as [Hc Hrest].
  rewrite (digit_no_underscore c Hc), (IH _ Hrest). reflexivity.
Qed.

Lemma int_digits (s : string) (c : ascii) (negative : bool) :
  is_digit c = true -> all_digits s = true ->
  int (if negative then String "-" (String c s) else String c s)
  = option_map (fun d => if negative then - Z.of_uint d else Z.of_uint d)
               (NilZero.uint_of_string (String c s)).
Proof.
  intros Hc Hs.
  assert (Hall : all_digits (String c s) = true) by (simpl; rewrite Hc, Hs; reflexivity).
  unfold int, strip. destruct negative.
  - cbn [lstrip]. change (is_space "-") with false. cbv iota.
    assert (Hr : rstrip (String "-" (String c s)) = String "-" (String c s)).
    { change (rstrip (String "-" (String c s)))
        with (match rstrip (String c s) with
              | EmptyString => if is_space "-" then EmptyString else String "-" EmptyString
              | kept => String "-" kept
              end).
      rewrite (rstrip_digits _ Hall). reflexivity. }
    rewrite Hr. rewrite (ungroup_digits _ false Hall). reflexivity.
  - cbn [lstrip]. rewrite (digit_no_space c Hc). rewrite (rstrip_digits _ Hall).
    assert (Hsign : match String c s with
                    | String "-" rest => (true, rest)
                    | String "+" rest => (false, rest)
                    | _ => (false, String c s)
                    end = (false, String c s)).
    { destruct c as [[] [] [] [] [] [] [] []]; try reflexivity; discriminate Hc. }
    rewrite Hsign. rewrite (ungroup_digits _ false Hall). reflexivity.
Qed.

Lemma uint_nonnil_string (d : Decimal.uint) :
  d <> Decimal.Nil ->
  exists c s, NilZero.string_of_uint d = String c s /\ is_digit c = true /\ all_digits s = true.
Proof.
  intros Hd. pose proof (all_digits_of_uint d) as H.
  destruct d; [congruence|..]; simpl in *; eexists _, _; (split; [reflexivity|]);
    (split; [reflexivity|exact H]).
Qed.

(** [int] reads back what [str] wrote. *)
Lemma int_str (n : Z) : int (str n) = Some n.
Proof.
  unfold str.
  assert (Hpos : forall (d : Decimal.uint) (negative : bool),
             d <> Decimal.Nil ->
             int (if negative then String "-" (NilZero.string_of_uint d)
                  else NilZero.string_of_uint d)
             = Some (if negative then - Z.of_uint d else Z.of_uint d)).
  { intros d negative Hd.
    destruct (uint_nonnil_string d Hd) as (c & s & Hstr & Hc & Hs).
    pose proof (NilZero.usu d Hd) as Hread. rewrite Hstr in *.
    rewrite (int_digits s c negative Hc Hs), Hread. reflexivity. }
  destruct n as [|p|p]; simpl.
  - reflexivity.
  - rewrite (Hpos (Pos.to_uint p) false) by apply Unsigned.to_uint_nonnil.
    f_equal. apply (DecimalZ.of_to (Z.pos p)).
  - rewrite (Hpos (Pos.to_uint p) true) by apply Unsigned.to_uint_nonnil.
    f_equal. apply (DecimalZ.of_to (Z.neg p)).
Qed.

End PyFacts.

(** ** Coroutines *)

Section CoroFacts.

Context {A B : Type}.

Lemma alike_bind (c c' : coro A) (f f' : A -> coro B) :
  alike c c' -> (forall a, alike (f a) (f' a)) -> alike (Asyncio.bind c f) (Asyncio.bind c' f').
Proof. induction 1; intros Hf; simpl; try constructor; auto. Qed.

Lemma alike_try_except (c c' : coro A) (h h' : exn -> coro A) :
  alike c c' -> (forall e, alike (h e) (h' e)) -> alike (try_except c h) (try_except c' h').
Proof. induction 1; intros Hh; simpl; try constructor; auto. Qed.

Lemma puts_only_bind (P : ChiaEvent -> bool) (c : coro A) (f : A -> coro B) :
  puts_only P c -> (forall a, puts_only P (f a)) -> puts_only P (Asyncio.bind c f).
Proof. induction c; simpl; intros Hc Hf; intuition auto. Qed.

Lemma puts_only_try_except (P : ChiaEvent -> bool) (c : coro A) (h : exn -> coro A) :
  puts_only P c -> (forall e, puts_only P (h e)) -> puts_only P (try_except c h).
Proof. induction c; simpl; intros Hc Hh; intuition auto. Qed.

Lemma puts_only_weaken (P Q : ChiaEvent -> bool) (c : coro A) :
  (forall ev, P ev = true -> Q ev = true) -> puts_only P c -> puts_only Q c.
Proof. intros HPQ. induction c; simpl; intuition auto. Qed.

End CoroFacts.

Lemma alike_await {X} (rq : request X) : alike (await rq) (await rq).
Proof. constructor. intros [a|e]; constructor. Qed.

Lemma puts_only_await {X} (P : ChiaEvent -> bool) (rq : request X) : puts_only P (await rq).
Proof. intros [a|e]; exact I. Qed.

(** ** Awaiting a coroutine on its own *)

Section ExecFacts.

Variable remote : Remote.

Lemma exec_clock {A} (c : coro A) (w : World) : clock (snd (exec remote c w)) = clock w.
Proof.
  revert w.
  induction c as [a|e|X rq k IH|k IH|ev k IH|line k IH]; intros w; simpl; auto.
  - rewrite IH. reflexivity.
  - rewrite IH. reflexivity.
Qed.

Lemma exec_queue {A} (c : coro A) (w : World) :
  event_queue (snd (exec remote c w)) = event_queue w ++ emitted remote (clock w) c.
Proof.
  revert w.
  induction c as [a|e|X rq k IH|k IH|ev k IH|line k IH]; intros w; simpl; auto.
  - symmetry. apply app_nil_r.
  - symmetry. apply app_nil_r.
  - rewrite IH. simpl. rewrite <- app_assoc. reflexivity.
  - rewrite IH. reflexivity.
Qed.

Lemma exec_fst_clock {A} (c : coro A) (w w' : World) :
  clock w = clock w' -> fst (exec remote c w) = fst (exec remote c w').
Proof.
  revert w w'.
  induction c as [a|e|X rq k IH|k IH|ev k IH|line k IH]; intros w w' Hc; simpl; auto.
  rewrite Hc. auto.
Qed.

Lemma exec_bind {A B} (c : coro A) (f : A -> coro B) (w : World) :
  exec remote (Asyncio.bind c f) w
  = match exec remote c w with
    | (Ok a, w') => exec remote (f a) w'
    | (Raised e, w') => (Raised e, w')
    end.
Proof.
  revert w.
  induction c as [a|e|X rq k IH|k IH|ev k IH|line k IH]; intros w; simpl; auto.
Qed.

Lemma exec_try_except {A} (c : coro A) (h : exn -> coro A) (w : World) :
  exec remote (try_except c h) w
  = match exec remote c w with
    | (Ok a, w') => (Ok a, w')
    | (Raised e, w') => exec remote (h e) w'
    end.
Proof.
  revert w.
  induction c as [a|e|X rq k IH|k IH|ev k IH|line k IH]; intros w; simpl; auto.
Qed.

Lemma exec_alike {A} (c c' : coro A) :
  alike c c' -> forall w w', fst (exec remote c w) = fst (exec remote c' w').
Proof. induction 1; intros w w'; simpl; auto. Qed.

Lemma emitted_alike {A} (c c' : coro A) :
  alike c c' ->
  forall t t', map payload (emitted remote t c) = map payload (emitted remote t' c').
Proof. induction 1; intros t t'; simpl; auto. f_equal; auto. Qed.

End ExecFacts.

(** ** The event loop: one task among the others *)

Section GatherFacts.

Variable remote : Remote.
Variable s : slot.
Variable mine : ChiaEvent -> bool.
Hypothesis mine_payload : forall ev, mine (payload ev) = mine ev.


Lemma queued_put (ev : ChiaEvent) (w : World) :
  queued mine (put ev w) = queued mine w ++ map payload (List.filter mine [ev]).
Proof. unfold queued. simpl. rewrite List.filter_app, map_app. reflexivity. Qed.

Lemma step_task_quiet (c : coro unit) (w : World) :
  quiet mine (Pending c) ->
  quiet mine (fst (step_task remote c w)) /\
  queued mine (snd (step_task remote c w)) = queued mine w.
Proof.
  destruct c as [a|e|X rq k|k|ev k|line k]; simpl; auto.
  intros [Hev Hk]. split; [exact Hk|].
  rewrite queued_put. simpl.
  destruct (mine ev); [discriminate|]. apply app_nil_r.
Qed.

Lemma step_other (g : Gather) (turn : slot * timedelta) :
  fst turn <> s -> children (step remote g turn) s = children g s.
Proof.
  destruct turn as [s' d]. simpl. intros Hne. unfold step.
  destruct (children g s') as [c|r]; [|reflexivity].
  destruct (step_task remote c (elapse d (world g))) as [t w'].
  simpl. unfold set_child. case_decide; congruence.
Qed.

Lemma step_others_quiet (g : Gather) (turn : slot * timedelta) :
  others_quiet s mine g -> others_quiet s mine (step remote g turn).
Proof.
  destruct turn as [s' d]. intros Hq s'' Hne. unfold step.
  destruct (children g s') as [c|r] eqn:Hc; [|apply Hq; exact Hne].
  destruct (step_task remote c (elapse d (world g))) as [t w'] eqn:Hst.
  simpl. unfold set_child. case_decide as Heq; [|apply Hq; exact Hne].
  subst s''. specialize (Hq s' Hne). rewrite Hc in Hq.
  apply (step_task_quiet c (elapse d (world g))) in Hq.
  rewrite Hst in Hq. apply Hq.
Qed.

Lemma step_queued_other (g : Gather) (turn : slot * timedelta) :
  others_quiet s mine g -> fst turn <> s ->
  queued mine (world (step remote g turn)) = queued mine (world g).
Proof.
  destruct turn as [s' d]. simpl. intros Hq Hne. unfold step.
  destruct (children g s') as [c|r] eqn:Hc; [|reflexivity].
  destruct (step_task remote c (elapse d (world g))) as [t w'] eqn:Hst.
  simpl. specialize (Hq s' Hne). rewrite Hc in Hq.
  apply (step_task_quiet c (elapse d (world g))) in Hq.
  rewrite Hst in Hq. apply Hq.
Qed.

(** A finished task stays as it is, and its events on the queue too. *)
Lemma run_finished (sched : schedule) (g : Gather) (r : result unit) :
  children g s = Finished r -> others_quiet s mine g ->
  children (run remote g sched) s = Finished r /\
  queued mine (world (run remote g sched)) = queued mine (world g).
Proof.
  revert g. induction sched as [|turn sched IH]; intros g Hs Hq; [split; [exact Hs|reflexivity]|].
  change (run remote g (turn :: sched)) with (run remote (step remote g turn) sched).
  destruct (decide (fst turn = s)) as [Heq|Hne].
  - destruct turn as [s' d]. simpl in Heq. subst s'.
    assert (Hstep : step remote g (s, d)
                    = {| children := children g; raised := raised g;
                         world := elapse d (world g) |})
      by (unfold step; rewrite Hs; reflexivity).
    rewrite Hstep.
    destruct (IH {| children := children g; raised := raised g;
                    world := elapse d (world g) |}) as [IH1 IH2];
      [exact Hs|exact Hq|].
    split; [exact IH1|]. rewrite IH2. reflexivity.
  - destruct (IH (step remote g turn)) as [IH1 IH2].
    + rewrite step_other; assumption.
    + apply step_others_quiet; assumption.
    + split; [exact IH1|]. rewrite IH2. apply step_queued_other; assumption.
Qed.

Lemma turns_cons_same (d : timedelta) (sched : schedule) :
  turns s ((s, d) :: sched) = S (turns s sched).
Proof. unfold turns. simpl. rewrite bool_decide_eq_true_2; reflexivity. Qed.

Lemma turns_cons_other (turn : slot * timedelta) (sched : schedule) :
  fst turn <> s -> turns s (turn :: sched) = turns s sched.
Proof. intros Hne. unfold turns. simpl. rewrite bool_decide_eq_false_2; auto. Qed.

(** A pending task that gets its turns ends as it ends on its own, having
    put the events it puts on its own; [w0] is where it runs on its own. *)
Lemma run_pending (w0 : World) (sched : schedule) :
  forall (g : Gather) (c' c : coro unit),
    children g s = Pending c' -> alike c' c -> others_quiet s mine g ->
    (steps remote (clock w0) c < turns s sched)%nat ->
    children (run remote g sched) s = Finished (fst (exec remote c w0)) /\
    queued mine (world (run remote g sched))
    = queued mine (world g) ++ map payload (List.filter mine (emitted remote (clock w0) c)).
Proof.
  induction sched as [|turn sched IH]; intros g c' c Hs Hal Hq Hlt;
    [unfold turns in Hlt; simpl in Hlt; lia|].
  change (run remote g (turn :: sched)) with (run remote (step remote g turn) sched).
  destruct (decide (fst turn = s)) as [Heq|Hne].
  2:{ rewrite turns_cons_other in Hlt by exact Hne.
      destruct (IH (step remote g turn) c' c) as [IH1 IH2]; auto.
      - rewrite step_other; assumption.
      - apply step_others_quiet; assumption.
      - split; [exact IH1|]. rewrite IH2. f_equal. apply step_queued_other; assumption. }
  destruct turn as [s' d]. simpl in Heq. subst s'.
  rewrite turns_cons_same in Hlt.
  pose proof (step_others_quiet g (s, d) Hq) as Hq'.
  assert (Hst : step remote g (s, d)
                = let (t, w') := step_task remote c' (elapse d (world g)) in
                  {| children := set_child s t (children g);
                     raised := first_exception (raised g) t;
                     world := w' |})
    by (unfold step; rewrite Hs; reflexivity).
  rewrite Hst in *. clear Hst.
  assert (Hset : forall t, set_child s t (children g) s = t)
    by (intros t; unfold set_child; rewrite decide_True; reflexivity).
  destruct Hal as [a|e|X rq k k' Hk|k k' Hk|ev ev' k k' Hev Hk|line k k' Hk];
    cbn [step_task] in *;
    match goal with |- context [run remote ?g1 sched] => set (G := g1) in * end.
  - destruct (run_finished sched G (Ok a)) as [F1 F2]; [apply Hset|exact Hq'|].
    split; [exact F1|]. rewrite F2. simpl. symmetry. apply app_nil_r.
  - destruct (run_finished sched G (Raised e)) as [F1 F2]; [apply Hset|exact Hq'|].
    split; [exact F1|]. rewrite F2. simpl. symmetry. apply app_nil_r.
  - apply (IH G (k (remote X rq)) (k' (remote X rq))); auto; [apply Hset|simpl in Hlt; lia].
  - apply (IH G (k (clock (elapse d (world g)))) (k' (clock w0))); auto;
      [apply Hset|simpl in Hlt; lia].
  - destruct (IH G k k') as [IH1 IH2]; auto; [apply Hset|simpl in Hlt; lia|].
    split; [rewrite IH1; simpl; f_equal; apply exec_fst_clock; reflexivity|].
    rewrite IH2. subst G. cbn [world]. rewrite queued_put.
    rewrite <- app_assoc. f_equal.
    assert (Hm : mine ev = mine ev')
      by (rewrite <- (mine_payload ev), <- (mine_payload ev'), Hev; reflexivity).
    simpl. rewrite Hm. destruct (mine ev'); simpl; [rewrite Hev|]; reflexivity.
  - destruct (IH G k k') as [IH1 IH2]; auto; [apply Hset|simpl in Hlt; lia|].
    split; [rewrite IH1; simpl; f_equal; apply exec_fst_clock; reflexivity|].
    rewrite IH2. reflexivity.
Qed.

End GatherFacts.

(** ** The event loop: what the awaiter of the gather gets *)

Section OutcomeFacts.

Variable remote : Remote.


Lemma gather_raised_ok (c0 c1 c2 c3 : coro unit) (w : World) :
  raised_ok (gather c0 c1 c2 c3 w).
Proof. intros s e. simpl. discriminate. Qed.

Lemma step_raised_ok (g : Gather) (turn : slot * timedelta) :
  raised_ok g -> raised_ok (step remote g turn).
Proof.
  destruct turn as [s d]. unfold raised_ok, step.
  destruct (children g s) as [c|r] eqn:Hc; [|simpl; auto].
  destruct (step_task remote c (elapse d (world g))) as [t w'].
  cbn [raised children].
  assert (Hkeep : forall e0, (exists s0, children g s0 = Finished (Raised e0)) ->
                             exists s0, set_child s t (children g) s0 = Finished (Raised e0)).
  { intros e0 [s0 Hs0]. exists s0. unfold set_child. case_decide; [congruence|exact Hs0]. }
  destruct t as [c1|[a|e]]; cbn [first_exception].
  - destruct (raised g) as [e0|]; [auto|].
    intros H s0 e. unfold set_child. case_decide; [discriminate|apply H].
  - destruct (raised g) as [e0|]; [auto|].
    intros H s0 e. unfold set_child. case_decide; [discriminate|apply H].
  - destruct (raised g) as [e0|]; [auto|].
    intros _. exists s. unfold set_child. rewrite decide_True; reflexivity.
Qed.

Lemma run_raised_ok (sched : schedule) (g : Gather) :
  raised_ok g -> raised_ok (run remote g sched).
Proof.
  revert g. induction sched as [|turn sched IH]; intros g Hg; [exact Hg|].
  apply (IH (step remote g turn)). apply step_raised_ok. exact Hg.
Qed.

(** Once the four tasks have finished, the awaiter gets the result: an
    exception exactly when one of the tasks raised, and then one a task
    raised. *)
Lemma outcome_finished (g : Gather) (r : slot -> result unit) :
  raised_ok g -> (forall s, children g s = Finished (r s)) ->
  (forallb (fun s => succeeded (r s)) [Slot0; Slot1; Slot2; Slot3] = true ->
   outcome g = Some (Ok tt)) /\
  (forallb (fun s => succeeded (r s)) [Slot0; Slot1; Slot2; Slot3] = false ->
   exists s e, r s = Raised e /\ outcome g = Some (Raised e)).
Proof.
  intros Hok Hfin. unfold outcome, raised_ok in *.
  destruct (raised g) as [e|].
  - destruct Hok as [s Hs]. rewrite Hfin in Hs. injection Hs as Hs. split.
    + intros Hall. rewrite forallb_forall in Hall.
      assert (Hin : In s [Slot0; Slot1; Slot2; Slot3]) by (destruct s; simpl; auto).
      apply Hall in Hin. rewrite Hs in Hin. discriminate.
    + intros _. exists s, e. auto.
  - assert (Hall : forall s, r s = Ok tt).
    { intros s. specialize (Hok s). rewrite Hfin in Hok.
      destruct (r s) as [[]|e]; [reflexivity|]. exfalso. apply (Hok e). reflexivity. }
    assert (Hfinished : all_finished g = true).
    { unfold all_finished. simpl. rewrite !Hfin. reflexivity. }
    rewrite Hfinished. split; [reflexivity|].
    simpl. rewrite !Hall. discriminate.
Qed.

End OutcomeFacts.

(** ** The four fetches *)

Section FetchFacts.

Import RpcCollector.

Variable config : Config.

Lemma alike_wallet_balances (wallets : list Wallet) (acc : list Z) :
  alike (wallet_balances wallets acc) (wallet_balances wallets acc).
Proof.
  revert acc. induction wallets as [|wallet rest IH]; intros acc; simpl.
  - constructor.
  - constructor. intros [b|e]; simpl; [apply IH|constructor].
Qed.

Lemma puts_only_wallet_balances (P : ChiaEvent -> bool) (wallets : list Wallet) (acc : list Z) :
  puts_only P (wallet_balances wallets acc).
Proof.
  revert acc. induction wallets as [|wallet rest IH]; intros acc; simpl; [exact I|].
  intros [b|e]; simpl; [apply IH|exact I].
Qed.

Lemma alike_complain (host : option string) (port : option Z) (e : exn) :
  alike (complain host port e) (complain host port e).
Proof. repeat constructor. Qed.

Lemma puts_only_complain (P : ChiaEvent -> bool) (host : option string) (port : option Z)
                         (e : exn) :
  puts_only P (complain host port e).
Proof. exact I. Qed.

Lemma alike_get_plots (port : option Z) (host : option string) :
  alike (get_plots config port host) (get_plots config port host).
Proof.
  unfold get_plots. apply alike_bind.
  - apply alike_try_except.
    + apply alike_bind; [apply alike_await|]. intros _.
      apply alike_try_except.
      * apply alike_bind; [apply alike_await|]. intros _.
        apply alike_try_except.
        -- apply alike_bind; [apply alike_await|]. intros plots. constructor.
        -- intros e. apply alike_bind; [apply alike_complain|]. intros _. constructor.
      * intros e. apply alike_bind; [apply alike_complain|]. intros _. constructor.
    + intros e. apply alike_bind; [apply alike_complain|]. intros _. constructor.
  - intros [[[hostname port']|] plots].
    + apply alike_bind; [apply alike_await|]. intros _. constructor.
    + constructor.
Qed.

Lemma puts_only_get_plots (P : ChiaEvent -> bool) (port : option Z) (host : option string) :
  puts_only P (get_plots config port host).
Proof.
  unfold get_plots. apply puts_only_bind.
  - apply puts_only_try_except.
    + apply puts_only_bind; [apply puts_only_await|]. intros _.
      apply puts_only_try_except.
      * apply puts_only_bind; [apply puts_only_await|]. intros _.
        apply puts_only_try_except.
        -- apply puts_only_bind; [apply puts_only_await|]. intros plots. exact I.
        -- intros e. apply puts_only_bind; [apply puts_only_complain|]. intros _. exact I.
      * intros e. apply puts_only_bind; [apply puts_only_complain|]. intros _. exact I.
    + intros e. apply puts_only_bind; [apply puts_only_complain|]. intros _. exact I.
  - intros [[[hostname port']|] plots].
    + apply puts_only_bind; [apply puts_only_await|]. intros _. exact I.
    + exact I.
Qed.

Lemma alike_all_plots_loop (port : option Z) (hosts : list string) (acc : option PlotsResponse) :
  alike (all_plots_loop config port hosts acc) (all_plots_loop config port hosts acc).
Proof.
  revert acc. induction hosts as [|host rest IH]; intros acc; cbn [all_plots_loop].
  - constructor.
  - apply alike_bind; [apply alike_get_plots|]. intros plots. apply IH.
Qed.

Lemma puts_only_all_plots_loop (P : ChiaEvent -> bool) (port : option Z) (hosts : list string)
                               (acc : option PlotsResponse) :
  puts_only P (all_plots_loop config port hosts acc).
Proof.
  revert acc. induction hosts as [|host rest IH]; intros acc; cbn [all_plots_loop].
  - exact I.
  - apply puts_only_bind; [apply puts_only_get_plots|]. intros plots. apply IH.
Qed.

Lemma alike_get_harvesters (port : option Z) :
  alike (get_harvesters config port) (get_harvesters config port).
Proof.
  unfold get_harvesters. apply alike_bind.
  - apply alike_try_except.
    + apply alike_bind; [apply alike_await|]. intros _.
      apply alike_try_except.
      * apply alike_bind; [apply alike_await|]. intros _.
        apply alike_try_except.
        -- apply alike_bind; [apply alike_await|]. intros connections. constructor.
        -- intros e. repeat constructor.
      * intros e. repeat constructor.
    + intros e. repeat constructor.
  - intros [[port'|] hosts].
    + apply alike_bind; [apply alike_await|]. intros _. constructor.
    + constructor.
Qed.

Lemma puts_only_get_harvesters (P : ChiaEvent -> bool) (port : option Z) :
  puts_only P (get_harvesters config port).
Proof.
  unfold get_harvesters. apply puts_only_bind.
  - apply puts_only_try_except.
    + apply puts_only_bind; [apply puts_only_await|]. intros _.
      apply puts_only_try_except.
      * apply puts_only_bind; [apply puts_only_await|]. intros _.
        apply puts_only_try_except.
        -- apply puts_only_bind; [apply puts_only_await|]. intros connections. exact I.
        -- intros e. exact I.
      * intros e. exact I.
    + intros e. exact I.
  - intros [[port'|] hosts].
    + apply puts_only_bind; [apply puts_only_await|]. intros _. exact I.
    + exact I.
Qed.

(** Each fetch reads the clock only to stamp its event. *)
Lemma alike_fetch (m : metric) : alike (fetch config m) (fetch config m).
Proof.
  destruct m; cbn [fetch].
  - unfold get_wallet_balance. apply alike_bind.
    + apply alike_try_except; [|intros e; constructor].
      apply alike_bind; [apply alike_await|]. intros ws. apply alike_wallet_balances.
    + intros bs. simpl. constructor. intros t t'. repeat constructor.
  - unfold get_harvester_plots. apply alike_bind.
    + apply alike_try_except; [|intros e; constructor].
      apply alike_bind; [apply alike_get_harvesters|].
      intros hs. apply alike_all_plots_loop.
    + intros plots. simpl. constructor. intros t t'.
      destruct plots; repeat constructor.
  - unfold get_blockchain_state. apply alike_bind.
    + apply alike_try_except; [apply alike_await|intros e; constructor].
    + intros st. simpl. constructor. intros t t'.
      destruct (state_peak st); repeat constructor.
  - unfold get_connections. apply alike_bind; [apply alike_await|].
    intros peers. simpl. constructor. intros t t'. repeat constructor.
Qed.

(** Each fetch publishes events of its own kind only. *)
Lemma puts_only_fetch (m : metric) : puts_only (event_of m) (fetch config m).
Proof.
  destruct m; cbn [fetch].
  - unfold get_wallet_balance. apply puts_only_bind.
    + apply puts_only_try_except; [|intros e; exact I].
      apply puts_only_bind; [apply puts_only_await|]. intros ws. apply puts_only_wallet_balances.
    + intros bs. simpl. intros t. split; [reflexivity|exact I].
  - unfold get_harvester_plots. apply puts_only_bind.
    + apply puts_only_try_except; [|intros e; exact I].
      apply puts_only_bind; [apply puts_only_get_harvesters|].
      intros hs. apply puts_only_all_plots_loop.
    + intros plots. simpl. intros t. destruct plots; simpl; [split; [reflexivity|exact I]|exact I].
  - unfold get_blockchain_state. apply puts_only_bind.
    + apply puts_only_try_except; [apply puts_only_await|intros e; exact I].
    + intros st. simpl. intros t.
      destruct (state_peak st); simpl; [split; [reflexivity|exact I]|exact I].
  - unfold get_connections. apply puts_only_bind; [apply puts_only_await|].
    intros peers. simpl. intros t. split; [reflexivity|exact I].
Qed.

Lemma event_of_payload (m : metric) (ev : ChiaEvent) : event_of m (payload ev) = event_of m ev.
Proof. destruct m, ev; reflexivity. Qed.

Lemma event_of_other (m m' : metric) (ev : ChiaEvent) :
  m' <> m -> event_of m' ev = true -> negb (event_of m ev) = true.
Proof. destruct m, m', ev; simpl; congruence. Qed.

Lemma poll_cycle_others_quiet (m : metric) (w : World) :
  others_quiet m (event_of m)
    (gather get_wallet_balance (get_harvester_plots config) get_blockchain_state
            get_connections w).
Proof.
  intros m' Hne. simpl.
  apply (puts_only_weaken (event_of m')); [intros ev; apply event_of_other; exact Hne|].
  pose proof (puts_only_fetch m') as H. destruct m'; exact H.
Qed.

(** A fetch that gets its turns in a poll cycle ends as it ends on its
    own, and the queue holds the events of its kind that it holds when
    the fetch runs on its own. *)
Lemma poll_cycle_fetch (remote : Remote) (sched : schedule) (w : World) (m : metric) :
  (steps remote (clock w) (fetch config m) < turns m sched)%nat ->
  children (poll_cycle config remote sched w) m
  = Finished (fst (exec remote (fetch config m) w)) /\
  queued (event_of m) (world (poll_cycle config remote sched w))
  = queued (event_of m) (snd (exec remote (fetch config m) w)).
Proof.
  intros Hturns. unfold poll_cycle.
  destruct (run_pending remote m (event_of m) (event_of_payload m) w sched
              (gather get_wallet_balance (get_harvester_plots config) get_blockchain_state
                      get_connections w)
              (fetch config m) (fetch config m)) as [H1 H2].
  - destruct m; reflexivity.
  - apply alike_fetch.
  - apply poll_cycle_others_quiet.
  - exact Hturns.
  - split; [exact H1|]. rewrite H2. unfold queued. rewrite exec_queue.
    rewrite List.filter_app, map_app. reflexivity.
Qed.

End FetchFacts.

(** ** The wallet balance *)

Section WalletFacts.

Import RpcCollector.

Variable remote : Remote.


Lemma exec_wallet_balances (ws : list Wallet) (bs : list Balance) :
  balances_of remote ws bs ->
  forall (acc : list Z) (w : World),
    exec remote (wallet_balances ws acc) w = (Ok (acc ++ map confirmed_wallet_balance bs), w).
Proof.
  induction 1 as [|wallet b ws bs Hb _ IH]; intros acc w; simpl.
  - rewrite app_nil_r. reflexivity.
  - rewrite Hb. simpl. rewrite IH, <- app_assoc. reflexivity.
Qed.

Lemma exec_get_wallet_balance (ws : list Wallet) (bs : list Balance) (w : World) :
  remote _ Wallet_get_wallets = Ok ws ->
  balances_of remote ws bs ->
  exec remote get_wallet_balance w
  = (Ok tt, put (EvWalletBalance
                   {| wb_ts := clock w;
                      confirmed := str (sum (map confirmed_wallet_balance bs)) |}) w).
Proof.
  intros Hws Hbs. unfold get_wallet_balance.
  rewrite exec_bind, exec_try_except. simpl. rewrite Hws. simpl.
  rewrite (exec_wallet_balances ws bs Hbs). reflexivity.
Qed.

End WalletFacts.

(** ** The harvester plots *)

Section HarvesterFacts.

Import RpcCollector.

Variable config : Config.
Variable remote : Remote.


Lemma printed_only_refl (w : World) : printed_only w w.
Proof. split; reflexivity. Qed.

Lemma printed_only_write (line : string) (w w' : World) :
  printed_only w w' -> printed_only w (write line w').
Proof. intros [H1 H2]. split; assumption. Qed.

Lemma printed_only_trans (w1 w2 w3 : World) :
  printed_only w1 w2 -> printed_only w2 w3 -> printed_only w1 w3.
Proof. intros [H1 H2] [H3 H4]. split; congruence. Qed.

Lemma exec_get_plots (host : string) (w : World) :
  exec remote (get_plots config None (Some host)) w
  = (plots_from config remote host,
     match complaint config remote host with Some line => write line w | None => w end).
Proof.
  unfold get_plots, plots_from, complaint, complain. simpl.
  destruct (remote _ Load_config) as [[]|e0]; simpl; [|reflexivity].
  destruct (remote _ (Harvester_create host (harvester_rpc_port config))) as [[]|e1]; simpl;
    [|reflexivity].
  destruct (remote _ (Harvester_get_plots host (harvester_rpc_port config))) as [p|e2]; simpl;
    destruct (remote _ (Harvester_close host (harvester_rpc_port config))) as [[]|e3];
    reflexivity.
Qed.

Lemma exec_get_plots_printed (host : string) (w : World) :
  printed_only w (snd (exec remote (get_plots config None (Some host)) w)).
Proof.
  rewrite exec_get_plots. cbn [snd].
  destruct (complaint config remote host);
    [apply printed_only_write|]; apply printed_only_refl.
Qed.

Lemma plots_from_served (host : string) :
  succeeded (plots_from config remote host) = harvester_served config remote host.
Proof.
  unfold plots_from, harvester_served.
  destruct (remote _ Load_config) as [[]|e0]; [|reflexivity].
  destruct (remote _ (Harvester_create host (harvester_rpc_port config))) as [[]|e1];
    [|reflexivity].
  destruct (remote _ (Harvester_close host (harvester_rpc_port config))) as [[]|e3];
    reflexivity.
Qed.

(** What a served harvester hands to [get_all_plots]. *)
Lemma plots_from_answer (host : string) :
  harvester_served config remote host = true ->
  exists plots,
    plots_from config remote host = Ok plots /\
    answer config remote host
    = match plots with Some p => if success p then Some p else None | None => None end.
Proof.
  unfold plots_from, harvester_served, answer.
  destruct (remote _ Load_config) as [[]|e0]; [|discriminate].
  destruct (remote _ (Harvester_create host (harvester_rpc_port config))) as [[]|e1];
    [|discriminate].
  destruct (remote _ (Harvester_close host (harvester_rpc_port config))) as [[]|e3];
    [|discriminate].
  intros _. eexists. split; [reflexivity|].
  destruct (remote _ (Harvester_get_plots host (harvester_rpc_port config))); reflexivity.
Qed.

Lemma exec_all_plots_loop (hosts : list string) :
  forallb (harvester_served config remote) hosts = true ->
  forall (acc : option PlotsResponse) (w : World),
  exists w',
    exec remote (all_plots_loop config None hosts acc) w
    = (Ok (fold_left merge (omap (answer config remote) hosts) acc), w')
    /\ printed_only w w'.
Proof.
  induction hosts as [|host rest IH]; intros Hall acc w; cbn [all_plots_loop].
  - exists w. split; [reflexivity|apply printed_only_refl].
  - cbn [forallb] in Hall. apply andb_prop in Hall. destruct Hall as [Hhost Hrest].
    rewrite exec_bind. pose proof (exec_get_plots_printed host w) as Hw1.
    destruct (plots_from_answer host Hhost) as (plots & Hfrom & Hans).
    rewrite exec_get_plots in Hw1 |- *. rewrite Hfrom. cbn [snd] in Hw1.
    cbn [omap list_omap]. rewrite Hans.
    match goal with
    | |- context [exec remote (all_plots_loop config None rest ?a) ?w1] =>
        destruct (IH Hrest a w1) as (w2 & Hex & Hw2)
    end.
    exists w2. split; [|eapply printed_only_trans; eassumption].
    rewrite Hex. destruct plots as [p|]; [destruct (success p)|]; reflexivity.
Qed.

Lemma exec_all_plots_loop_stranded (hosts : list string) :
  forallb (harvester_served config remote) hosts = false ->
  forall (acc : option PlotsResponse) (w : World),
  exists e w',
    exec remote (all_plots_loop config None hosts acc) w = (Raised e, w')
    /\ printed_only w w'.
Proof.
  induction hosts as [|host rest IH]; intros Hall acc w; cbn [all_plots_loop];
    [discriminate Hall|].
  cbn [forallb] in Hall.
  rewrite exec_bind. pose proof (exec_get_plots_printed host w) as Hw1.
  pose proof (plots_from_served host) as Hs.
  rewrite exec_get_plots in Hw1 |- *. cbn [snd] in Hw1.
  destruct (plots_from config remote host) as [plots|e] eqn:Hfrom.
  - simpl in Hs. rewrite <- Hs in Hall. simpl in Hall.
    match goal with
    | |- context [exec remote (all_plots_loop config None rest ?a) ?w1] =>
        destruct (IH Hall a w1) as (e & w2 & Hex & Hw2)
    end.
    exists e, w2. split; [exact Hex|eapply printed_only_trans; eassumption].
  - eexists _, _. split; [reflexivity|exact Hw1].
Qed.

Lemma exec_get_harvesters (w : World) :
  exists w',
    exec remote (get_harvesters config None) w = (hosts_from config remote, w')
    /\ printed_only w w'.
Proof.
  unfold get_harvesters, hosts_from, harvesters. simpl.
  destruct (remote _ Load_config) as [[]|e0]; simpl;
    [|eexists; split; [reflexivity|apply printed_only_write, printed_only_refl]].
  destruct (remote _ (Farmer_create (self_hostname config) (farmer_rpc_port config)))
    as [[]|e1]; simpl;
    [|eexists; split; [reflexivity|apply printed_only_write, printed_only_refl]].
  destruct (remote _ (Farmer_get_connections (self_hostname config) (farmer_rpc_port config)))
    as [cs|e2]; simpl;
    destruct (remote _ (Farmer_close (self_hostname config) (farmer_rpc_port config)))
      as [[]|e3]; simpl; eexists; (split; [reflexivity|]);
    repeat apply printed_only_write; apply printed_only_refl.
Qed.

Lemma hosts_from_served :
  match hosts_from config remote with
  | Ok hosts => farmer_served config remote = true /\ hosts = harvesters config remote
  | Raised _ => farmer_served config remote = false
  end.
Proof.
  unfold hosts_from, farmer_served.
  destruct (remote _ Load_config) as [[]|e0]; [|reflexivity].
  destruct (remote _ (Farmer_create (self_hostname config) (farmer_rpc_port config)))
    as [[]|e1]; [|reflexivity].
  destruct (remote _ (Farmer_close (self_hostname config) (farmer_rpc_port config)))
    as [[]|e3]; simpl; auto.
Qed.

Lemma plots_of_fold_merge (ps : list PlotsResponse) (acc : option PlotsResponse) :
  plots_of (fold_left merge ps acc) = plots_of acc ++ concat (map plots ps).
Proof.
  revert acc. induction ps as [|p ps IH]; intros acc; simpl.
  - rewrite app_nil_r. reflexivity.
  - rewrite IH. destruct acc as [a|]; simpl; [rewrite <- app_assoc|]; reflexivity.
Qed.

Lemma fold_merge_is_Some (ps : list PlotsResponse) (a : PlotsResponse) :
  exists r, fold_left merge ps (Some a) = Some r.
Proof. revert a. induction ps as [|p ps IH]; intros a; simpl; eauto. Qed.

Lemma len_concat_plots (ps : list PlotsResponse) :
  len (concat (map plots ps)) = sum (map (fun p => len (plots p)) ps).
Proof.
  induction ps as [|p ps IH]; simpl; [reflexivity|].
  rewrite len_app, sum_cons, IH. reflexivity.
Qed.

Lemma size_concat_plots (ps : list PlotsResponse) :
  sum (map file_size (concat (map plots ps)))
  = sum (map (fun p => sum (map file_size (plots p))) ps).
Proof.
  induction ps as [|p ps IH]; simpl; [reflexivity|].
  rewrite map_app, sum_app, sum_cons, IH. reflexivity.
Qed.

(** [get_harvester_plots] on its own.  With every client created and
    closed: with a harvester that succeeds it publishes one event with
    the totals over those that succeed, and with none it raises and
    publishes nothing.  With a client that cannot be created or closed it
    raises the [ConnectionError] of its [except] clause and publishes
    nothing. *)
Lemma exec_get_harvester_plots (w : World) :
  if served config remote then
    match succeeding config remote with
    | [] =>
        fst (exec remote (get_harvester_plots config) w)
        = Raised (TypeError "'NoneType' object is not subscriptable")
        /\ event_queue (snd (exec remote (get_harvester_plots config) w)) = event_queue w
    | ps =>
        fst (exec remote (get_harvester_plots config) w) = Ok tt
        /\ event_queue (snd (exec remote (get_harvester_plots config) w))
           = event_queue w
             ++ [EvHarvesterPlots
                   {| hp_ts := clock w;
                      plot_count := sum (map (fun p => len (plots p)) ps);
                      plot_size := sum (map (fun p => sum (map file_size (plots p))) ps) |}]
    end
  else
    fst (exec remote (get_harvester_plots config) w)
    = Raised (ConnectionError
                "Failed to get harvester plots via RPC. Is your harvester running?")
    /\ event_queue (snd (exec remote (get_harvester_plots config) w)) = event_queue w.
Proof.
  unfold get_harvester_plots, served.
  rewrite exec_bind, exec_try_except, exec_bind.
  destruct (exec_get_harvesters w) as (w1 & -> & Hw1).
  pose proof hosts_from_served as Hfarmer.
  destruct (hosts_from config remote) as [hosts|e].
  2:{ rewrite Hfarmer. simpl. split; [reflexivity|apply Hw1]. }
  destruct Hfarmer as [-> ->]. cbn [andb]. unfold get_all_plots.
  destruct (forallb (harvester_served config remote) (harvesters config remote)) eqn:Hall.
  2:{ destruct (exec_all_plots_loop_stranded _ Hall None w1) as (e & w2 & -> & Hw2).
      simpl. split; [reflexivity|]. destruct (printed_only_trans _ _ _ Hw1 Hw2) as [_ Hq].
      exact Hq. }
  destruct (exec_all_plots_loop (harvesters config remote) Hall None w1) as (w2 & -> & Hw2).
  fold (succeeding config remote).
  destruct (printed_only_trans _ _ _ Hw1 Hw2) as [Hclock Hqueue].
  destruct (succeeding config remote) as [|p ps] eqn:Hs.
  - simpl. auto.
  - pose proof (plots_of_fold_merge (p :: ps) None) as Hplots.
    simpl in Hplots. simpl fold_left.
    destruct (fold_merge_is_Some ps p) as [r Hr]. rewrite Hr in *.
    simpl in Hplots. simpl. rewrite Hplots, Hclock, Hqueue.
    split; [reflexivity|].
    rewrite len_app, map_app, sum_app, !sum_cons, len_concat_plots, size_concat_plots.
    reflexivity.
Qed.

End HarvesterFacts.


(** ** The claims about the collector *)

Section CollectorClaims.

Import RpcCollector.




(** In the cycle in which the wallet does not answer, the other three
    events are on the queue. *)
Example wallet_down_cycle_queue :
  map payload (event_queue (world (poll_cycle Farm.config Farm.wallet_down
                                     (Farm.round_robin 20) Farm.start)))
  = [ EvBlockchainState {| bs_ts := 0; space := "1000"; diffculty := 7;
                           peak_height := "42"; synced := true |};
      EvConnections {| cn_ts := 0; full_node_count := 2; farmer_count := 0;
                       wallet_count := 1 |};
      EvHarvesterPlots {| hp_ts := 0; plot_count := 3; plot_size := 35 |} ].
Proof. vm_compute. reflexivity. Qed.

Lemma poll_cycle_outcome (config : Config) (remote : Remote) (sched : schedule) (w : World) :
  completes config remote sched w ->
  if all_succeed config remote w
  then outcome (poll_cycle config remote sched w) = Some (Ok tt)
  else exists m e,
         fst (exec remote (fetch config m) w) = Raised e /\
         outcome (poll_cycle config remote sched w) = Some (Raised e).
Proof.
  intros Hc.
  destruct (outcome_finished (poll_cycle config remote sched w)
              (fun m => fst (exec remote (fetch config m) w))) as [Hall Hsome].
  - apply run_raised_ok, gather_raised_ok.
  - intros m. apply poll_cycle_fetch, Hc.
  - unfold all_succeed, wallet_balance, harvester_plots, blockchain_state, connections.
    destruct (forallb _ _); auto.
Qed.

(** C5, as the code has it.  A poll cycle in which the four fetches
    succeed is followed, ten seconds later, by the next one; a cycle in
    which a fetch fails ends the loop: the exception of a failed fetch
    leaves the gather and [task], which has no handler for it. *)
Theorem task_ends_at_a_failed_fetch
    (config : Config) (remote : Remote) (sched : schedule) (rest : list (Remote * schedule))
    (w : World) (cycle : nat) :
  completes config remote sched w ->
  if all_succeed config remote w
  then task config cycle ((remote, sched) :: rest) w
       = task config (S cycle) rest
           (elapse (seconds 10) (world (poll_cycle config remote sched w)))
  else exists m e,
         fst (exec remote (fetch config m) w) = Raised e /\
         task config cycle ((remote, sched) :: rest) w
         = (Terminated cycle e, world (poll_cycle config remote sched w)).
Proof.
  intros Hc. pose proof (poll_cycle_outcome config remote sched w Hc) as Hout.
  cbn [task]. destruct (all_succeed config remote w).
  - rewrite Hout. reflexivity.
  - destruct Hout as (m & e & Hm & Hout). exists m, e. rewrite Hout. auto.
Qed.

Lemma task_ends_at_a_failed_fetch_witness :
  exists m e,
    fst (exec Farm.wallet_down (fetch Farm.config m) Farm.start) = Raised e /\
    task Farm.config 0 [(Farm.wallet_down, Farm.round_robin 20);
                        (Farm.all_up, Farm.round_robin 20)] Farm.start
    = (Terminated 0 e,
       world (poll_cycle Farm.config Farm.wallet_down (Farm.round_robin 20) Farm.start)).
Proof.
  apply (task_ends_at_a_failed_fetch Farm.config Farm.wallet_down (Farm.round_robin 20)
           [(Farm.all_up, Farm.round_robin 20)] Farm.start 0).
  intros m. destruct m; vm_compute; lia.
Defined.

(** C5 as the spec has it fails: the wallet does not answer in the first
    cycle, and the loop does not get to the second. *)
Lemma task_wallet_down_terminates :
  succeeded (fst (exec Farm.wallet_down get_wallet_balance Farm.start)) = false /\
  fst (task Farm.config 0 [(Farm.wallet_down, Farm.round_robin 20);
                           (Farm.all_up, Farm.round_robin 20)] Farm.start)
  = Terminated 0 (ConnectionError
                    "Failed to get wallet balance via RPC. Is your wallet running?") /\
  proceeds_past 0
    (fst (task Farm.config 0 [(Farm.wallet_down, Farm.round_robin 20);
                              (Farm.all_up, Farm.round_robin 20)] Farm.start)) = false.
Proof. vm_compute. auto. Qed.


(** With the client for [h2] not created, no event is published, though
    [h1] answers. *)
Example h2_refused_no_plots :
  answer Farm.config Farm.h2_refused "h1"
  = Some {| success := true; plots := [ {| file_size := 10 |}; {| file_size := 20 |} ] |} /\
  exec Farm.h2_refused (get_harvester_plots Farm.config) Farm.start
  = (Raised (ConnectionError
               "Failed to get harvester plots via RPC. Is your harvester running?"),
     write "Exception from 'harvester' Failed to load SSL certificates" Farm.start).
Proof. split; reflexivity. Qed.

(** With [h1] up and [h2] down, the event counts the plots of [h1]. *)
Example one_harvester_down_plots :
  queued (event_of harvester_plots)
         (snd (exec Farm.one_harvester_down (get_harvester_plots Farm.config) Farm.start))
  = [EvHarvesterPlots {| hp_ts := 0; plot_count := 2; plot_size := 30 |}].
Proof. reflexivity. Qed.


(** C8.  When the wallet service answers with the wallets [ws] and with a
    balance for each of them, none negative, [get_wallet_balance]
    publishes exactly one event, a [WalletBalanceEvent]; its [confirmed]
    is the sum of the confirmed balances, written with [str], so that
    [int] reads the sum back, and the sum is not negative. *)
Theorem get_wallet_balance_publishes_the_sum
    (remote : Remote) (ws : list Wallet) (bs : list Balance) (w : World) :
  remote _ Wallet_get_wallets = Ok ws ->
  balances_of remote ws bs ->
  Forall (fun b => 0 <= confirmed_wallet_balance b) bs ->
  let total := sum (map confirmed_wallet_balance bs) in
  exists event,
    exec remote get_wallet_balance w = (Ok tt, put (EvWalletBalance event) w) /\
    event_queue (put (EvWalletBalance event) w) = event_queue w ++ [EvWalletBalance event] /\
    wb_ts event = clock w /\
    confirmed event = str total /\
    int (confirmed event) = Some total /\
    0 <= total.
Proof.
  intros Hws Hbs Hpos total.
  eexists. split; [apply (exec_get_wallet_balance remote ws bs w Hws Hbs)|].
  cbn [confirmed wb_ts]. repeat split.
  - apply int_str.
  - apply sum_nonneg. clear Hbs total.
    induction Hpos as [|b bs Hb _ IH]; simpl; constructor; assumption.
Qed.

Lemma get_wallet_balance_publishes_the_sum_witness :
  exists event,
    exec Farm.all_up get_wallet_balance Farm.start
    = (Ok tt, put (EvWalletBalance event) Farm.start) /\
    event_queue (put (EvWalletBalance event) Farm.start)
    = event_queue Farm.start ++ [EvWalletBalance event] /\
    wb_ts event = clock Farm.start /\
    confirmed event = str 100 /\
    int (confirmed event) = Some 100 /\
    0 <= 100.
Proof.
  apply (get_wallet_balance_publishes_the_sum Farm.all_up
           [ {| id := 1 |}; {| id := 2 |} ]
           [ {| confirmed_wallet_balance := 50 |}; {| confirmed_wallet_balance := 50 |} ]
           Farm.start).
  - reflexivity.
  - repeat constructor.
  - repeat constructor; simpl; lia.
Defined.

End CollectorClaims.

(** ** The effects of a rule *)

Section RuleFacts.

Import SummaryNotification.


Lemma later_refl (p : Process) : later p p.
Proof. split; auto. intros Hm. split; [lia|exact Hm]. Qed.

(** A step that moves the clock and the two oracles only. *)
Lemma later_step (p p' : Process) :
  db p' = db p -> summary_interval p' = summary_interval p ->
  last_summary_ts p' = last_summary_ts p ->
  time p' = time p -> passing p' = passing p ->
  later p p'.
Proof.
  intros H1 H2 H3 H4 H5. split; auto.
  intros Hm. unfold monotone in *. rewrite H4, H5. split; [lia|exact Hm].
Qed.

Lemma later_trans (p1 p2 p3 : Process) : later p1 p2 -> later p2 p3 -> later p1 p3.
Proof.
  intros [A1 A2 A3 A4] [B1 B2 B3 B4]. split; try congruence.
  intros Hm. destruct (A4 Hm) as [Ht Hm2]. destruct (B4 Hm2) as [Ht' Hm3]. split; [lia|exact Hm3].
Qed.

Lemma steady_refl (p : Process) : steady p p.
Proof. split; auto using later_refl. Qed.

Lemma steady_trans (p1 p2 p3 : Process) : steady p1 p2 -> steady p2 p3 -> steady p1 p3.
Proof.
  intros [A1 A2 A3] [B1 B2 B3]. split; [eapply later_trans; eassumption|congruence..].
Qed.

Lemma steady_observed (self : nat) (p p' : Process) :
  steady p p' -> observed_last_summary_ts self p' = observed_last_summary_ts self p.
Proof.
  intros [[_ _ Hl _] Ho _]. unfold observed_last_summary_ts. rewrite Ho, Hl. reflexivity.
Qed.

Lemma bind_Ok {A B} (c : M A) (f : A -> M B) (p p' : Process) (a : A) :
  c p = (Ok a, p') -> bind c f p = f a p'.
Proof. intros H. unfold bind. rewrite H. reflexivity. Qed.

Lemma bind_Raised {A B} (c : M A) (f : A -> M B) (p p' : Process) (e : exn) :
  c p = (Raised e, p') -> bind c f p = (Raised e, p').
Proof. intros H. unfold bind. rewrite H. reflexivity. Qed.

Lemma tick_spec (p : Process) : exists p', tick p = (Ok tt, p') /\ steady p p'.
Proof.
  unfold tick. destruct (passing p) as [|d rest] eqn:Hp.
  - exists p. split; [reflexivity|apply steady_refl].
  - eexists. split; [reflexivity|]. split; [split|..]; simpl; auto.
    intros Hm. unfold monotone in *. simpl. rewrite Hp in Hm.
    inversion Hm as [|d' rest' Hd Hrest]; subst. split; [lia|exact Hrest].
Qed.

Lemma datetime_now_spec (p : Process) :
  exists p', datetime_now p = (Ok (time p'), p') /\ steady p p'.
Proof.
  unfold datetime_now. destruct (tick_spec p) as (p' & Ht & Hs).
  exists p'. rewrite (bind_Ok _ _ _ _ _ Ht). auto.
Qed.

Lemma execute_spec {A} (query : Store -> A) (p : Process) :
  exists p',
    steady p p' /\
    (execute query p = (Ok (query (db p)), p') \/
     exists msg, execute query p = (Raised (OperationalError msg), p')).
Proof.
  unfold execute. destruct (tick_spec p) as (p1 & Ht & Hs).
  rewrite (bind_Ok _ _ _ _ _ Ht).
  assert (Hdb : db p1 = db p) by apply Hs.
  destruct (db_up p1) as [|[|] rest] eqn:Hup.
  - exists p1. rewrite Hdb. auto.
  - eexists. split; [|left; rewrite <- Hdb; reflexivity].
    eapply steady_trans; [exact Hs|]. split; [apply later_step|..]; reflexivity.
  - eexists. split; [|right; eexists; reflexivity].
    eapply steady_trans; [exact Hs|]. split; [apply later_step|..]; reflexivity.
Qed.

Lemma notify_spec (title body : string) (p : Process) :
  exists p',
    notify title body p = (Ok tt, p') /\ later p p' /\
    own_last_summary_ts p' = own_last_summary_ts p /\
    notified p' = {| sent_at := time p'; title := title; body := body |} :: notified p.
Proof.
  unfold notify. destruct (tick_spec p) as (p1 & Ht & Hs).
  rewrite (bind_Ok _ _ _ _ _ Ht).
  destruct Hs as [Hl Ho Hn].
  eexists. split; [reflexivity|]. split; [|split]; simpl.
  - eapply later_trans; [exact Hl|]. apply later_step; reflexivity.
  - exact Ho.
  - rewrite Hn. reflexivity.
Qed.

Lemma stamped_spec (self : nat) (v : datetime) (p : Process) :
  set_last_summary_ts self v p = (Ok tt, stamped self v p) /\
  later p (stamped self v p) /\
  time (stamped self v p) = time p /\
  own_last_summary_ts (stamped self v p) = <[self := v]> (own_last_summary_ts p) /\
  notified (stamped self v p) = notified p.
Proof.
  unfold stamped, set_last_summary_ts. simpl.
  split; [reflexivity|]. split; [apply later_step; reflexivity|auto].
Qed.

Lemma observed_stamped (self : nat) (v : datetime) (p : Process) :
  observed_last_summary_ts self (stamped self v p) = v.
Proof. unfold observed_last_summary_ts, stamped. simpl. rewrite lookup_insert_eq. reflexivity. Qed.

Lemma observed_stamped_other (self other : nat) (v : datetime) (p : Process) :
  self <> other ->
  observed_last_summary_ts other (stamped self v p) = observed_last_summary_ts other p.
Proof.
  intros Hne. unfold observed_last_summary_ts, stamped. simpl.
  rewrite lookup_insert_ne by exact Hne. reflexivity.
Qed.

(** [condition]: one reading of the clock, and, when more than the
    interval has passed since [last_summary_ts], a second one, which
    becomes the [last_summary_ts] of [self]. *)
Lemma condition_spec (self : nat) (p : Process) :
  exists p1,
    datetime_now p = (Ok (time p1), p1) /\
    steady p p1 /\
    if bool_decide (time p1 - observed_last_summary_ts self p > summary_interval p)
    then exists p2, steady p1 p2 /\ condition self p = (Ok true, stamped self (time p2) p2)
    else condition self p = (Ok false, p1).
Proof.
  destruct (datetime_now_spec p) as (p1 & Hnow & Hs1).
  exists p1. split; [exact Hnow|]. split; [exact Hs1|].
  assert (Hc : condition self p
               = (if bool_decide (time p1 - observed_last_summary_ts self p1
                                  > summary_interval p1)
                  then bind datetime_now
                         (fun now => bind (set_last_summary_ts self now) (fun _ => ret true))
                  else ret false) p1)
    by (unfold condition; rewrite (bind_Ok _ _ _ _ _ Hnow); reflexivity).
  rewrite Hc. clear Hc.
  rewrite (steady_observed self p p1 Hs1).
  assert (Hi : summary_interval p1 = summary_interval p) by apply Hs1.
  rewrite Hi.
  destruct (bool_decide (time p1 - observed_last_summary_ts self p > summary_interval p)).
  - destruct (datetime_now_spec p1) as (p2 & Hnow2 & Hs2).
    exists p2. split; [exact Hs2|].
    rewrite (bind_Ok _ _ _ _ _ Hnow2).
    unfold bind, ret. destruct (stamped_spec self (time p2) p2) as [-> _]. reflexivity.
  - reflexivity.
Qed.

End RuleFacts.

(** ** [trigger] and the driver *)

Section TriggerFacts.

Import SummaryNotification.

Variable format_plot_count : Z -> string.
Variable format_balance : Z -> string.
Variable format_space : Z -> string.
Variable format_peak_height : string -> string.
Variable format_full_node_count : Z -> string.
Variable format_synced : bool -> string.
Variable format_proofs : Z -> string.

Abbreviation trigger :=
  (trigger format_plot_count format_balance format_space format_peak_height
           format_full_node_count format_synced format_proofs).
Abbreviation driver_tick :=
  (driver_tick format_plot_count format_balance format_space format_peak_height
               format_full_node_count format_synced format_proofs).
Abbreviation drive :=
  (drive format_plot_count format_balance format_space format_peak_height
         format_full_node_count format_synced format_proofs).

(** One lookup of [trigger], in the hypothesis [H] that says how it ends;
    [Hs] says that nothing but time has passed so far. *)
Ltac lookup H Hs p' :=
  let Hex := fresh "Hex" in
  let Hst := fresh "Hst" in
  let msg := fresh "msg" in
  match type of H with
  | bind (execute ?q) _ ?p0 = _ =>
      destruct (execute_spec q p0) as (p' & Hst & [Hex | [msg Hex]]);
      [ rewrite (bind_Ok _ _ _ _ _ Hex) in H;
        rewrite ?(later_db _ _ (steady_later _ _ Hs)) in H;
        apply (steady_trans _ _ _ Hs) in Hst; clear Hs Hex; rename Hst into Hs
      | rewrite (bind_Raised _ _ _ _ _ Hex) in H;
        apply (steady_trans _ _ _ Hs) in Hst; clear Hs Hex;
        injection H as <- <-; split; [apply Hst|left; split; apply Hst] ]
  end.

(** [trigger] either leaves the objects and the calls of [notify] as they
    were, or, with everything it reads found in the store, calls [notify]
    once and then stamps [self]. *)
Lemma trigger_spec (self : nat) (p p' : Process) (r : result unit) :
  trigger self p = (r, p') ->
  later p p' /\
  ((own_last_summary_ts p' = own_last_summary_ts p /\ notified p' = notified p) \/
   (r = Ok tt /\ complete (db p) = true /\
    exists pn ps summary,
      later p pn /\ later pn ps /\
      notified p' = {| sent_at := time pn; title := farm_status_title; body := summary |}
                      :: notified p /\
      own_last_summary_ts p' = <[self := time ps]> (own_last_summary_ts p))).
Proof.
  intros H. unfold SummaryNotification.trigger in H.
  pose proof (steady_refl p) as Hs.
  lookup H Hs p1. lookup H Hs p2. lookup H Hs p3. lookup H Hs p4. lookup H Hs p5.
  unfold complete.
  destruct (latest hp_ts (harvester_plots_events (db p))) as [last_plots|];
    [|injection H as <- <-; split; [apply Hs|left; split; apply Hs]].
  destruct (latest wb_ts (wallet_balance_events (db p))) as [last_balance|];
    [|injection H as <- <-; split; [apply Hs|left; split; apply Hs]].
  destruct (latest bs_ts (blockchain_state_events (db p))) as [last_state|];
    [|injection H as <- <-; split; [apply Hs|left; split; apply Hs]].
  destruct (latest cn_ts (connections_events (db p))) as [last_connections|];
    [|injection H as <- <-; split; [apply Hs|left; split; apply Hs]].
  destruct (func_sum proofs (farming_info_events (db p))) as [proofs_found|];
    [|injection H as <- <-; split; [apply Hs|left; split; apply Hs]].
  unfold int_of in H.
  destruct (int (confirmed last_balance)) as [balance|];
    [|injection H as <- <-; split; [apply Hs|left; split; apply Hs]].
  unfold bind at 1, ret at 1 in H.
  destruct (int (space last_state)) as [space_|];
    [|injection H as <- <-; split; [apply Hs|left; split; apply Hs]].
  unfold bind at 1, ret at 1 in H.
  match type of H with
  | bind (notify ?t ?b) _ _ = _ =>
      destruct (notify_spec t b p5) as (pn & Hn & Hln & Hon & Hnn)
  end.
  rewrite (bind_Ok _ _ _ _ _ Hn) in H.
  destruct (datetime_now_spec pn) as (ps & Hnow & Hss).
  rewrite (bind_Ok _ _ _ _ _ Hnow) in H.
  destruct (stamped_spec self (time ps) ps) as (Hset & Hlset & _ & Hoset & Hnset).
  rewrite Hset in H. injection H as <- <-.
  assert (Hlpn : later p pn) by (eapply later_trans; [apply Hs|exact Hln]).
  split.
  - eapply later_trans; [exact Hlpn|]. eapply later_trans; [apply Hss|exact Hlset].
  - right. split; [reflexivity|]. split; [reflexivity|].
    eexists pn, ps, _. split; [exact Hlpn|]. split; [apply Hss|]. split.
    + rewrite Hnset. destruct Hss as [_ _ ->]. rewrite Hnn.
      destruct Hs as [_ _ ->]. reflexivity.
    + rewrite Hoset. destruct Hss as [_ -> _]. rewrite Hon.
      destruct Hs as [_ -> _]. reflexivity.
Qed.


Lemma steady_cooled (c : timedelta) (self : nat) (p p' : Process) :
  steady p p' -> cooled c self p -> cooled c self p'.
Proof.
  intros Hs (Hm & Hi & Hsp & Hle). unfold cooled, notify_times.
  rewrite (steady_observed self p p' Hs).
  destruct Hs as [[_ Hi' _ Ht] _ Hn]. rewrite Hn, Hi'.
  destruct (Ht Hm) as [_ Hm']. auto.
Qed.

Lemma driver_tick_cooled (c : timedelta) (self : nat) (p : Process) :
  0 <= c -> cooled c self p -> cooled c self (snd (driver_tick self p)).
Proof.
  intros Hc Hinv. unfold SummaryNotification.driver_tick.
  destruct (condition_spec self p) as (p1 & _ & Hs1 & Hcond).
  pose proof (steady_cooled c self p p1 Hs1 Hinv) as Hinv1.
  destruct (bool_decide (time p1 - observed_last_summary_ts self p > summary_interval p))
    eqn:Hfire.
  2:{ rewrite (bind_Ok _ _ _ _ _ Hcond). exact Hinv1. }
  destruct Hcond as (p2 & Hs2 & Hcond). rewrite (bind_Ok _ _ _ _ _ Hcond).
  apply bool_decide_eq_true_1 in Hfire.
  pose proof (steady_cooled c self p1 p2 Hs2 Hinv1) as (Hm2 & Hi2 & Hsp2 & Hle2).
  destruct Hinv as (Hm & Hi & _ & _).
  rewrite (steady_observed self p1 p2 Hs2), (steady_observed self p p1 Hs1) in Hle2.
  assert (Ht12 : time p1 <= time p2).
  { destruct Hs2 as [[_ _ _ Ht] _ _]. apply Ht. apply Hinv1. }
  destruct (stamped_spec self (time p2) p2) as (_ & Hl3 & Ht3 & Ho3 & Hn3).
  set (p3 := stamped self (time p2) p2) in *.
  assert (Hm3 : monotone p3) by (destruct Hl3 as [_ _ _ Ht]; apply Ht; exact Hm2).
  assert (Hi3 : summary_interval p3 = c) by (destruct Hl3 as [_ -> _ _]; exact Hi2).
  destruct (trigger self p3) as [r p'] eqn:Htr.
  apply trigger_spec in Htr. destruct Htr as [Hl [[Ho Hn]|(_ & _ & pn & ps & summary & Hln & Hls & Hn & Ho)]];
    cbn [snd]; unfold cooled, notify_times, observed_last_summary_ts.
  - destruct Hl as [_ Hi' Hlast Ht]. rewrite Hn, Hn3, Ho, Hi', Hlast.
    fold (observed_last_summary_ts self p3). subst p3. rewrite observed_stamped.
    repeat split; [apply Ht; exact Hm3|exact Hi3|exact Hsp2|].
    eapply Forall_impl; [exact Hle2|]. simpl. intros t Ht'. lia.
  - destruct Hl as [_ Hi' Hlast Ht]. rewrite Hn, Hn3, Ho, Hi'.
    rewrite lookup_insert_eq. cbn [default map sent_at]. unfold Datatypes.id.
    destruct Hln as [_ _ _ Htn]. destruct (Htn Hm3) as [Htn1 Hmn].
    destruct Hls as [_ _ _ Hts]. destruct (Hts Hmn) as [Hts1 _].
    repeat split; [apply Ht; exact Hm3|exact Hi3| |].
    + constructor; [exact Hsp2|].
      eapply Forall_impl; [exact Hle2|]. simpl. intros t Ht'. lia.
    + constructor; [lia|].
      eapply Forall_impl; [exact Hle2|]. simpl. intros t Ht'. lia.
Qed.

Lemma drive_cooled (c : timedelta) (self : nat) (ticks : nat) (p : Process) :
  0 <= c -> cooled c self p -> cooled c self (drive ticks self p).
Proof.
  intros Hc. revert p. induction ticks as [|n IH]; intros p Hinv; [exact Hinv|].
  simpl. apply IH. apply driver_tick_cooled; assumption.
Qed.

End TriggerFacts.

(** Calls that are more than [c] apart: at most one in a window of length [c]. *)
Lemma spaced_window (c : timedelta) (times : list datetime) (a : datetime) :
  SummaryNotification.spaced c times ->
  (length (SummaryNotification.in_window a c times) <= 1)%nat.
Proof.
  unfold SummaryNotification.spaced, SummaryNotification.in_window.
  induction 1 as [|t earlier _ IH Hgap]; simpl; [lia|].
  destruct (bool_decide (a <= t <= a + c)) eqn:Hin; [|exact IH].
  apply bool_decide_eq_true_1 in Hin.
  assert (Hnone : List.filter (fun t0 => bool_decide (a <= t0 <= a + c)) earlier = []).
  { clear IH. induction Hgap as [|e earlier He _ IH]; simpl; [reflexivity|].
    rewrite bool_decide_eq_false_2 by lia. exact IH. }
  rewrite Hnone. simpl. lia.
Qed.


(** ** The claims about the summary rule *)

Section RuleClaims.

Import SummaryNotification.

Variable format_plot_count : Z -> string.
Variable format_balance : Z -> string.
Variable format_space : Z -> string.
Variable format_peak_height : string -> string.
Variable format_full_node_count : Z -> string.
Variable format_synced : bool -> string.
Variable format_proofs : Z -> string.

Abbreviation trigger :=
  (trigger format_plot_count format_balance format_space format_peak_height
           format_full_node_count format_synced format_proofs).
Abbreviation driver_tick :=
  (driver_tick format_plot_count format_balance format_space format_peak_height
               format_full_node_count format_synced format_proofs).
Abbreviation drive :=
  (drive format_plot_count format_balance format_space format_peak_height
         format_full_node_count format_synced format_proofs).

(** C2.  With a clock that does not go back and an interval [C] that is
    not negative, drive one rule for any number of ticks, however close
    together.  [condition()] gives true only when, at the reading of the
    clock it starts with, more than [C] has passed since
    [last_summary_ts]; it then stamps [last_summary_ts] with the clock
    before it returns.  And of the calls of [notify()] at most one falls
    into any window of length [C]. *)
Theorem summary_debounce (self : nat) (p : Process) (ticks : nat) :
  monotone p -> 0 <= summary_interval p -> notified p = [] ->
  (forall q,
     fst (condition self q) = Ok true ->
     time (snd (datetime_now q)) - observed_last_summary_ts self q > summary_interval q /\
     observed_last_summary_ts self (snd (condition self q)) = time (snd (condition self q))) /\
  (forall a,
     (length (in_window a (summary_interval p) (notify_times (drive ticks self p))) <= 1)%nat).
Proof.
  intros Hm Hc Hn. split.
  - intros q Htrue.
    destruct (condition_spec self q) as (q1 & Hnow & Hs1 & Hcond). rewrite Hnow. cbn [snd].
    destruct (bool_decide (time q1 - observed_last_summary_ts self q > summary_interval q))
      eqn:Hfire.
    + apply bool_decide_eq_true_1 in Hfire. split; [exact Hfire|].
      destruct Hcond as (q2 & _ & ->). cbn [snd].
      rewrite observed_stamped. destruct (stamped_spec self (time q2) q2) as (_ & _ & -> & _).
      reflexivity.
    + rewrite Hcond in Htrue. discriminate.
  - intros a. apply spaced_window.
    assert (Hinv : cooled (summary_interval p) self p).
    { unfold cooled, notify_times. rewrite Hn. repeat split; [exact Hm|constructor..]. }
    apply (drive_cooled format_plot_count format_balance format_space format_peak_height
             format_full_node_count format_synced format_proofs
             (summary_interval p) self ticks p Hc) in Hinv.
    apply Hinv.
Qed.

(** C4.  When one of the five things [trigger()] reads from the store is
    not there, [trigger()] does not call [notify()]. *)
Theorem trigger_needs_every_lookup (self : nat) (p : Process) :
  latest hp_ts (harvester_plots_events (db p)) = None \/
  latest bs_ts (blockchain_state_events (db p)) = None \/
  latest wb_ts (wallet_balance_events (db p)) = None \/
  latest cn_ts (connections_events (db p)) = None \/
  func_sum proofs (farming_info_events (db p)) = None ->
  notified (snd (trigger self p)) = notified p.
Proof.
  intros Hnone.
  assert (Hc : complete (db p) = false).
  { unfold complete. destruct Hnone as [->|[->|[->|[->| ->]]]];
      repeat (match goal with |- context [match ?x with _ => _ end] => destruct x end);
      reflexivity. }
  destruct (trigger self p) as [r p'] eqn:Htr. apply trigger_spec in Htr.
  destruct Htr as [_ [[_ Hn]|(_ & Hc' & _)]]; [exact Hn|congruence].
Qed.


(** C9, as the code has it.  The class body sets [last_summary_ts] one
    interval before the time at which it runs.  On an object that has not
    fired yet, [condition()] gives true exactly when the clock reads
    later than it did in the class body: as soon as it has advanced, and
    not while it reads the same. *)
Theorem first_condition_fires (self : nat) (p0 p : Process) :
  summary_interval p = summary_interval (snd (class_body p0)) ->
  last_summary_ts p = last_summary_ts (snd (class_body p0)) ->
  own_last_summary_ts p !! self = None ->
  fst (condition self p)
  = Ok (bool_decide (time (snd (class_body p0)) < time (snd (datetime_now p)))).
Proof.
  intros Hi Hl Hown.
  destruct (condition_spec self p) as (p1 & Hnow & _ & Hcond).
  rewrite Hnow. cbn [snd].
  assert (Hobs : observed_last_summary_ts self p
                 = time (snd (class_body p0)) - timedelta_hours 1).
  { unfold observed_last_summary_ts. rewrite Hown, Hl. cbn [default].
    unfold class_body. destruct (datetime_now_spec p0) as (q & Hq & _).
    rewrite (bind_Ok _ _ _ _ _ Hq). reflexivity. }
  assert (Hint : summary_interval p = timedelta_hours 1).
  { rewrite Hi. unfold class_body. destruct (datetime_now_spec p0) as (q & Hq & _).
    rewrite (bind_Ok _ _ _ _ _ Hq). reflexivity. }
  rewrite Hobs, Hint in Hcond.
  destruct (decide (time (snd (class_body p0)) < time p1)) as [Hlt|Hge].
  - rewrite bool_decide_eq_true_2 in Hcond by lia.
    rewrite bool_decide_eq_true_2 by exact Hlt.
    destruct Hcond as (p2 & _ & ->). reflexivity.
  - rewrite bool_decide_eq_false_2 in Hcond by lia.
    rewrite bool_decide_eq_false_2 by exact Hge.
    rewrite Hcond. reflexivity.
Qed.

(** C10.  For two objects [a] and [b] of the class, neither [condition()]
    nor [trigger()] on [a] changes the [last_summary_ts] that [b] reads. *)
Theorem instances_cool_down_apart (a b : nat) (p : Process) :
  a <> b ->
  observed_last_summary_ts b (snd (condition a p)) = observed_last_summary_ts b p /\
  observed_last_summary_ts b (snd (trigger a p)) = observed_last_summary_ts b p.
Proof.
  intros Hne. split.
  - destruct (condition_spec a p) as (p1 & _ & Hs1 & Hcond).
    destruct (bool_decide (time p1 - observed_last_summary_ts a p > summary_interval p)).
    + destruct Hcond as (p2 & Hs2 & ->). cbn [snd].
      rewrite (observed_stamped_other a b _ _ Hne).
      rewrite (steady_observed b p1 p2 Hs2). apply steady_observed. exact Hs1.
    + rewrite Hcond. apply steady_observed. exact Hs1.
  - destruct (trigger a p) as [r p'] eqn:Htr. apply trigger_spec in Htr. cbn [snd].
    unfold observed_last_summary_ts.
    destruct Htr as [[_ _ -> _] [[-> _]|(_ & _ & pn & ps & summary & _ & _ & _ & ->)]];
      [reflexivity|].
    rewrite lookup_insert_ne by exact Hne. reflexivity.
Qed.

End RuleClaims.

(** ** The rule at work *)

Section RuleExamples.

Import SummaryNotification.


Lemma busy_monotone : monotone Office.busy.
Proof. apply (bool_decide_unpack _). vm_compute. exact I. Qed.

Lemma summary_debounce_witness :
  (forall q,
     fst (condition 0 q) = Ok true ->
     time (snd (datetime_now q)) - observed_last_summary_ts 0 q > summary_interval q /\
     observed_last_summary_ts 0 (snd (condition 0 q)) = time (snd (condition 0 q))) /\
  (forall a,
     (length (in_window a (summary_interval Office.busy)
                (notify_times (Office.drive 30 0 Office.busy))) <= 1)%nat).
Proof.
  apply (summary_debounce Office.format_plot_count Office.format_balance Office.format_space
           Office.format_peak_height Office.format_full_node_count Office.format_synced
           Office.format_proofs 0 Office.busy 30).
  - exact busy_monotone.
  - vm_compute. discriminate.
  - reflexivity.
Defined.

(** In that run [notify] is called four times, two hours less a minute apart. *)
Example busy_notify_times :
  notify_times (Office.drive 30 0 Office.busy) = [25201000000; 18061000000; 10921000000; 3781000000].
Proof. vm_compute. reflexivity. Qed.

Lemma trigger_needs_every_lookup_witness :
  notified (snd (Office.trigger 0 Office.no_balance)) = notified Office.no_balance.
Proof.
  apply (trigger_needs_every_lookup Office.format_plot_count Office.format_balance
           Office.format_space Office.format_peak_height Office.format_full_node_count
           Office.format_synced Office.format_proofs 0 Office.no_balance).
  right. right. left. reflexivity.
Defined.



Lemma first_condition_fires_witness :
  fst (condition 0 Office.busy)
  = Ok (bool_decide (time (snd (class_body (Office.fresh (repeat (Office.minutes 7) 60)
                                              Office.store [])))
                     < time (snd (datetime_now Office.busy)))).
Proof.
  apply (first_condition_fires 0 (Office.fresh (repeat (Office.minutes 7) 60) Office.store [])
           Office.busy); reflexivity.
Defined.

(** C9 as the spec has it fails: the clock does not go back, the object
    is new, and its first [condition()] gives false. *)
Lemma first_condition_same_instant :
  monotone Office.same_instant /\
  own_last_summary_ts Office.same_instant !! 0%nat = None /\
  fst (condition 0 Office.same_instant) = Ok false.
Proof.
  split; [apply (bool_decide_unpack _); vm_compute; exact I|].
  split; reflexivity.
Qed.

Lemma instances_cool_down_apart_witness :
  observed_last_summary_ts 1 (snd (condition 0 Office.busy)) = observed_last_summary_ts 1 Office.busy /\
  observed_last_summary_ts 1 (snd (Office.trigger 0 Office.busy)) = observed_last_summary_ts 1 Office.busy.
Proof.
  apply (instances_cool_down_apart Office.format_plot_count Office.format_balance
           Office.format_space Office.format_peak_height Office.format_full_node_count
           Office.format_synced Office.format_proofs 0 1 Office.busy).
  discriminate.
Defined.

End RuleExamples.

(** ** The most recent event of a kind *)

Section LatestFacts.

Context {E : Type} (ts : E -> datetime).

#[local] Instance ts_desc_total : Total (ts_desc ts).
Proof. intros a b. unfold ts_desc. lia. Qed.

#[local] Instance ts_desc_transitive : Transitive (ts_desc ts).
Proof. intros a b c. unfold ts_desc. lia. Qed.

(** [latest] finds nothing in an empty table only, and else a row of the
    table whose [ts] no other row exceeds. *)
Lemma latest_spec (rows : list E) :
  match latest ts rows with
  | None => rows = []
  | Some e => e ∈ rows /\ forall e', e' ∈ rows -> ts e' <= ts e
  end.
Proof.
  unfold latest, order_by_desc, limit, first.
  pose proof (StronglySorted_merge_sort (ts_desc ts) rows) as Hsorted.
  pose proof (merge_sort_Permutation (ts_desc ts) rows) as Hperm.
  destruct (merge_sort (ts_desc ts) rows) as [|e rest]; simpl.
  - apply Permutation_nil_r. symmetry. exact Hperm.
  - split.
    + rewrite <- Hperm. left.
    + intros e' He'. rewrite <- Hperm in He'.
      apply StronglySorted_inv in Hsorted. destruct Hsorted as [_ Hall].
      apply elem_of_cons in He'. destruct He' as [->|He']; [lia|].
      rewrite Forall_forall in Hall. apply (Hall e' He').
Qed.

(** Rows with pairwise distinct [ts] are told apart by their [ts]. *)
Lemma ts_inj_NoDup (rows : list E) (e e' : E) :
  NoDup (ts <$> rows) -> e ∈ rows -> e' ∈ rows -> ts e = ts e' -> e = e'.
Proof.
  induction rows as [|r rows IH]; intros Hnd He He' Hts; [inversion He|].
  rewrite fmap_cons in Hnd. apply NoDup_cons in Hnd. destruct Hnd as [Hr Hnd].
  apply elem_of_cons in He. apply elem_of_cons in He'.
  destruct He as [->|He], He' as [->|He']; auto.
  - exfalso. apply Hr. rewrite Hts. apply list_elem_of_fmap_2. exact He'.
  - exfalso. apply Hr. rewrite <- Hts. apply list_elem_of_fmap_2. exact He.
Qed.

(** The order in which the rows were stored does not matter to the [ts]
    that [latest] finds, nor, when no two rows have the same [ts], to the
    row. *)
Lemma latest_Permutation (rows rows' : list E) :
  rows ≡ₚ rows' ->
  ts <$> latest ts rows = ts <$> latest ts rows' /\
  (NoDup (ts <$> rows) -> latest ts rows = latest ts rows').
Proof.
  intros Hperm.
  pose proof (latest_spec rows) as H. pose proof (latest_spec rows') as H'.
  destruct (latest ts rows) as [e|], (latest ts rows') as [e'|].
  - destruct H as [He Hmax], H' as [He' Hmax'].
    assert (Hts : ts e = ts e').
    { rewrite <- Hperm in He'. rewrite Hperm in He.
      specialize (Hmax e' He'). specialize (Hmax' e He). lia. }
    split; [simpl; rewrite Hts; reflexivity|].
    intros Hnd. f_equal. apply (ts_inj_NoDup rows); auto. rewrite Hperm. exact He'.
  - subst rows'. destruct H as [He _]. rewrite Hperm in He. inversion He.
  - subst rows. destruct H' as [He _]. rewrite <- Hperm in He. inversion He.
  - split; reflexivity.
Qed.

End LatestFacts.

(** * More about the collector *)

(** ** The fetches, one by one *)

Section FetchOutcomes.

Import RpcCollector.

Variable remote : Remote.

(** The balance requests leave the world as it is, however they end. *)
Lemma wallet_balances_world (ws : list Wallet) (acc : list Z) (w : World) :
  snd (exec remote (wallet_balances ws acc) w) = w.
Proof.
  revert acc. induction ws as [|wallet rest IH]; intros acc; simpl; [reflexivity|].
  destruct (remote _ (Wallet_get_wallet_balance (id wallet))) as [b|e]; simpl; auto.
Qed.

Lemma wallet_balances_raise (ws : list Wallet) (acc : list Z) (w : World) :
  Exists (fun wallet => succeeded (remote _ (Wallet_get_wallet_balance (id wallet))) = false) ws ->
  exists e, fst (exec remote (wallet_balances ws acc) w) = Raised e.
Proof.
  intros Hex. revert acc. induction Hex as [wallet rest Hw|wallet rest _ IH]; intros acc; simpl.
  - destruct (remote _ (Wallet_get_wallet_balance (id wallet))) as [b|e];
      [discriminate|]. simpl. eauto.
  - destruct (remote _ (Wallet_get_wallet_balance (id wallet))) as [b|e]; simpl; eauto.
Qed.

(** X1.  [get_wallet_balance] is all or nothing: when the list of wallets
    cannot be fetched, or the balance of one of the wallets cannot,
    whatever the other wallets answer, it raises the [ConnectionError] of
    its [except] clause, and it publishes and prints nothing. *)
Theorem get_wallet_balance_all_or_nothing (w : World) :
  succeeded (remote _ Wallet_get_wallets) = false \/
  (exists ws,
     remote _ Wallet_get_wallets = Ok ws /\
     Exists (fun wallet =>
               succeeded (remote _ (Wallet_get_wallet_balance (id wallet))) = false) ws) ->
  exec remote get_wallet_balance w
  = (Raised (ConnectionError "Failed to get wallet balance via RPC. Is your wallet running?"),
     w).
Proof.
  intros H. unfold get_wallet_balance. rewrite exec_bind, exec_try_except. simpl.
  destruct H as [H|(ws & Hws & Hex)].
  - destruct (remote _ Wallet_get_wallets) as [ws|e]; [discriminate|]. reflexivity.
  - rewrite Hws. simpl.
    destruct (wallet_balances_raise ws [] w Hex) as [e He].
    pose proof (wallet_balances_world ws [] w) as Hw.
    destruct (exec remote (wallet_balances ws []) w) as [r w']. simpl in He, Hw.
    subst r w'. reflexivity.
Qed.

(** X2.  [get_blockchain_state]: an answer of the full node with a
    peak becomes exactly one event, stamped with the clock, whose [space]
    and [peak_height] are decimal strings that [int] reads back.  An
    answer without a peak, as the full node gives while it has no block,
    raises [AttributeError] after the [try] block, and nothing is
    published.  Whatever the request raises becomes the [ConnectionError]
    of the [except] clause, and nothing is published either. *)
Theorem get_blockchain_state_outcomes (w : World) :
  match remote _ FullNode_get_blockchain_state with
  | Ok state =>
      match state_peak state with
      | Some peak =>
          exists event,
            exec remote get_blockchain_state w = (Ok tt, put (EvBlockchainState event) w) /\
            bs_ts event = clock w /\
            int (space event) = Some (state_space state) /\
            int (peak_height event) = Some (height peak) /\
            diffculty event = state_difficulty state /\
            synced event = state_sync_synced state
      | None =>
          exec remote get_blockchain_state w
          = (Raised (AttributeError "'NoneType' object has no attribute 'height'"), w)
      end
  | Raised _ =>
      exec remote get_blockchain_state w
      = (Raised (ConnectionError
                   "Failed to get blockchain state via RPC. Is your full node running?"), w)
  end.
Proof.
  unfold get_blockchain_state. rewrite exec_bind, exec_try_except. simpl.
  destruct (remote _ FullNode_get_blockchain_state) as [state|e]; simpl; [|reflexivity].
  destruct (state_peak state) as [peak|]; simpl; [|reflexivity].
  eexists. split; [reflexivity|]. simpl. rewrite !int_str. auto.
Qed.

Lemma counts_partition (peers : list Connection) :
  len (List.filter (has_type FULL_NODE) peers) + len (List.filter (has_type FARMER) peers)
  + len (List.filter (has_type WALLET) peers)
  = len (List.filter counted peers).
Proof.
  unfold len. induction peers as [|peer rest IH]; [reflexivity|].
  unfold counted, has_type in *. simpl.
  destruct (type peer); simpl; lia.
Qed.

(** X3.  [get_connections]: an answer of the full node becomes exactly
    one event, stamped with the clock; its three counts add up to the
    number of peers that are full nodes, farmers or wallets, so that
    harvesters, timelords and introducers are counted nowhere and the sum
    never exceeds the number of peers.  What the full node raises instead
    leaves [get_connections] as it is, not wrapped, and nothing is
    published. *)
Theorem get_connections_counts (w : World) :
  match remote _ FullNode_get_connections with
  | Ok peers =>
      exists event,
        exec remote get_connections w = (Ok tt, put (EvConnections event) w) /\
        cn_ts event = clock w /\
        full_node_count event + farmer_count event + wallet_count event
        = len (List.filter counted peers) /\
        0 <= full_node_count event /\ 0 <= farmer_count event /\ 0 <= wallet_count event /\
        full_node_count event + farmer_count event + wallet_count event <= len peers
  | Raised e => exec remote get_connections w = (Raised e, w)
  end.
Proof.
  unfold get_connections. rewrite exec_bind. simpl.
  destruct (remote _ FullNode_get_connections) as [peers|e]; simpl; [|reflexivity].
  eexists. split; [reflexivity|]. simpl.
  rewrite counts_partition.
  repeat split; try (unfold len; lia).
  unfold len. pose proof (List.filter_length_le counted peers). lia.
Qed.

End FetchOutcomes.

(** ** The harvesters *)

Section HarvesterOutcomes.

Import RpcCollector.

Variable config : Config.
Variable remote : Remote.

Abbreviation complaint := (complaint config remote).
Abbreviation plots_from := (plots_from config remote).
Abbreviation asked := (asked config remote).
Abbreviation harvester_served := (harvester_served config remote).
Abbreviation all_plots := (all_plots config remote).

Lemma asked_all (hosts : list string) :
  forallb harvester_served hosts = true -> asked hosts = hosts.
Proof.
  induction hosts as [|host rest IH]; simpl; [reflexivity|].
  intros H. apply andb_prop in H. destruct H as [Hhost Hrest].
  rewrite plots_from_served, Hhost, (IH Hrest). reflexivity.
Qed.

Lemma all_plots_loop_trace (hosts : list string) (acc : option PlotsResponse) (w : World) :
  let out := exec remote (all_plots_loop config None hosts acc) w in
  succeeded (fst out) = forallb harvester_served hosts /\
  clock (snd out) = clock w /\
  event_queue (snd out) = event_queue w /\
  stdout (snd out) = stdout w ++ omap complaint (asked hosts).
Proof.
  revert acc w. induction hosts as [|host rest IH]; intros acc w; cbn [all_plots_loop].
  - simpl. rewrite app_nil_r. auto.
  - rewrite exec_bind, exec_get_plots. cbn [forallb RpcCollector.asked].
    rewrite <- plots_from_served.
    assert (Hw : forall w1,
               w1 = match complaint host with Some line => write line w | None => w end ->
               clock w1 = clock w /\ event_queue w1 = event_queue w /\
               stdout w1 = stdout w ++ omap complaint [host]).
    { intros w1 ->. cbn [omap list_omap].
      destruct (complaint host); simpl; rewrite ?app_nil_r; auto. }
    destruct (plots_from host) as [plots|e]; cbn [succeeded andb].
    + match goal with
      | |- context [exec remote (all_plots_loop config None rest ?a) ?w1] =>
          destruct (IH a w1) as (Hr & Hc & Hq & Hs);
          destruct (Hw w1 eq_refl) as (Hc1 & Hq1 & Hs1)
      end.
      cbv zeta in *. rewrite Hr, Hc, Hq, Hs, Hc1, Hq1, Hs1.
      repeat split; try reflexivity.
      rewrite <- app_assoc. change (host :: asked rest) with ([host] ++ asked rest).
      rewrite omap_app. reflexivity.
    + cbv zeta. cbn [fst snd succeeded].
      destruct (Hw _ eq_refl) as (Hc1 & Hq1 & Hs1). auto.
Qed.

(** X4.  [get_all_plots] leaves no other trace than print-outs: the
    clock and the queue are as before, and one line is printed for each
    host it gets to for which loading the configuration, creating the
    client or the request raised, in the order of the hosts; a host that
    answers without [success] is dropped without a line.  It gets to the
    hosts up to the first one whose client cannot be created or closed:
    there [get_plots] raises, [get_all_plots] raises with it, and the
    hosts after it are not asked and print nothing. *)
Theorem get_all_plots_reports_failures (hosts : list string) (w : World) :
  let out := exec remote (get_all_plots config None hosts) w in
  succeeded (fst out) = forallb harvester_served hosts /\
  clock (snd out) = clock w /\
  event_queue (snd out) = event_queue w /\
  stdout (snd out) = stdout w ++ omap complaint (asked hosts) /\
  (forallb harvester_served hosts = true -> asked hosts = hosts) /\
  (forall done host rest,
     hosts = done ++ host :: rest ->
     forallb harvester_served done = true -> harvester_served host = false ->
     asked hosts = done ++ [host]).
Proof.
  unfold get_all_plots.
  destruct (all_plots_loop_trace hosts None w) as (Hr & Hc & Hq & Hs).
  cbv zeta in *. repeat split; try assumption; [apply asked_all|].
  intros done host rest -> Hdone Hhost. clear Hr Hc Hq Hs.
  induction done as [|d done IH]; simpl.
  - rewrite plots_from_served, Hhost. reflexivity.
  - simpl in Hdone. apply andb_prop in Hdone. destruct Hdone as [Hd Hdone].
    rewrite plots_from_served, Hd, (IH Hdone). reflexivity.
Qed.

(** X5.  [get_harvesters]: when the configuration loads, the client of
    the farmer is created, the farmer answers and the client is closed,
    it gives the hosts of the peers of the farmer that are harvesters, in
    the order of the answer and one per connection, and prints nothing.
    When the request raises it prints one line and gives the empty list.
    When the configuration does not load or the client cannot be created
    it prints one line and then raises [UnboundLocalError] at the
    [close()] after the [try] block; when closing raises, that exception
    leaves [get_harvesters].  It never publishes. *)
Theorem get_harvesters_hosts (port : option Z) (w : World) :
  let port' := default (farmer_rpc_port config) port in
  let out := exec remote (get_harvesters config port) w in
  match remote _ Load_config,
        remote _ (Farmer_create (self_hostname config) port') with
  | Ok _, Ok _ =>
      match remote _ (Farmer_get_connections (self_hostname config) port') with
      | Ok connections =>
          let hosts := peer_host <$> List.filter is_harvester connections in
          snd out = w /\
          fst out = match remote _ (Farmer_close (self_hostname config) port') with
                    | Ok _ => Ok hosts
                    | Raised e => Raised e
                    end /\
          (forall host, host ∈ hosts <->
                        exists c, c ∈ connections /\ type c = HARVESTER /\ peer_host c = host) /\
          (length hosts <= length connections)%nat
      | Raised e =>
          snd out = write ("Exception from 'farmer' " ++ str_exn e)%string w /\
          fst out = match remote _ (Farmer_close (self_hostname config) port') with
                    | Ok _ => Ok []
                    | Raised e' => Raised e'
                    end
      end
  | Raised e, _ | Ok _, Raised e =>
      out = (Raised (unbound "farmer_client"),
             write ("Exception from 'farmer' " ++ str_exn e)%string w)
  end.
Proof.
  intros port'. unfold get_harvesters. fold port'. simpl.
  destruct (remote _ Load_config) as [[]|e0]; simpl; [|reflexivity].
  destruct (remote _ (Farmer_create (self_hostname config) port')) as [[]|e1]; simpl;
    [|reflexivity].
  destruct (remote _ (Farmer_get_connections (self_hostname config) port')) as [cs|e2]; simpl.
  - split; [destruct (remote _ (Farmer_close (self_hostname config) port')) as [[]|e3];
            reflexivity|].
    split; [destruct (remote _ (Farmer_close (self_hostname config) port')) as [[]|e3];
            reflexivity|].
    split.
    + intros host. rewrite list_elem_of_fmap. split.
      * intros (c & -> & Hc). apply list_elem_of_In, List.filter_In in Hc.
        destruct Hc as [Hc Hh]. exists c. split; [apply list_elem_of_In; exact Hc|].
        split; [|reflexivity]. unfold is_harvester in Hh.
        apply bool_decide_eq_true_1 in Hh. exact Hh.
      * intros (c & Hc & Ht & <-). exists c. split; [reflexivity|].
        apply list_elem_of_In, List.filter_In. split; [apply list_elem_of_In; exact Hc|].
        unfold is_harvester. apply bool_decide_eq_true_2. exact Ht.
    + rewrite length_fmap. apply List.filter_length_le.
  - destruct (remote _ (Farmer_close (self_hostname config) port')) as [[]|e3];
      split; reflexivity.
Qed.

Lemma exec_get_all_plots (hosts : list string) (w : World) :
  forallb harvester_served hosts = true ->
  fst (exec remote (get_all_plots config None hosts) w)
  = Ok (fold_left merge (omap (answer config remote) hosts) None).
Proof.
  intros Hall. unfold get_all_plots.
  destruct (exec_all_plots_loop config remote hosts Hall None w) as (w' & -> & _). reflexivity.
Qed.

Lemma fold_merge_success (ps : list PlotsResponse) (a : PlotsResponse) :
  success a = true ->
  exists r, fold_left merge ps (Some a) = Some r /\ success r = true.
Proof.
  revert a. induction ps as [|p ps IH]; intros a Ha; simpl; [eauto|].
  apply IH. exact Ha.
Qed.

Lemma answer_success (host : string) (p : PlotsResponse) :
  answer config remote host = Some p -> success p = true.
Proof.
  unfold answer.
  destruct (remote _ (Harvester_get_plots host (harvester_rpc_port config))) as [q|e];
    [|discriminate].
  destruct (success q) eqn:Hq; [|discriminate]. intros [= <-]. exact Hq.
Qed.

Lemma all_plots_served (hosts : list string) (w : World) :
  forallb harvester_served hosts = true ->
  all_plots hosts w = concat (map plots (omap (answer config remote) hosts)).
Proof.
  intros Hall. unfold all_plots.
  rewrite (exec_get_all_plots hosts w Hall).
  pose proof (plots_of_fold_merge (omap (answer config remote) hosts) None) as H.
  simpl in H. rewrite <- H. unfold plots_of.
  destruct (fold_left merge _ None); reflexivity.
Qed.

(** X6.  When the configuration loads and the client of every host can
    be created and closed, [get_all_plots] returns, also when requests
    raise, and is [None] exactly when no host succeeds; otherwise its
    answer says [success].  Its plots are those of the succeeding hosts
    in the order of the hosts: for two lists of hosts one after the
    other, the plots of the first followed by the plots of the second,
    so a host that is listed twice is asked twice and its plots are
    there twice.  When the client of a host cannot be created or
    closed, [get_all_plots] raises. *)
Theorem get_all_plots_concatenates (hosts hosts' : list string) (w : World) :
  (if forallb harvester_served hosts
   then (exists r, fst (exec remote (get_all_plots config None hosts) w) = Ok r /\
                   (r = None <-> omap (answer config remote) hosts = []) /\
                   (forall p, r = Some p -> success p = true)) /\
        all_plots hosts w = concat (map plots (omap (answer config remote) hosts))
   else exists e, fst (exec remote (get_all_plots config None hosts) w) = Raised e) /\
  (forallb harvester_served (hosts ++ hosts') = true ->
   all_plots (hosts ++ hosts') w = all_plots hosts w ++ all_plots hosts' w).
Proof.
  split.
  - destruct (forallb harvester_served hosts) eqn:Hall.
    + split; [|apply all_plots_served; exact Hall].
      rewrite (exec_get_all_plots hosts w Hall). eexists. split; [reflexivity|].
      destruct (omap (answer config remote) hosts) as [|p ps] eqn:Hps; simpl.
      * split; [tauto|discriminate].
      * assert (Hp : success p = true).
        { assert (Hin : p ∈ omap (answer config remote) hosts) by (rewrite Hps; left).
          apply list_elem_of_omap in Hin. destruct Hin as (host & _ & Hhost).
          eapply answer_success. exact Hhost. }
        destruct (fold_merge_success ps p Hp) as (r & -> & Hr).
        split; [split; discriminate|]. intros q [= <-]. exact Hr.
    + unfold get_all_plots.
      destruct (exec_all_plots_loop_stranded config remote hosts Hall None w)
        as (e & w' & -> & _).
      exists e. reflexivity.
  - intros Hall. pose proof Hall as Hboth. rewrite forallb_app in Hboth.
    apply andb_prop in Hboth. destruct Hboth as [H1 H2].
    rewrite !all_plots_served by assumption.
    rewrite omap_app, map_app, concat_app. reflexivity.
Qed.

End HarvesterOutcomes.

(** ** A poll cycle, counted *)

Section CycleOutcomes.

Import RpcCollector.

Variable config : Config.
Variable remote : Remote.

Lemma emitted_of_queue {A} (c : coro A) (w : World) (new : list ChiaEvent) :
  event_queue (snd (exec remote c w)) = event_queue w ++ new ->
  emitted remote (clock w) c = new.
Proof. rewrite exec_queue. apply app_inv_head. Qed.

(** What a fetch puts on the queue: one event of its kind, stamped with
    the clock, when it returns, and nothing when it raises. *)
Lemma fetch_emitted (m : metric) (w : World) :
  match fst (exec remote (fetch config m) w) with
  | Ok _ => exists ev, emitted remote (clock w) (fetch config m) = [ev] /\
                       event_of m ev = true /\ ts ev = clock w
  | Raised _ => emitted remote (clock w) (fetch config m) = []
  end.
Proof.
  destruct m; cbn [fetch].
  - assert (H : exists r ev, exec remote get_wallet_balance w
                             = (r, match r with Ok _ => put ev w | Raised _ => w end) /\
                             event_of Slot0 ev = true /\ ts ev = clock w).
    { unfold get_wallet_balance. rewrite exec_bind, exec_try_except. simpl.
      destruct (remote _ Wallet_get_wallets) as [ws|e]; simpl.
      - pose proof (wallet_balances_world remote ws [] w) as Hw.
        destruct (exec remote (wallet_balances ws []) w) as [[bs|e] w']; simpl in Hw; subst w';
          simpl.
        + exists (Ok tt), (EvWalletBalance {| wb_ts := clock w; confirmed := str (sum bs) |}).
          split; [reflexivity|split; reflexivity].
        + eexists (Raised _), (EvWalletBalance {| wb_ts := clock w; confirmed := "" |}).
          split; [reflexivity|split; reflexivity].
      - eexists (Raised _), (EvWalletBalance {| wb_ts := clock w; confirmed := "" |}).
        split; [reflexivity|split; reflexivity]. }
    destruct H as (r & ev & Hex & Hk & Ht). rewrite Hex. cbn [fst].
    destruct r; [exists ev; split; [|auto]|];
      apply emitted_of_queue; rewrite Hex; simpl; [reflexivity|symmetry; apply app_nil_r].
  - pose proof (exec_get_harvester_plots config remote w) as H.
    destruct (served config remote);
      [destruct (succeeding config remote) as [|p ps]|]; destruct H as [H1 H2]; rewrite H1.
    + apply emitted_of_queue. rewrite H2. symmetry. apply app_nil_r.
    + eexists. split; [apply emitted_of_queue; exact H2|]. split; reflexivity.
    + apply emitted_of_queue. rewrite H2. symmetry. apply app_nil_r.
  - unfold get_blockchain_state.
    assert (H : exec remote get_blockchain_state w
                = match remote _ FullNode_get_blockchain_state with
                  | Ok state =>
                      match state_peak state with
                      | Some peak =>
                          (Ok tt, put (EvBlockchainState
                                         {| bs_ts := clock w; space := str (state_space state);
                                            diffculty := state_difficulty state;
                                            peak_height := str (height peak);
                                            synced := state_sync_synced state |}) w)
                      | None =>
                          (Raised (AttributeError
                                     "'NoneType' object has no attribute 'height'"), w)
                      end
                  | Raised _ =>
                      (Raised (ConnectionError
                         "Failed to get blockchain state via RPC. Is your full node running?"), w)
                  end).
    { unfold get_blockchain_state. rewrite exec_bind, exec_try_except. simpl.
      destruct (remote _ FullNode_get_blockchain_state) as [state|e]; [|reflexivity].
      simpl. destruct (state_peak state); reflexivity. }
    fold get_blockchain_state. rewrite H.
    destruct (remote _ FullNode_get_blockchain_state) as [state|e];
      [destruct (state_peak state) as [peak|]|]; cbn [fst].
    + eexists. split; [apply emitted_of_queue; rewrite H; reflexivity|]. split; reflexivity.
    + apply emitted_of_queue. rewrite H. symmetry. apply app_nil_r.
    + apply emitted_of_queue. rewrite H. symmetry. apply app_nil_r.
  - assert (H : exec remote get_connections w
                = match remote _ FullNode_get_connections with
                  | Ok peers =>
                      (Ok tt, put (EvConnections
                                     {| cn_ts := clock w;
                                        full_node_count := len (List.filter (has_type FULL_NODE) peers);
                                        farmer_count := len (List.filter (has_type FARMER) peers);
                                        wallet_count := len (List.filter (has_type WALLET) peers) |}) w)
                  | Raised e => (Raised e, w)
                  end).
    { unfold get_connections. rewrite exec_bind. simpl.
      destruct (remote _ FullNode_get_connections); reflexivity. }
    rewrite H. destruct (remote _ FullNode_get_connections) as [peers|e]; cbn [fst].
    + eexists. split; [apply emitted_of_queue; rewrite H; reflexivity|]. split; reflexivity.
    + apply emitted_of_queue. rewrite H. symmetry. apply app_nil_r.
Qed.

(** X7.  Each of the four fetches publishes exactly when it succeeds:
    when it returns, the queue has grown by one event, of the kind of
    the metric and stamped with the clock; when it raises, the queue is
    as it was.  There is no event without a successful fetch and no
    successful fetch without its event. *)
Theorem fetch_publishes_iff_it_succeeds (m : metric) (w : World) :
  match fst (exec remote (fetch config m) w) with
  | Ok _ =>
      exists ev,
        event_queue (snd (exec remote (fetch config m) w)) = event_queue w ++ [ev] /\
        event_of m ev = true /\ ts ev = clock w
  | Raised _ => event_queue (snd (exec remote (fetch config m) w)) = event_queue w
  end.
Proof.
  pose proof (fetch_emitted m w) as H. rewrite exec_queue.
  destruct (fst (exec remote (fetch config m) w)).
  - destruct H as (ev & -> & Hk & Ht). eauto.
  - rewrite H. apply app_nil_r.
Qed.

Lemma length_by_kind (l : list ChiaEvent) :
  length l
  = (length (List.filter (event_of wallet_balance) l)
     + length (List.filter (event_of harvester_plots) l)
     + length (List.filter (event_of blockchain_state) l)
     + length (List.filter (event_of connections) l)
     + length (List.filter is_farming l))%nat.
Proof. induction l as [|ev l IH]; [reflexivity|]. destruct ev; simpl; lia. Qed.

Lemma emitted_puts_only {A} (P : ChiaEvent -> bool) (c : coro A) (t : datetime) :
  puts_only P c -> forallb P (emitted remote t c) = true.
Proof.
  induction c as [a|e|X rq k IH|k IH|ev k IH|line k IH]; simpl; auto.
  intros [-> Hk]. simpl. auto.
Qed.

Lemma filter_none {A} (P Q : A -> bool) (l : list A) :
  (forall x, P x = true -> Q x = false) -> forallb P l = true -> List.filter Q l = [].
Proof.
  intros HPQ. induction l as [|x l IH]; simpl; [reflexivity|].
  intros H. apply andb_prop in H. destruct H as [Hx Hl].
  rewrite (HPQ x Hx). auto.
Qed.

(** The poll cycle puts no event of the websocket collector. *)
Lemma poll_cycle_no_farming (sched : schedule) (w : World) :
  completes config remote sched w ->
  length (List.filter is_farming (event_queue (world (poll_cycle config remote sched w))))
  = length (List.filter is_farming (event_queue w)).
Proof.
  intros Hc.
  assert (Hquiet : forall m, puts_only (fun ev => negb (is_farming ev)) (fetch config m)).
  { intros m. apply (puts_only_weaken (event_of m)); [|apply puts_only_fetch].
    intros ev. destruct m, ev; simpl; congruence. }
  destruct (run_pending remote wallet_balance is_farming
              (fun ev => ltac:(destruct ev; reflexivity)) w sched
              (gather get_wallet_balance (get_harvester_plots config) get_blockchain_state
                      get_connections w)
              (fetch config wallet_balance) (fetch config wallet_balance)) as [_ H].
  - reflexivity.
  - apply alike_fetch.
  - intros m _. specialize (Hquiet m). destruct m; exact Hquiet.
  - apply Hc.
  - unfold queued in H. fold (poll_cycle config remote sched w) in H.
    rewrite (filter_none (fun ev => negb (is_farming ev)) is_farming
               (emitted remote (clock w) (fetch config wallet_balance))) in H.
    + apply (f_equal (@length _)) in H.
      rewrite length_app, !length_map in H. unfold gather in H. cbn [length world] in H. lia.
    + intros ev. destruct (is_farming ev); simpl; congruence.
    + apply emitted_puts_only. apply Hquiet.
Qed.

Lemma poll_cycle_kind_length (sched : schedule) (w : World) (m : metric) :
  completes config remote sched w ->
  length (List.filter (event_of m) (event_queue (world (poll_cycle config remote sched w))))
  = (length (List.filter (event_of m) (event_queue w))
     + if succeeded (fst (exec remote (fetch config m) w)) then 1 else 0)%nat.
Proof.
  intros Hc. destruct (poll_cycle_fetch config remote sched w m (Hc m)) as [_ H].
  unfold queued in H. apply (f_equal (@length _)) in H. rewrite !length_map in H.
  rewrite H, exec_queue, List.filter_app, length_app. f_equal.
  pose proof (fetch_emitted m w) as He.
  destruct (fst (exec remote (fetch config m) w)); simpl.
  - destruct He as (ev & -> & Hk & _). simpl. rewrite Hk. reflexivity.
  - rewrite He. reflexivity.
Qed.

(** X8.  In a poll cycle that the event loop runs to its end, the queue
    grows by exactly one event for each of the four fetches that
    succeeds, however the tasks are interleaved: a cycle in which [k]
    fetches fail leaves [4 - k] new events. *)
Theorem poll_cycle_publishes_per_success (sched : schedule) (w : World) :
  completes config remote sched w ->
  length (event_queue (world (poll_cycle config remote sched w)))
  = (length (event_queue w)
     + length (List.filter (fun m => succeeded (fst (exec remote (fetch config m) w)))
                           [wallet_balance; harvester_plots; blockchain_state; connections]))%nat.
Proof.
  intros Hc.
  rewrite (length_by_kind (event_queue (world (poll_cycle config remote sched w)))).
  rewrite (length_by_kind (event_queue w)).
  rewrite !(poll_cycle_kind_length sched w) by exact Hc.
  rewrite (poll_cycle_no_farming sched w Hc).
  cbn [List.filter].
  destruct (succeeded (fst (exec remote (fetch config wallet_balance) w)));
    destruct (succeeded (fst (exec remote (fetch config harvester_plots) w)));
    destruct (succeeded (fst (exec remote (fetch config blockchain_state) w)));
    destruct (succeeded (fst (exec remote (fetch config connections) w)));
    cbn [length]; lia.
Qed.

End CycleOutcomes.

(** ** The timestamps of a poll cycle *)

Section StampFacts.

Context {A : Type}.

Lemma stamps_later (lo u u' : datetime) (c : coro A) :
  u <= u' -> stamps lo u c -> stamps lo u' c.
Proof.
  revert u u'.
  induction c as [a|e|X rq k IH|k IH|ev k IH|line k IH]; simpl; intros u u' Hu; eauto.
  - intros H t Ht. apply H. lia.
  - intros [Hev Hk]. split; [lia|eauto].
Qed.

Lemma stamps_bind {B} (lo u : datetime) (c : coro A) (f : A -> coro B) :
  stamps lo u c -> (forall a u', u <= u' -> stamps lo u' (f a)) ->
  stamps lo u (Asyncio.bind c f).
Proof.
  revert u.
  induction c as [a|e|X rq k IH|k IH|ev k IH|line k IH]; simpl; intros u Hc Hf; eauto.
  - apply Hf. lia.
  - intros t Ht. apply IH; [auto|]. intros a u' Hu'. apply Hf. lia.
  - destruct Hc as [Hev Hk]. split; [exact Hev|auto].
Qed.

Lemma stamps_try_except (lo u : datetime) (c : coro A) (h : exn -> coro A) :
  stamps lo u c -> (forall e u', u <= u' -> stamps lo u' (h e)) ->
  stamps lo u (try_except c h).
Proof.
  revert u.
  induction c as [a|e|X rq k IH|k IH|ev k IH|line k IH]; simpl; intros u Hc Hh; eauto.
  - apply Hh. lia.
  - intros t Ht. apply IH; [auto|]. intros e u' Hu'. apply Hh. lia.
  - destruct Hc as [Hev Hk]. split; [exact Hev|auto].
Qed.

(** A coroutine that puts nothing stamps nothing. *)
Lemma stamps_silent (lo u : datetime) (c : coro A) :
  puts_only (fun _ => false) c -> stamps lo u c.
Proof.
  revert u.
  induction c as [a|e|X rq k IH|k IH|ev k IH|line k IH]; simpl; intros u H; auto.
  destruct H as [H _]. discriminate H.
Qed.

End StampFacts.

Section FetchStamps.

Import RpcCollector.

Variable config : Config.

Lemma stamps_wallet_balances (lo u : datetime) (wallets : list Wallet) (acc : list Z) :
  stamps lo u (wallet_balances wallets acc).
Proof.
  revert acc. induction wallets as [|wallet rest IH]; intros acc; simpl; [exact I|].
  intros [b|e]; simpl; [apply IH|exact I].
Qed.

Lemma stamps_get_plots (lo u : datetime) (port : option Z) (host : option string) :
  stamps lo u (get_plots config port host).
Proof. apply stamps_silent, puts_only_get_plots. Qed.

Lemma stamps_all_plots_loop (lo u : datetime) (port : option Z) (hosts : list string)
                            (acc : option PlotsResponse) :
  stamps lo u (all_plots_loop config port hosts acc).
Proof.
  revert u acc. induction hosts as [|host rest IH]; intros u acc; cbn [all_plots_loop].
  - exact I.
  - apply stamps_bind; [apply stamps_get_plots|]. intros plots u' _. apply IH.
Qed.

Lemma stamps_get_harvesters (lo u : datetime) (port : option Z) :
  stamps lo u (get_harvesters config port).
Proof. apply stamps_silent, puts_only_get_harvesters. Qed.

(** Each fetch stamps its event with a reading of the clock that it
    takes itself. *)
Lemma stamps_fetch (lo u : datetime) (m : metric) : lo <= u -> stamps lo u (fetch config m).
Proof.
  intros Hlo. destruct m; cbn [fetch].
  - unfold get_wallet_balance. apply stamps_bind.
    + apply stamps_try_except; [|intros e u' _; exact I].
      apply stamps_bind; [intros [ws|e]; exact I|].
      intros ws u' _. apply stamps_wallet_balances.
    + intros bs u' Hu'. simpl. intros t Ht. simpl. split; [lia|exact I].
  - unfold get_harvester_plots. apply stamps_bind.
    + apply stamps_try_except; [|intros e u' _; exact I].
      apply stamps_bind; [apply stamps_get_harvesters|].
      intros hs u' _. apply stamps_all_plots_loop.
    + intros plots u' Hu'. simpl. intros t Ht.
      destruct plots; simpl; [split; [lia|exact I]|exact I].
  - unfold get_blockchain_state. apply stamps_bind.
    + apply stamps_try_except; [intros [st|e]; exact I|intros e u' _; exact I].
    + intros st u' Hu'. simpl. intros t Ht.
      destruct (state_peak st); simpl; [split; [lia|exact I]|exact I].
  - unfold get_connections. apply stamps_bind; [intros [ps|e]; exact I|].
    intros peers u' Hu'. simpl. intros t Ht. simpl. split; [lia|exact I].
Qed.

End FetchStamps.

Section RunStamps.

Variable remote : Remote.
Variable lo : datetime.
Variable q0 : list ChiaEvent.

Lemma step_on_time (g : Gather) (turn : slot * timedelta) :
  0 <= snd turn -> on_time lo q0 g ->
  on_time lo q0 (step remote g turn) /\ clock (world g) <= clock (world (step remote g turn)).
Proof.
  destruct turn as [s d]. cbn [snd]. intros Hd [Hch (new & Hq & Hnew)].
  assert (Hch' : forall s', match children g s' with
                            | Pending c => stamps lo (clock (world g) + d) c
                            | Finished _ => True
                            end).
  { intros s'. specialize (Hch s'). destruct (children g s'); [|exact I].
    eapply stamps_later; [|exact Hch]. lia. }
  assert (Hnew' : Forall (fun ev => lo <= ts ev <= clock (world g) + d) new).
  { eapply Forall_impl; [exact Hnew|]. simpl. intros ev ?. lia. }
  unfold step. destruct (children g s) as [c|r] eqn:Hs.
  2:{ split; [|simpl; lia]. split; [exact Hch'|]. exists new. simpl. auto. }
  pose proof (Hch' s) as Hc. rewrite Hs in Hc.
  assert (Hset : forall (t : task_state) (w' : World),
             clock w' = clock (world g) + d ->
             match t with Pending c' => stamps lo (clock (world g) + d) c' | Finished _ => True end ->
             forall s', match set_child s t (children g) s' with
                        | Pending c' => stamps lo (clock w') c'
                        | Finished _ => True
                        end).
  { intros t w' Hw' Ht s'. rewrite Hw'. unfold set_child.
    case_decide; [exact Ht|apply Hch']. }
  destruct c as [a|e|X rq k|k|ev k|line k]; cbn [step_task]; (split; [|simpl; lia]).
  - split; [apply Hset; [reflexivity|exact I]|]. exists new. simpl. auto.
  - split; [apply Hset; [reflexivity|exact I]|]. exists new. simpl. auto.
  - split; [apply Hset; [reflexivity|apply Hc]|]. exists new. simpl. auto.
  - split; [apply Hset; [reflexivity|]|].
    + simpl. simpl in Hc. apply Hc. lia.
    + exists new. simpl. auto.
  - destruct Hc as [Hev Hk].
    split; [apply Hset; [reflexivity|exact Hk]|].
    exists (new ++ [ev]). simpl. rewrite Hq, <- app_assoc. split; [reflexivity|].
    apply Forall_app. split; [exact Hnew'|]. constructor; [exact Hev|constructor].
  - split; [apply Hset; [reflexivity|exact Hc]|]. exists new. simpl. auto.
Qed.

Lemma run_on_time (sched : schedule) (g : Gather) :
  Forall (fun turn => 0 <= snd turn) sched -> on_time lo q0 g ->
  on_time lo q0 (run remote g sched) /\ clock (world g) <= clock (world (run remote g sched)).
Proof.
  intros Hs. revert g. induction Hs as [|turn sched Hd _ IH]; intros g Hg; [split; [exact Hg|simpl; lia]|].
  change (run remote g (turn :: sched)) with (run remote (step remote g turn) sched).
  destruct (step_on_time g turn Hd Hg) as [Hg' Hc].
  destruct (IH _ Hg') as [Hg'' Hc']. split; [exact Hg''|lia].
Qed.

End RunStamps.

(** ** The timestamps of the run loop *)

Section LoopStamps.

Import RpcCollector.

Variable config : Config.

Lemma poll_cycle_on_time (remote : Remote) (sched : schedule) (w : World) :
  forward sched ->
  clock w <= clock (world (poll_cycle config remote sched w)) /\
  exists new,
    event_queue (world (poll_cycle config remote sched w)) = event_queue w ++ new /\
    Forall (fun ev => clock w <= ts ev <= clock (world (poll_cycle config remote sched w))) new.
Proof.
  intros Hf. unfold poll_cycle.
  destruct (run_on_time remote (clock w) (event_queue w) sched
              (gather get_wallet_balance (get_harvester_plots config) get_blockchain_state
                      get_connections w) Hf) as [[_ Hnew] Hclock].
  - split.
    + intros s. simpl. pose proof (stamps_fetch config (clock w) (clock w) s) as H.
      destruct s; apply H; lia.
    + exists []. simpl. rewrite app_nil_r. split; [reflexivity|constructor].
  - split; [exact Hclock|exact Hnew].
Qed.

(** X9.  Every event that a poll cycle adds to the queue carries a
    timestamp that was read during that cycle: with a clock that does not
    go back, it lies between the clock at the start of the cycle and the
    clock at its end, whatever the services answer and however the tasks
    are interleaved; and the events that were on the queue stay there, in
    their order. *)
Theorem poll_cycle_stamps_within_the_cycle (remote : Remote) (sched : schedule) (w : World) :
  forward sched ->
  exists new,
    event_queue (world (poll_cycle config remote sched w)) = event_queue w ++ new /\
    Forall (fun ev => clock w <= ts ev <= clock (world (poll_cycle config remote sched w))) new.
Proof. intros Hf. apply poll_cycle_on_time. exact Hf. Qed.

Lemma filter_short_ascending (m : metric) (l : list ChiaEvent) :
  (length (List.filter (event_of m) l) <= 1)%nat -> ascending (List.filter (event_of m) l).
Proof.
  unfold ascending. destruct (List.filter (event_of m) l) as [|a [|b rest]]; simpl; intros H.
  - constructor.
  - repeat constructor.
  - lia.
Qed.

(** What [task] adds to the queue: for each metric, events in the order
    of their timestamps. *)
Lemma task_ascending (plan : list (Remote * schedule)) :
  punctual config plan ->
  forall (cycle : nat) (w : World),
  exists new,
    event_queue (snd (task config cycle plan w)) = event_queue w ++ new /\
    Forall (fun ev => clock w <= ts ev) new /\
    forall m, ascending (List.filter (event_of m) new).
Proof.
  induction 1 as [|[remote sched] rest [Hf Hturns] _ IH]; intros cycle w; cbn [task].
  { exists []. rewrite app_nil_r. repeat split; [constructor|]. intros m. constructor. }
  cbn [fst snd] in Hf, Hturns.
  destruct (poll_cycle_on_time remote sched w Hf) as [Hclock (new1 & Hq1 & Hnew1)].
  assert (Hone : forall m, (length (List.filter (event_of m) new1) <= 1)%nat).
  { intros m.
    pose proof (poll_cycle_kind_length config remote sched w m (fun m' => Hturns (clock w) m'))
      as Hlen.
    rewrite Hq1, List.filter_app, length_app in Hlen.
    destruct (succeeded _) in Hlen; lia. }
  assert (Hstop : exists new,
             event_queue (world (poll_cycle config remote sched w)) = event_queue w ++ new /\
             Forall (fun ev => clock w <= ts ev) new /\
             forall m, ascending (List.filter (event_of m) new)).
  { exists new1. split; [exact Hq1|]. split.
    - eapply Forall_impl; [exact Hnew1|]. simpl. intros ev ?. lia.
    - intros m. apply filter_short_ascending, Hone. }
  destruct (outcome (poll_cycle config remote sched w)) as [[[]|e]|]; [|exact Hstop..].
  destruct (IH (S cycle) (elapse (seconds 10) (world (poll_cycle config remote sched w))))
    as (new2 & Hq2 & Hnew2 & Hasc2).
  cbn [elapse event_queue clock] in Hq2, Hnew2.
  exists (new1 ++ new2). rewrite Hq2, Hq1, <- app_assoc. split; [reflexivity|]. split.
  - apply Forall_app. split.
    + eapply Forall_impl; [exact Hnew1|]. simpl. intros ev ?. lia.
    + eapply Forall_impl; [exact Hnew2|]. simpl. intros ev ?. unfold seconds in *. lia.
  - intros m. rewrite List.filter_app. unfold ascending.
    apply StronglySorted_app_2.
    + intros a b Ha Hb.
      apply list_elem_of_In, List.filter_In in Ha. destruct Ha as [Ha _].
      apply list_elem_of_In, List.filter_In in Hb. destruct Hb as [Hb _].
      rewrite Forall_forall in Hnew1, Hnew2.
      apply list_elem_of_In in Ha, Hb.
      specialize (Hnew1 a Ha). specialize (Hnew2 b Hb). unfold seconds in *. lia.
    + apply filter_short_ascending, Hone.
    + apply Hasc2.
Qed.

(** X10.  Let [task] run any number of poll cycles, each run to its end,
    with a clock that does not go back.  Then, for each metric, the
    events it has added to the queue are in the order of their
    timestamps, each stamped later than the one before: there is at most
    one per cycle, and the cycles are ten seconds apart. *)
Theorem task_publishes_in_timestamp_order
    (plan : list (Remote * schedule)) (cycle : nat) (w : World) :
  punctual config plan ->
  exists new,
    event_queue (snd (task config cycle plan w)) = event_queue w ++ new /\
    Forall (fun ev => clock w <= ts ev) new /\
    forall m, ascending (List.filter (event_of m) new).
Proof. intros Hp. apply task_ascending. exact Hp. Qed.

End LoopStamps.

(** ** From the run loop to the summary *)

Section LastPublished.

Context {E : Type} (ts : E -> datetime).

(** In rows stamped one later than the other the last row is the latest:
    every other row is stamped earlier. *)
Lemma ascending_last (rows : list E) (l : E) :
  StronglySorted (fun a b => ts a < ts b) rows -> last rows = Some l ->
  forall x, x ∈ rows -> x = l \/ ts x < ts l.
Proof.
  induction 1 as [|a rest Hsorted IH Hall]; intros Hlast x Hx; [inversion Hx|].
  destruct rest as [|b rest'].
  - simpl in Hlast. injection Hlast as <-. apply list_elem_of_singleton in Hx. auto.
  - rewrite last_cons_cons in Hlast.
    apply elem_of_cons in Hx. destruct Hx as [->|Hx]; [|apply IH; assumption].
    right. apply last_Some_elem_of in Hlast.
    rewrite Forall_forall in Hall. apply Hall. exact Hlast.
Qed.

Lemma latest_of_ascending (rows rows' : list E) :
  StronglySorted (fun a b => ts a < ts b) rows -> rows' ≡ₚ rows ->
  latest ts rows' = last rows.
Proof.
  intros Hsorted Hperm. pose proof (latest_spec ts rows') as H.
  destruct (latest ts rows') as [e|].
  - destruct H as [He Hmax]. rewrite Hperm in He.
    destruct (last rows) as [l|] eqn:Hlast.
    + destruct (ascending_last rows l Hsorted Hlast e He) as [->|Hlt]; [reflexivity|].
      assert (Hl : l ∈ rows') by (rewrite Hperm; eapply last_Some_elem_of; exact Hlast).
      specialize (Hmax l Hl). lia.
    + apply last_None in Hlast. subst rows. inversion He.
  - subst rows'. symmetry in Hperm. apply Permutation_nil_r in Hperm. subst rows. reflexivity.
Qed.

End LastPublished.

Section SummaryReadsLast.

Import RpcCollector.

Variable config : Config.

Lemma wallet_rows_filter (events : list ChiaEvent) :
  List.filter (event_of wallet_balance) events = EvWalletBalance <$> wallet_rows events.
Proof.
  induction events as [|ev events IH]; [reflexivity|].
  unfold wallet_rows in *. destruct ev; simpl; rewrite IH; reflexivity.
Qed.

Lemma wallet_rows_ascending (events : list ChiaEvent) :
  ascending (List.filter (event_of wallet_balance) events) ->
  StronglySorted (fun a b => wb_ts a < wb_ts b) (wallet_rows events).
Proof.
  rewrite wallet_rows_filter. unfold ascending.
  induction (wallet_rows events) as [|e rows IH]; intros H; [constructor|].
  rewrite fmap_cons in H. apply StronglySorted_inv in H. destruct H as [Hrest Hall].
  constructor; [apply IH; exact Hrest|].
  rewrite Forall_fmap in Hall. exact Hall.
Qed.

(** X11.  Let [task] start with an empty queue and run any number of
    poll cycles, each to its end, with a clock that does not go back.
    Then the query of [trigger()] for the latest wallet balance, asked on
    the wallet balances that [task] has published, in whatever order they
    reached the table, finds the one that was published last, and finds
    nothing only when none was published. *)
Theorem summary_reads_the_last_published_balance
    (plan : list (Remote * schedule)) (cycle : nat) (w : World)
    (rows : list WalletBalanceEvent) :
  punctual config plan ->
  event_queue w = [] ->
  rows ≡ₚ wallet_rows (event_queue (snd (task config cycle plan w))) ->
  latest wb_ts rows = last (wallet_rows (event_queue (snd (task config cycle plan w)))).
Proof.
  intros Hp Hempty Hperm.
  destruct (task_ascending config plan Hp cycle w) as (new & Hq & _ & Hasc).
  rewrite Hempty in Hq. simpl in Hq. rewrite Hq in *.
  apply latest_of_ascending; [|exact Hperm].
  apply wallet_rows_ascending. apply (Hasc wallet_balance).
Qed.

End SummaryReadsLast.

(** * More about the summary rule *)

Section TriggerOutcomes.

Import SummaryNotification.

Variable format_plot_count : Z -> string.
Variable format_balance : Z -> string.
Variable format_space : Z -> string.
Variable format_peak_height : string -> string.
Variable format_full_node_count : Z -> string.
Variable format_synced : bool -> string.
Variable format_proofs : Z -> string.

Abbreviation trigger :=
  (trigger format_plot_count format_balance format_space format_peak_height
           format_full_node_count format_synced format_proofs).
Abbreviation summary_of :=
  (summary_of format_plot_count format_balance format_space format_peak_height
              format_full_node_count format_synced format_proofs).

Lemma tick_db_up (p p' : Process) : tick p = (Ok tt, p') -> db_up p' = db_up p.
Proof.
  unfold tick. destruct (passing p); intros [= <-]; reflexivity.
Qed.

(** A query that the store answers. *)
Lemma execute_up {A} (query : Store -> A) (n : nat) (p : Process) :
  reachable (S n) p ->
  exists p', execute query p = (Ok (query (db p)), p') /\ steady p p' /\ reachable n p'.
Proof.
  intros Hup. unfold execute. destruct (tick_spec p) as (p1 & Ht & Hs).
  rewrite (bind_Ok _ _ _ _ _ Ht).
  pose proof (tick_db_up p p1 Ht) as Hdb.
  assert (Hq : db p1 = db p) by apply Hs.
  unfold reachable in *. rewrite <- Hdb in Hup.
  destruct (db_up p1) as [|up rest] eqn:Hrest.
  - exists p1. rewrite Hq. split; [reflexivity|]. split; [exact Hs|].
    rewrite Hrest. rewrite take_nil. constructor.
  - simpl in Hup. apply Forall_cons in Hup. destruct Hup as [-> Hup].
    eexists. split; [rewrite <- Hq; reflexivity|]. split; [|exact Hup].
    eapply steady_trans; [exact Hs|]. split; [apply later_step|..]; reflexivity.
Qed.

(** How [trigger] ends when the store answers its five queries. *)
Lemma trigger_reachable (self : nat) (p : Process) :
  reachable 5 p ->
  exists p5,
    steady p p5 /\
    if complete (db p) then
      match summary_of (db p) with
      | Some summary =>
          exists pn ps,
            notify farm_status_title summary p5 = (Ok tt, pn) /\
            datetime_now pn = (Ok (time ps), ps) /\
            trigger self p = (Ok tt, stamped self (time ps) ps)
      | None => exists msg, trigger self p = (Raised (ValueError msg), p5)
      end
    else trigger self p = (Ok tt, p5).
Proof.
  intros Hup.
  destruct (execute_up (fun s => latest hp_ts (harvester_plots_events s)) 4 p Hup)
    as (p1 & E1 & Hs1 & Hup1).
  destruct (execute_up (fun s => latest bs_ts (blockchain_state_events s)) 3 p1 Hup1)
    as (p2 & E2 & Hs2 & Hup2).
  destruct (execute_up (fun s => latest wb_ts (wallet_balance_events s)) 2 p2 Hup2)
    as (p3 & E3 & Hs3 & Hup3).
  destruct (execute_up (fun s => latest cn_ts (connections_events s)) 1 p3 Hup3)
    as (p4 & E4 & Hs4 & Hup4).
  destruct (execute_up (fun s => func_sum proofs (farming_info_events s)) 0 p4 Hup4)
    as (p5 & E5 & Hs5 & _).
  pose proof (steady_trans _ _ _ Hs1 Hs2) as H12.
  pose proof (steady_trans _ _ _ H12 Hs3) as H13.
  pose proof (steady_trans _ _ _ H13 Hs4) as H14.
  pose proof (steady_trans _ _ _ H14 Hs5) as H15.
  rewrite (later_db _ _ (steady_later _ _ Hs1)) in E2.
  rewrite (later_db _ _ (steady_later _ _ H12)) in E3.
  rewrite (later_db _ _ (steady_later _ _ H13)) in E4.
  rewrite (later_db _ _ (steady_later _ _ H14)) in E5.
  exists p5. split; [exact H15|].
  remember (trigger self p) as out eqn:H.
  unfold SummaryNotification.trigger in H.
  rewrite (bind_Ok _ _ _ _ _ E1), (bind_Ok _ _ _ _ _ E2), (bind_Ok _ _ _ _ _ E3),
    (bind_Ok _ _ _ _ _ E4), (bind_Ok _ _ _ _ _ E5) in H.
  unfold complete, summary_of.
  destruct (latest hp_ts (harvester_plots_events (db p))) as [last_plots|]; [|repeat case_match; try discriminate; exact H].
  destruct (latest wb_ts (wallet_balance_events (db p))) as [last_balance|]; [|repeat case_match; try discriminate; exact H].
  destruct (latest bs_ts (blockchain_state_events (db p))) as [last_state|]; [|repeat case_match; try discriminate; exact H].
  destruct (latest cn_ts (connections_events (db p))) as [last_connections|]; [|repeat case_match; try discriminate; exact H].
  destruct (func_sum proofs (farming_info_events (db p))) as [proofs_found|]; [|repeat case_match; try discriminate; exact H].
  unfold int_of in H.
  destruct (int (confirmed last_balance)) as [balance|]; [|eexists; exact H].
  unfold bind at 1, ret at 1 in H.
  destruct (int (space last_state)) as [space_|]; [|eexists; exact H].
  unfold bind at 1, ret at 1 in H.
  match type of H with
  | _ = bind (notify ?t ?b) _ _ => destruct (notify_spec t b p5) as (pn & Hn & _)
  end.
  destruct (datetime_now_spec pn) as (ps & Hnow & _).
  exists pn, ps. split; [exact Hn|]. split; [exact Hnow|].
  rewrite (bind_Ok _ _ _ _ _ Hn), (bind_Ok _ _ _ _ _ Hnow) in H.
  destruct (stamped_spec self (time ps) ps) as [Hset _]. rewrite Hset in H. exact H.
Qed.

Lemma summary_of_complete (s : Store) (summary : string) :
  summary_of s = Some summary -> complete s = true.
Proof.
  unfold summary_of, complete. intros H.
  repeat case_match; try discriminate; reflexivity.
Qed.

(** X12.  When the store answers and holds an event of every kind with
    readable numbers, [trigger] succeeds, calls [notify] exactly once,
    with the title of the farm status and the seven formatted lines
    joined by newlines as body, and then stamps the rule with the time
    read after the notification: the stamp is the clock at the end, and
    the notification is not later than it. *)
Theorem trigger_sends_the_summary (self : nat) (p : Process) (summary : string) :
  reachable 5 p ->
  summary_of (db p) = Some summary ->
  exists sent,
    fst (trigger self p) = Ok tt /\
    notified (snd (trigger self p)) =
      {| sent_at := sent; title := farm_status_title; body := summary |} :: notified p /\
    observed_last_summary_ts self (snd (trigger self p)) = time (snd (trigger self p)) /\
    (monotone p -> time p <= sent <= time (snd (trigger self p))).
Proof.
  intros Hup Hsum.
  destruct (trigger_reachable self p Hup) as (p5 & Hs & H).
  rewrite (summary_of_complete _ _ Hsum), Hsum in H.
  destruct H as (pn & ps & Hn & Hnow & ->).
  destruct (notify_spec farm_status_title summary p5) as (pn' & Hn' & Hln & Hon & Hnn).
  rewrite Hn in Hn'. injection Hn' as <-.
  destruct (datetime_now_spec pn) as (ps' & Hnow' & Hss).
  rewrite Hnow in Hnow'. injection Hnow' as _ <-.
  destruct (stamped_spec self (time ps) ps) as (_ & Hlset & Hobs & Hoset & Hnset).
  exists (time pn). cbn [fst snd]. split; [reflexivity|]. split; [|split].
  - rewrite Hnset. destruct Hss as [_ _ ->]. rewrite Hnn.
    destruct Hs as [_ _ ->]. reflexivity.
  - rewrite Hobs. apply observed_stamped.
  - intros Hm.
    destruct (later_time _ _ (steady_later _ _ Hs) Hm) as [H1 Hm5].
    destruct (later_time _ _ Hln Hm5) as [H2 Hmn].
    destruct (later_time _ _ (steady_later _ _ Hss) Hmn) as [H3 _].
    assert (Ht : time (stamped self (time ps) ps) = time ps) by reflexivity.
    rewrite Ht. lia.
Qed.

(** X13.  When the store answers and holds an event of every kind, but
    the confirmed balance or the netspace of the latest event is a string
    of ASCII characters that does not read as a number, [trigger] raises
    [ValueError]: nothing is sent and the rule is not stamped. *)
Theorem trigger_unreadable_number (self : nat) (p : Process)
    (last_balance : WalletBalanceEvent) (last_state : BlockchainStateEvent) :
  reachable 5 p ->
  complete (db p) = true ->
  latest wb_ts (wallet_balance_events (db p)) = Some last_balance ->
  latest bs_ts (blockchain_state_events (db p)) = Some last_state ->
  (ascii_only (confirmed last_balance) = true /\ int (confirmed last_balance) = None) \/
  (ascii_only (space last_state) = true /\ int (space last_state) = None) ->
  (exists msg, fst (trigger self p) = Raised (ValueError msg)) /\
  notified (snd (trigger self p)) = notified p /\
  own_last_summary_ts (snd (trigger self p)) = own_last_summary_ts p.
Proof.
  intros Hup Hc Hb Hst Hbad.
  destruct (trigger_reachable self p Hup) as (p5 & Hs & H).
  rewrite Hc in H.
  assert (Hnone : summary_of (db p) = None).
  { unfold summary_of. rewrite Hb, Hst.
    destruct Hbad as [[_ ->] | [_ ->]]; repeat case_match; reflexivity. }
  rewrite Hnone in H. destruct H as (msg & ->). cbn [fst snd].
  split; [exists msg; reflexivity|]. split; apply Hs.
Qed.

End TriggerOutcomes.

(** ** The lookups of [trigger] *)

Section LookupClaims.

Import SummaryNotification.

Variable format_plot_count : Z -> string.
Variable format_balance : Z -> string.
Variable format_space : Z -> string.
Variable format_peak_height : string -> string.
Variable format_full_node_count : Z -> string.
Variable format_synced : bool -> string.
Variable format_proofs : Z -> string.

Abbreviation trigger :=
  (trigger format_plot_count format_balance format_space format_peak_height
           format_full_node_count format_synced format_proofs).
Abbreviation summarise :=
  (summarise format_plot_count format_balance format_space format_peak_height
             format_full_node_count format_synced format_proofs).

(** [trigger] is its five lookups followed by the rest. *)
Lemma trigger_lookups (self : nat) (p : Process) :
  trigger self p = bind lookups (summarise self) p.
Proof.
  unfold SummaryNotification.trigger, lookups, bind.
  destruct (execute (fun s => latest hp_ts (harvester_plots_events s)) p)
    as [[last_plots|e] p1]; [|reflexivity].
  destruct (execute (fun s => latest bs_ts (blockchain_state_events s)) p1)
    as [[last_state|e] p2]; [|reflexivity].
  destruct (execute (fun s => latest wb_ts (wallet_balance_events s)) p2)
    as [[last_balance|e] p3]; [|reflexivity].
  destruct (execute (fun s => latest cn_ts (connections_events s)) p3)
    as [[last_connections|e] p4]; [|reflexivity].
  destruct (execute (fun s => func_sum proofs (farming_info_events s)) p4)
    as [[proofs_found|e] p5]; reflexivity.
Qed.

(** What the lookups find when the store answers. *)
Lemma lookups_reachable (p : Process) :
  reachable 5 p ->
  exists p',
    steady p p' /\
    lookups p = (Ok (latest hp_ts (harvester_plots_events (db p)),
                     latest bs_ts (blockchain_state_events (db p)),
                     latest wb_ts (wallet_balance_events (db p)),
                     latest cn_ts (connections_events (db p)),
                     func_sum proofs (farming_info_events (db p))), p').
Proof.
  intros Hup.
  destruct (execute_up (fun s => latest hp_ts (harvester_plots_events s)) 4 p Hup)
    as (p1 & E1 & Hs1 & Hup1).
  destruct (execute_up (fun s => latest bs_ts (blockchain_state_events s)) 3 p1 Hup1)
    as (p2 & E2 & Hs2 & Hup2).
  destruct (execute_up (fun s => latest wb_ts (wallet_balance_events s)) 2 p2 Hup2)
    as (p3 & E3 & Hs3 & Hup3).
  destruct (execute_up (fun s => latest cn_ts (connections_events s)) 1 p3 Hup3)
    as (p4 & E4 & Hs4 & Hup4).
  destruct (execute_up (fun s => func_sum proofs (farming_info_events s)) 0 p4 Hup4)
    as (p5 & E5 & Hs5 & _).
  pose proof (steady_trans _ _ _ Hs1 Hs2) as H12.
  pose proof (steady_trans _ _ _ H12 Hs3) as H13.
  pose proof (steady_trans _ _ _ H13 Hs4) as H14.
  pose proof (steady_trans _ _ _ H14 Hs5) as H15.
  rewrite (later_db _ _ (steady_later _ _ Hs1)) in E2.
  rewrite (later_db _ _ (steady_later _ _ H12)) in E3.
  rewrite (later_db _ _ (steady_later _ _ H13)) in E4.
  rewrite (later_db _ _ (steady_later _ _ H14)) in E5.
  exists p5. split; [exact H15|]. unfold lookups.
  rewrite (bind_Ok _ _ _ _ _ E1), (bind_Ok _ _ _ _ _ E2), (bind_Ok _ _ _ _ _ E3),
    (bind_Ok _ _ _ _ _ E4), (bind_Ok _ _ _ _ _ E5).
  reflexivity.
Qed.

(** C7.  [trigger] is its five lookups followed by the rest of it, and
    when the store answers, the four latest-event lookups find, each in
    the table of its own kind, what [latest] finds there, and the rest
    of [trigger] runs on just that.  Whatever a table holds, [latest]
    finds a row of the table with the greatest [ts], and nothing only when
    the table is empty; the order in which the rows arrived changes
    neither that [ts] nor, with pairwise distinct timestamps, the row.
    After a cycle that published a wallet balance of 100, one that
    published 150 and one in which the wallet did not answer, the wallet
    balance that the lookup of [trigger] finds is the one of 150, in
    whatever order the store holds the rows. *)
Theorem latest_is_the_most_recent :
  (forall (self : nat) (p : Process), trigger self p = bind lookups (summarise self) p) /\
  (forall (self : nat) (p : Process),
     reachable 5 p ->
     exists p',
       steady p p' /\
       lookups p = (Ok (latest hp_ts (harvester_plots_events (db p)),
                        latest bs_ts (blockchain_state_events (db p)),
                        latest wb_ts (wallet_balance_events (db p)),
                        latest cn_ts (connections_events (db p)),
                        func_sum proofs (farming_info_events (db p))), p') /\
       trigger self p
       = summarise self (latest hp_ts (harvester_plots_events (db p)),
                         latest bs_ts (blockchain_state_events (db p)),
                         latest wb_ts (wallet_balance_events (db p)),
                         latest cn_ts (connections_events (db p)),
                         func_sum proofs (farming_info_events (db p))) p') /\
  (forall (E : Type) (ts : E -> datetime) (rows : list E),
     match latest ts rows with
     | None => rows = []
     | Some e => e ∈ rows /\ forall e', e' ∈ rows -> ts e' <= ts e
     end) /\
  (forall (E : Type) (ts : E -> datetime) (rows rows' : list E),
     rows ≡ₚ rows' ->
     ts <$> latest ts rows = ts <$> latest ts rows' /\
     (NoDup (ts <$> rows) -> latest ts rows = latest ts rows')) /\
  (confirmed <$> wallet_balance_events Farm.stored = ["100"; "150"] /\
   forall p : Process,
     wallet_balance_events (db p) ≡ₚ wallet_balance_events Farm.stored ->
     reachable 5 p ->
     exists last_plots last_state last_balance last_connections proofs_found p',
       lookups p = (Ok (last_plots, last_state, Some last_balance, last_connections,
                        proofs_found), p') /\
       confirmed last_balance = "150") /\
  (forall t1 t2 : datetime,
     t1 < t2 ->
     let first := {| wb_ts := t1; confirmed := "100" |} in
     let second := {| wb_ts := t2; confirmed := "150" |} in
     latest wb_ts [first; second] = Some second /\ latest wb_ts [second; first] = Some second).
Proof.
  split; [exact trigger_lookups|].
  split.
  { intros self p Hup. destruct (lookups_reachable p Hup) as (p' & Hs & Hl).
    exists p'. split; [exact Hs|]. split; [exact Hl|].
    rewrite trigger_lookups. apply (bind_Ok _ _ _ _ _ Hl). }
  split; [intros E ts rows; apply latest_spec|].
  split; [intros E ts rows rows'; apply latest_Permutation|].
  split.
  { split; [vm_compute; reflexivity|].
    intros p Hperm Hup. destruct (lookups_reachable p Hup) as (p' & _ & Hl).
    destruct (latest_Permutation wb_ts _ _ Hperm) as [_ Hsame].
    assert (Hnd : NoDup (wb_ts <$> wallet_balance_events (db p))).
    { rewrite Hperm. refine (bool_decide_unpack _ _). vm_compute. exact I. }
    specialize (Hsame Hnd).
    assert (Hlast : confirmed <$> latest wb_ts (wallet_balance_events Farm.stored)
                    = Some "150")
      by (vm_compute; reflexivity).
    rewrite Hsame in Hl.
    destruct (latest wb_ts (wallet_balance_events Farm.stored)) as [last_balance|];
      [|discriminate Hlast].
    injection Hlast as Hlast.
    eexists _, _, _, _, _, p'. split; [exact Hl|exact Hlast]. }
  intros t1 t2 Hlt first second.
  assert (Hmax : forall rows, rows ≡ₚ [first; second] -> latest wb_ts rows = Some second).
  { intros rows Hperm. pose proof (latest_spec wb_ts rows) as H.
    destruct (latest wb_ts rows) as [e|].
    - destruct H as [He Hmax]. rewrite Hperm in He.
      assert (Hsecond : wb_ts second <= wb_ts e) by (apply Hmax; rewrite Hperm; do 2 constructor).
      apply elem_of_cons in He. destruct He as [->|He]; [simpl in Hsecond; lia|].
      apply list_elem_of_singleton in He. congruence.
    - subst rows. symmetry in Hperm. apply Permutation_nil_r in Hperm. discriminate. }
  split; apply Hmax; [reflexivity|apply Permutation_swap].
Qed.

End LookupClaims.

(** The store after the three cycles, as a rule finds it: the lookup of
    the latest wallet balance gives the one of 150, also when the store
    holds the rows the other way round. *)
Lemma latest_is_the_most_recent_witness :
  exists last_plots last_state last_balance last_connections proofs_found p',
    lookups
      (Office.imported [1; 1; 1; 1; 1]
         {| wallet_balance_events := reverse (wallet_balance_events Farm.stored);
            harvester_plots_events := harvester_plots_events Farm.stored;
            blockchain_state_events := blockchain_state_events Farm.stored;
            connections_events := connections_events Farm.stored;
            farming_info_events := farming_info_events Farm.stored |} [])
    = (Ok (last_plots, last_state, Some last_balance, last_connections, proofs_found), p') /\
    confirmed last_balance = "150".
Proof.
  apply (proj2 (proj1 (proj2 (proj2 (proj2 (proj2
           (latest_is_the_most_recent Office.format_plot_count Office.format_balance
              Office.format_space Office.format_peak_height Office.format_full_node_count
              Office.format_synced Office.format_proofs))))))).
  - apply reverse_Permutation.
  - constructor.
Defined.

(** ** What the collector publishes can be read back *)

Section Readable.

Import RpcCollector.

Variable config : Config.

Lemma puts_only_readable (m : metric) : puts_only readable (fetch config m).
Proof.
  destruct m; cbn [fetch].
  - unfold get_wallet_balance. apply puts_only_bind.
    + apply puts_only_try_except; [|intros e; exact I].
      apply puts_only_bind; [apply puts_only_await|]. intros ws. apply puts_only_wallet_balances.
    + intros bs. simpl. intros t. split; [|exact I].
      apply bool_decide_eq_true. rewrite int_str. eexists; reflexivity.
  - apply (puts_only_weaken (event_of harvester_plots));
      [|exact (puts_only_fetch config harvester_plots)].
    intros [] H; solve [reflexivity | discriminate H].
  - unfold get_blockchain_state. apply puts_only_bind.
    + apply puts_only_try_except; [apply puts_only_await|intros e; exact I].
    + intros st. simpl. intros t. destruct (state_peak st); simpl; [|exact I].
      split; [|exact I].
      apply bool_decide_eq_true. rewrite int_str. eexists; reflexivity.
  - apply (puts_only_weaken (event_of connections));
      [|exact (puts_only_fetch config connections)].
    intros [] H; solve [reflexivity | discriminate H].
Qed.

Lemma step_legible (remote : Remote) (g : Gather) (turn : slot * timedelta) :
  legible g -> legible (step remote g turn).
Proof.
  destruct turn as [s d]. intros [Hch Hq].
  unfold step. destruct (children g s) as [c|r] eqn:Hs.
  2:{ split; [exact Hch|exact Hq]. }
  pose proof (Hch s) as Hc. rewrite Hs in Hc.
  assert (Hset : forall (t : task_state),
             match t with Pending c' => puts_only readable c' | Finished _ => True end ->
             forall s', match set_child s t (children g) s' with
                        | Pending c' => puts_only readable c'
                        | Finished _ => True
                        end).
  { intros t Ht s'. unfold set_child. case_decide; [exact Ht|apply Hch]. }
  destruct c as [a|e|X rq k|k|ev k|line k]; cbn [step_task].
  - split; [apply Hset; exact I|exact Hq].
  - split; [apply Hset; exact I|exact Hq].
  - split; [apply Hset; apply Hc|exact Hq].
  - split; [apply Hset; apply Hc|exact Hq].
  - destruct Hc as [Hev Hk]. split; [apply Hset; exact Hk|].
    simpl. apply Forall_app. split; [exact Hq|]. constructor; [exact Hev|constructor].
  - split; [apply Hset; exact Hc|exact Hq].
Qed.

Lemma run_legible (remote : Remote) (sched : schedule) (g : Gather) :
  legible g -> legible (run remote g sched).
Proof.
  revert g. induction sched as [|turn sched IH]; intros g Hg; [exact Hg|].
  change (run remote g (turn :: sched)) with (run remote (step remote g turn) sched).
  apply IH, step_legible, Hg.
Qed.

Lemma poll_cycle_legible (remote : Remote) (sched : schedule) (w : World) :
  Forall (fun ev => readable ev = true) (event_queue w) ->
  Forall (fun ev => readable ev = true) (event_queue (world (poll_cycle config remote sched w))).
Proof.
  intros Hq. unfold poll_cycle. apply run_legible. split; [|exact Hq].
  intros s. simpl. pose proof (puts_only_readable s) as H. destruct s; exact H.
Qed.

(** X14.  Whatever the services answer, however the event loop
    interleaves the tasks and however long the loop runs, [task] puts
    only events on the queue whose confirmed balance and netspace read as
    numbers: the conversions of [trigger] do not fail on what the
    collector has published. *)
Theorem task_publishes_readable_numbers
    (plan : list (Remote * schedule)) (cycle : nat) (w : World) :
  Forall (fun ev => readable ev = true) (event_queue w) ->
  Forall (fun ev => readable ev = true) (event_queue (snd (task config cycle plan w))).
Proof.
  revert cycle w. induction plan as [|[remote sched] rest IH]; intros cycle w Hq; cbn [task].
  - exact Hq.
  - pose proof (poll_cycle_legible remote sched w Hq) as Hg.
    destruct (outcome (poll_cycle config remote sched w)) as [[[]|e]|]; [|exact Hg..].
    apply IH. exact Hg.
Qed.

End Readable.

(** ** The latest row after another one is stored *)

Section LatestAfterStoring.

Context {E : Type}.
Variable ts : E -> datetime.

(** X15.  Store one more row [e], at whatever place the table keeps it.
    If [e] is newer than every row there was, the lookup of the latest
    row now finds [e]; if it is not newer than the latest row there was,
    the lookup finds a row of the same timestamp as before. *)
Theorem latest_after_storing (rows rows' : list E) (e : E) :
  rows' ≡ₚ e :: rows ->
  (Forall (fun r => ts r < ts e) rows -> latest ts rows' = Some e) /\
  (forall l, latest ts rows = Some l -> ts e <= ts l ->
             ts <$> latest ts rows' = Some (ts l)).
Proof.
  intros Hperm. pose proof (latest_spec ts rows') as H.
  assert (He : e ∈ rows') by (rewrite Hperm; left).
  split.
  - intros Hnew. destruct (latest ts rows') as [x|]; [|subst rows'; inversion He].
    destruct H as [Hx Hmax]. rewrite Hperm in Hx.
    apply elem_of_cons in Hx. destruct Hx as [->|Hx]; [reflexivity|].
    rewrite Forall_forall in Hnew. specialize (Hnew x Hx). specialize (Hmax e He). lia.
  - intros l Hl Hle. pose proof (latest_spec ts rows) as H0. rewrite Hl in H0.
    destruct H0 as [Hlin Hlmax].
    destruct (latest ts rows') as [x|]; [|subst rows'; inversion He].
    destruct H as [Hx Hmax]. simpl. f_equal.
    assert (Hl' : l ∈ rows') by (rewrite Hperm; right; exact Hlin).
    specialize (Hmax l Hl'). rewrite Hperm in Hx.
    apply elem_of_cons in Hx. destruct Hx as [->|Hx]; [lia|].
    specialize (Hlmax x Hx). lia.
Qed.

End LatestAfterStoring.

(** * The clients of the collector *)

Section ClientFacts.

Import Lifecycle.

Variable uint16 : value -> result Z.
Variable refuses : service -> value -> Z -> option exn.
Variable lingers : RpcClient -> option exn.

Abbreviation create := (create uint16 refuses).
Abbreviation close := (close lingers).

(** Reading the RPC port of a service from the configuration. *)
Lemma getitem_rpc_port (d : gmap string value) (section : string) (st : Clients) :
  match rpc_port d section with
  | Some v =>
      bind (getitem (VDict d) section) (fun s => getitem s "rpc_port") st = (Returned v, st)
  | None =>
      exists e,
        bind (getitem (VDict d) section) (fun s => getitem s "rpc_port") st = (Raises e, st)
  end.
Proof.
  unfold rpc_port, bind, getitem.
  destruct (d !! section) as [[s|n|entries]|]; try (eexists; reflexivity).
  unfold ret. destruct (entries !! "rpc_port"); [reflexivity|eexists; reflexivity].
Qed.

Lemma bind_Returned {A B} (c : M A) (f : A -> M B) (st st' : Clients) (a : A) :
  c st = (Returned a, st') -> bind c f st = f a st'.
Proof. unfold bind. intros ->. reflexivity. Qed.

Lemma bind_Raises {A B} (c : M A) (f : A -> M B) (st st' : Clients) (e : error) :
  c st = (Raises e, st') -> bind c f st = (Raises e, st').
Proof. unfold bind. intros ->. reflexivity. Qed.

Lemma getitem_hostname (d : gmap string value) (st : Clients) :
  match d !! "self_hostname" with
  | Some v => getitem (VDict d) "self_hostname" st = (Returned v, st)
  | None => getitem (VDict d) "self_hostname" st = (Raises (KeyError "self_hostname"), st)
  end.
Proof. unfold getitem. destruct (d !! "self_hostname"); reflexivity. Qed.

(** X16.  [create] reads the host name and the four RPC ports from the
    configuration before it creates any client: when the configuration
    lacks one of them, [create] raises and no client has been created. *)
Theorem create_reads_the_configuration_first (d : gmap string value) (st : Clients) :
  d !! "self_hostname" = None \/
  Exists (fun section => rpc_port d section = None)
         ["full_node"; "wallet"; "harvester"; "farmer"]%string ->
  exists e, create (VDict d) st = (Raises e, st).
Proof.
  intros H. unfold Lifecycle.create.
  pose proof (getitem_hostname d st) as H0.
  destruct (d !! "self_hostname") as [host|]; [|eexists; apply bind_Raises; exact H0].
  rewrite (bind_Returned _ _ _ _ _ H0).
  destruct H as [H|H]; [discriminate H|].
  pose proof (getitem_rpc_port d "full_node" st) as H1.
  destruct (rpc_port d "full_node") as [p1|] eqn:E1;
    [|destruct H1 as [e H1]; exists e; apply bind_Raises; exact H1].
  rewrite (bind_Returned _ _ _ _ _ H1).
  pose proof (getitem_rpc_port d "wallet" st) as H2.
  destruct (rpc_port d "wallet") as [p2|] eqn:E2;
    [|destruct H2 as [e H2]; exists e; apply bind_Raises; exact H2].
  rewrite (bind_Returned _ _ _ _ _ H2).
  pose proof (getitem_rpc_port d "harvester" st) as H3.
  destruct (rpc_port d "harvester") as [p3|] eqn:E3;
    [|destruct H3 as [e H3]; exists e; apply bind_Raises; exact H3].
  rewrite (bind_Returned _ _ _ _ _ H3).
  pose proof (getitem_rpc_port d "farmer" st) as H4.
  destruct (rpc_port d "farmer") as [p4|] eqn:E4;
    [|destruct H4 as [e H4]; exists e; apply bind_Raises; exact H4].
  exfalso. repeat (apply Exists_cons in H; destruct H as [H|H]; [simpl in H; congruence|]).
  inversion H.
Qed.

(** The configuration is read. *)
Lemma create_configured (d : gmap string value) (st : Clients)
    (host p1 p2 p3 p4 : value) (k : value -> value -> value -> value -> value -> M RpcCollector) :
  d !! "self_hostname" = Some host ->
  rpc_port d "full_node" = Some p1 -> rpc_port d "wallet" = Some p2 ->
  rpc_port d "harvester" = Some p3 -> rpc_port d "farmer" = Some p4 ->
  bind (getitem (VDict d) "self_hostname") (fun self_hostname =>
  bind (bind (getitem (VDict d) "full_node") (fun s => getitem s "rpc_port")) (fun a =>
  bind (bind (getitem (VDict d) "wallet") (fun s => getitem s "rpc_port")) (fun b =>
  bind (bind (getitem (VDict d) "harvester") (fun s => getitem s "rpc_port")) (fun c =>
  bind (bind (getitem (VDict d) "farmer") (fun s => getitem s "rpc_port")) (fun e =>
  k self_hostname a b c e))))) st
  = k host p1 p2 p3 p4 st.
Proof.
  intros Hh H1 H2 H3 H4.
  pose proof (getitem_hostname d st) as G0. rewrite Hh in G0.
  pose proof (getitem_rpc_port d "full_node" st) as G1. rewrite H1 in G1.
  pose proof (getitem_rpc_port d "wallet" st) as G2. rewrite H2 in G2.
  pose proof (getitem_rpc_port d "harvester" st) as G3. rewrite H3 in G3.
  pose proof (getitem_rpc_port d "farmer" st) as G4. rewrite H4 in G4.
  rewrite (bind_Returned _ _ _ _ _ G0), (bind_Returned _ _ _ _ _ G1),
    (bind_Returned _ _ _ _ _ G2), (bind_Returned _ _ _ _ _ G3), (bind_Returned _ _ _ _ _ G4).
  reflexivity.
Qed.

(** One client is created. *)
Lemma client_created (service : service) (host p : value) (n : Z) (st : Clients) :
  uint16 p = Ok n -> refuses service host n = None ->
  bind (to_uint16 uint16 p) (fun port => RpcClient_create refuses service host port) st
  = (Returned {| serial := length (created st); kind := service; hostname := host; port := n |},
     {| created := created st
                   ++ [{| serial := length (created st); kind := service;
                          hostname := host; port := n |}];
        closed := closed st |}).
Proof.
  intros Hu Hr. unfold bind, to_uint16, RpcClient_create, ret. rewrite Hu, Hr. reflexivity.
Qed.

(** One client is not created. *)
Lemma client_refused (service : service) (host p : value) (e : exn) (st : Clients) :
  uint16 p = Raised e \/ (exists n, uint16 p = Ok n /\ refuses service host n = Some e) ->
  bind (to_uint16 uint16 p) (fun port => RpcClient_create refuses service host port) st
  = (Raises (Error e), st).
Proof.
  unfold bind, to_uint16, RpcClient_create, ret, raise.
  intros [Hu|(n & Hu & Hr)]; rewrite Hu; [reflexivity|]. rewrite Hr. reflexivity.
Qed.

(** X17.  With a configuration that names the host and the four ports,
    ports that are port numbers and services that accept the clients,
    [create] returns a collector whose four clients were created in the
    order full node, wallet, harvester, farmer, each for the configured
    host and the port of its service, and nothing else was created or
    closed.  If then every client can be closed, [close] closes these
    four, in the same order, and nothing else. *)
Theorem create_then_close (d : gmap string value) (st : Clients)
    (host p1 p2 p3 p4 : value) (n1 n2 n3 n4 : Z) :
  d !! "self_hostname" = Some host ->
  rpc_port d "full_node" = Some p1 -> rpc_port d "wallet" = Some p2 ->
  rpc_port d "harvester" = Some p3 -> rpc_port d "farmer" = Some p4 ->
  uint16 p1 = Ok n1 -> uint16 p2 = Ok n2 -> uint16 p3 = Ok n3 -> uint16 p4 = Ok n4 ->
  refuses FullNode host n1 = None -> refuses Wallet host n2 = None ->
  refuses Harvester host n3 = None -> refuses Farmer host n4 = None ->
  exists self,
    create (VDict d) st
    = (Returned self, {| created := created st ++ clients self; closed := closed st |}) /\
    map kind (clients self) = [FullNode; Wallet; Harvester; Farmer] /\
    map port (clients self) = [n1; n2; n3; n4] /\
    map hostname (clients self) = [host; host; host; host] /\
    map serial (clients self) = seq (length (created st)) 4 /\
    (Forall (fun client => lingers client = None) (clients self) ->
     close self {| created := created st ++ clients self; closed := closed st |}
     = (Returned tt, {| created := created st ++ clients self;
                        closed := closed st ++ clients self |})).
Proof.
  intros Hh H1 H2 H3 H4 U1 U2 U3 U4 R1 R2 R3 R4.
  unfold Lifecycle.create.
  rewrite (create_configured d st host p1 p2 p3 p4 _ Hh H1 H2 H3 H4).
  rewrite (bind_Returned _ _ _ _ _ (client_created FullNode host p1 n1 _ U1 R1)).
  rewrite (bind_Returned _ _ _ _ _ (client_created Wallet host p2 n2 _ U2 R2)).
  rewrite (bind_Returned _ _ _ _ _ (client_created Harvester host p3 n3 _ U3 R3)).
  rewrite (bind_Returned _ _ _ _ _ (client_created Farmer host p4 n4 _ U4 R4)).
  eexists. unfold ret. split.
  { refine (f_equal2 pair eq_refl _). unfold clients.
    cbn [full_node_client wallet_client harvester_client farmer_client created closed].
    rewrite <- !app_assoc. reflexivity. }
  unfold clients. cbn [full_node_client wallet_client harvester_client farmer_client
                       created closed].
  split; [reflexivity|]. split; [reflexivity|]. split; [reflexivity|].
  split.
  - cbn [map serial seq]. rewrite !length_app. cbn [length].
    repeat f_equal; lia.
  - intros Hl. apply Forall_cons in Hl. destruct Hl as [L1 Hl].
    apply Forall_cons in Hl. destruct Hl as [L2 Hl].
    apply Forall_cons in Hl. destruct Hl as [L3 Hl].
    apply Forall_cons in Hl. destruct Hl as [L4 _].
    unfold Lifecycle.close, bind, close_rpc_client.
    cbn [full_node_client wallet_client harvester_client farmer_client created closed].
    rewrite L1, L2, L3, L4. cbn [created closed]. rewrite <- !app_assoc. reflexivity.
Qed.

(** X18.  [create] does not undo what it has done when it fails: if the
    full node client is created and then the port of the wallet is no
    port number or the wallet client cannot be created, [create] raises
    that exception and returns no collector, and the full node client
    stays created and is not closed. *)
Theorem create_leaves_the_first_client_open (d : gmap string value) (st : Clients)
    (host p1 p2 p3 p4 : value) (n1 : Z) (e : exn) :
  d !! "self_hostname" = Some host ->
  rpc_port d "full_node" = Some p1 -> rpc_port d "wallet" = Some p2 ->
  rpc_port d "harvester" = Some p3 -> rpc_port d "farmer" = Some p4 ->
  uint16 p1 = Ok n1 -> refuses FullNode host n1 = None ->
  uint16 p2 = Raised e \/ (exists n2, uint16 p2 = Ok n2 /\ refuses Wallet host n2 = Some e) ->
  create (VDict d) st
  = (Raises (Error e),
     {| created := created st
                   ++ [{| serial := length (created st); kind := FullNode;
                          hostname := host; port := n1 |}];
        closed := closed st |}).
Proof.
  intros Hh H1 H2 H3 H4 U1 R1 Hbad.
  unfold Lifecycle.create.
  rewrite (create_configured d st host p1 p2 p3 p4 _ Hh H1 H2 H3 H4).
  rewrite (bind_Returned _ _ _ _ _ (client_created FullNode host p1 n1 _ U1 R1)).
  apply bind_Raises. apply client_refused. exact Hbad.
Qed.

(** X19.  [close] closes the four clients in the order of their
    creation and stops at the first one that cannot be closed: the
    clients before it are closed, it and the clients after it are not,
    and its exception is raised.  No client is created by [close]. *)
Theorem close_stops_at_the_first_failure (self : RpcCollector) (st : Clients) :
  match close self st with
  | (Returned _, st') =>
      created st' = created st /\ closed st' = closed st ++ clients self /\
      Forall (fun client => lingers client = None) (clients self)
  | (Raises e, st') =>
      created st' = created st /\
      exists done client rest e',
        clients self = done ++ client :: rest /\
        closed st' = closed st ++ done /\
        Forall (fun client => lingers client = None) done /\
        lingers client = Some e' /\ e = Error e'
  end.
Proof.
  unfold Lifecycle.close, bind, close_rpc_client, clients.
  destruct (lingers (full_node_client self)) as [e1|] eqn:L1.
  { split; [reflexivity|]. eexists [], (full_node_client self), _, e1.
    rewrite app_nil_r. repeat split; auto. }
  destruct (lingers (wallet_client self)) as [e2|] eqn:L2.
  { split; [reflexivity|]. eexists [full_node_client self], (wallet_client self), _, e2.
    repeat split; auto. }
  destruct (lingers (harvester_client self)) as [e3|] eqn:L3.
  { split; [reflexivity|].
    eexists [full_node_client self; wallet_client self], (harvester_client self), _, e3.
    cbn [created closed]. rewrite <- !app_assoc. repeat split; auto. }
  destruct (lingers (farmer_client self)) as [e4|] eqn:L4.
  { split; [reflexivity|].
    eexists [full_node_client self; wallet_client self; harvester_client self],
           (farmer_client self), _, e4.
    cbn [created closed]. rewrite <- !app_assoc. repeat split; auto. }
  cbn [created closed]. rewrite <- !app_assoc. repeat split; auto.
Qed.

End ClientFacts.

(** * The properties at work *)

Section Instances.

Import RpcCollector SummaryNotification.

Lemma get_wallet_balance_all_or_nothing_witness :
  exec Farm.wallet_down get_wallet_balance Farm.start
  = (Raised (ConnectionError "Failed to get wallet balance via RPC. Is your wallet running?"),
     Farm.start).
Proof.
  apply (get_wallet_balance_all_or_nothing Farm.wallet_down Farm.start).
  left. reflexivity.
Defined.

Lemma poll_cycle_publishes_per_success_witness :
  length (event_queue (world (poll_cycle Farm.config Farm.wallet_down (Farm.round_robin 20)
                                         Farm.start)))
  = (length (event_queue Farm.start)
     + length (List.filter
                 (fun m => succeeded (fst (exec Farm.wallet_down (fetch Farm.config m)
                                                Farm.start)))
                 [wallet_balance; harvester_plots; blockchain_state; connections]))%nat.
Proof.
  apply (poll_cycle_publishes_per_success Farm.config Farm.wallet_down (Farm.round_robin 20)
           Farm.start).
  intros m. destruct m; vm_compute; lia.
Defined.

Lemma round_robin_forward (n : nat) : forward (Farm.round_robin n).
Proof.
  unfold forward, Farm.round_robin. induction n as [|n IH]; simpl; [constructor|].
  repeat (constructor; [simpl; lia|]). exact IH.
Defined.

Lemma three_cycles_punctual :
  punctual Farm.config
    [(Farm.all_up, Farm.round_robin 20); (Farm.all_up_later, Farm.round_robin 20);
     (Farm.wallet_down, Farm.round_robin 20)].
Proof.
  unfold punctual.
  repeat (constructor;
          [split; [apply round_robin_forward|intros t m; destruct m; vm_compute; lia]|]).
  constructor.
Defined.

Lemma poll_cycle_stamps_within_the_cycle_witness :
  exists new,
    event_queue (world (poll_cycle Farm.config Farm.all_up (Farm.round_robin 20) Farm.start))
    = event_queue Farm.start ++ new /\
    Forall (fun ev =>
              clock Farm.start <= ts ev
              <= clock (world (poll_cycle Farm.config Farm.all_up (Farm.round_robin 20)
                                          Farm.start))) new.
Proof.
  apply (poll_cycle_stamps_within_the_cycle Farm.config Farm.all_up (Farm.round_robin 20)
           Farm.start).
  apply round_robin_forward.
Defined.

Lemma task_publishes_in_timestamp_order_witness :
  exists new,
    event_queue Farm.three_cycles = event_queue Farm.start ++ new /\
    Forall (fun ev => clock Farm.start <= ts ev) new /\
    forall m, ascending (List.filter (event_of m) new).
Proof.
  apply (task_publishes_in_timestamp_order Farm.config
           [(Farm.all_up, Farm.round_robin 20); (Farm.all_up_later, Farm.round_robin 20);
            (Farm.wallet_down, Farm.round_robin 20)] 0 Farm.start).
  apply three_cycles_punctual.
Defined.

Lemma summary_reads_the_last_published_balance_witness :
  latest wb_ts (reverse (wallet_rows (event_queue Farm.three_cycles)))
  = last (wallet_rows (event_queue Farm.three_cycles)).
Proof.
  apply (summary_reads_the_last_published_balance Farm.config
           [(Farm.all_up, Farm.round_robin 20); (Farm.all_up_later, Farm.round_robin 20);
            (Farm.wallet_down, Farm.round_robin 20)] 0 Farm.start).
  - apply three_cycles_punctual.
  - reflexivity.
  - apply reverse_Permutation.
Defined.

Lemma task_publishes_readable_numbers_witness :
  Forall (fun ev => readable ev = true) (event_queue Farm.three_cycles).
Proof.
  apply (task_publishes_readable_numbers Farm.config
           [(Farm.all_up, Farm.round_robin 20); (Farm.all_up_later, Farm.round_robin 20);
            (Farm.wallet_down, Farm.round_robin 20)] 0 Farm.start).
  constructor.
Defined.

Lemma trigger_sends_the_summary_witness :
  exists sent,
    fst (Office.trigger 0 Office.busy) = Ok tt /\
    notified (snd (Office.trigger 0 Office.busy))
    = {| sent_at := sent; title := farm_status_title;
         body := join newline
                   ["Plot Count: 3"; "Total Balance: 100"; "Current Netspace: 1000";
                    "Peak Height: 42"; "Peer Count: 2"; "Synchronized: True";
                    "Proofs found: 1"]%string |}
        :: notified Office.busy /\
    observed_last_summary_ts 0 (snd (Office.trigger 0 Office.busy))
    = time (snd (Office.trigger 0 Office.busy)) /\
    (monotone Office.busy -> time Office.busy <= sent <= time (snd (Office.trigger 0 Office.busy))).
Proof.
  apply (trigger_sends_the_summary Office.format_plot_count Office.format_balance
           Office.format_space Office.format_peak_height Office.format_full_node_count
           Office.format_synced Office.format_proofs 0 Office.busy).
  - constructor.
  - vm_compute. reflexivity.
Defined.

Lemma trigger_unreadable_number_witness :
  (exists msg, fst (Office.trigger 0 garbled) = Raised (ValueError msg)) /\
  notified (snd (Office.trigger 0 garbled)) = notified garbled /\
  own_last_summary_ts (snd (Office.trigger 0 garbled)) = own_last_summary_ts garbled.
Proof.
  apply (trigger_unreadable_number Office.format_plot_count Office.format_balance
           Office.format_space Office.format_peak_height Office.format_full_node_count
           Office.format_synced Office.format_proofs 0 garbled
           {| wb_ts := 10; confirmed := "n/a" |}
           {| bs_ts := 10; space := "1000"; diffculty := 7; peak_height := "42";
              synced := true |}).
  - constructor.
  - reflexivity.
  - reflexivity.
  - reflexivity.
  - left. split; reflexivity.
Defined.

Lemma latest_after_storing_witness :
  (Forall (fun r => wb_ts r < 5000000)
          [ {| wb_ts := 1000000; confirmed := "100" |};
            {| wb_ts := 3000000; confirmed := "150" |} ] ->
   latest wb_ts [ {| wb_ts := 1000000; confirmed := "100" |};
                  {| wb_ts := 5000000; confirmed := "175" |};
                  {| wb_ts := 3000000; confirmed := "150" |} ]
   = Some {| wb_ts := 5000000; confirmed := "175" |}) /\
  (forall l,
     latest wb_ts [ {| wb_ts := 1000000; confirmed := "100" |};
                    {| wb_ts := 3000000; confirmed := "150" |} ] = Some l ->
     5000000 <= wb_ts l ->
     wb_ts <$> latest wb_ts [ {| wb_ts := 1000000; confirmed := "100" |};
                              {| wb_ts := 5000000; confirmed := "175" |};
                              {| wb_ts := 3000000; confirmed := "150" |} ]
     = Some (wb_ts l)).
Proof.
  apply (latest_after_storing wb_ts
           [ {| wb_ts := 1000000; confirmed := "100" |};
             {| wb_ts := 3000000; confirmed := "150" |} ]
           [ {| wb_ts := 1000000; confirmed := "100" |};
             {| wb_ts := 5000000; confirmed := "175" |};
             {| wb_ts := 3000000; confirmed := "150" |} ]
           {| wb_ts := 5000000; confirmed := "175" |}).
  apply Permutation_swap.
Defined.

Lemma create_reads_the_configuration_first_witness :
  exists e,
    Lifecycle.create Lifecycle.checked_uint16 Lifecycle.welcome
      (Lifecycle.VDict (delete "wallet"%string Lifecycle.net_config)) Lifecycle.nobody
    = (Lifecycle.Raises e, Lifecycle.nobody).
Proof.
  apply (create_reads_the_configuration_first Lifecycle.checked_uint16 Lifecycle.welcome
           (delete "wallet"%string Lifecycle.net_config) Lifecycle.nobody).
  right. right. left. vm_compute. reflexivity.
Defined.

Lemma create_then_close_witness :
  exists self,
    Lifecycle.create Lifecycle.checked_uint16 Lifecycle.welcome
      (Lifecycle.VDict Lifecycle.net_config) Lifecycle.nobody
    = (Lifecycle.Returned self,
       {| Lifecycle.created := Lifecycle.created Lifecycle.nobody ++ Lifecycle.clients self;
          Lifecycle.closed := Lifecycle.closed Lifecycle.nobody |}) /\
    map Lifecycle.kind (Lifecycle.clients self)
    = [Lifecycle.FullNode; Lifecycle.Wallet; Lifecycle.Harvester; Lifecycle.Farmer] /\
    map Lifecycle.port (Lifecycle.clients self) = [8555; 9256; 8560; 8559] /\
    map Lifecycle.hostname (Lifecycle.clients self)
    = [Lifecycle.VStr "localhost"; Lifecycle.VStr "localhost"; Lifecycle.VStr "localhost";
       Lifecycle.VStr "localhost"] /\
    map Lifecycle.serial (Lifecycle.clients self)
    = seq (length (Lifecycle.created Lifecycle.nobody)) 4 /\
    (Forall (fun client => Lifecycle.closes client = None) (Lifecycle.clients self) ->
     Lifecycle.close Lifecycle.closes self
       {| Lifecycle.created := Lifecycle.created Lifecycle.nobody ++ Lifecycle.clients self;
          Lifecycle.closed := Lifecycle.closed Lifecycle.nobody |}
     = (Lifecycle.Returned tt,
        {| Lifecycle.created := Lifecycle.created Lifecycle.nobody ++ Lifecycle.clients self;
           Lifecycle.closed := Lifecycle.closed Lifecycle.nobody ++ Lifecycle.clients self |})).
Proof.
  apply (create_then_close Lifecycle.checked_uint16 Lifecycle.welcome Lifecycle.closes
           Lifecycle.net_config Lifecycle.nobody (Lifecycle.VStr "localhost")
           (Lifecycle.VInt 8555) (Lifecycle.VInt 9256) (Lifecycle.VInt 8560)
           (Lifecycle.VInt 8559) 8555 9256 8560 8559);
    vm_compute; reflexivity.
Defined.

Lemma create_leaves_the_first_client_open_witness :
  Lifecycle.create Lifecycle.checked_uint16 Lifecycle.wallet_refuses
    (Lifecycle.VDict Lifecycle.net_config) Lifecycle.nobody
  = (Lifecycle.Raises
       (Lifecycle.Error (ClientConnectorError "Cannot connect to host localhost:9256")),
     {| Lifecycle.created :=
          Lifecycle.created Lifecycle.nobody
          ++ [{| Lifecycle.serial := length (Lifecycle.created Lifecycle.nobody);
                 Lifecycle.kind := Lifecycle.FullNode;
                 Lifecycle.hostname := Lifecycle.VStr "localhost";
                 Lifecycle.port := 8555 |}];
        Lifecycle.closed := Lifecycle.closed Lifecycle.nobody |}).
Proof.
  apply (create_leaves_the_first_client_open Lifecycle.checked_uint16 Lifecycle.wallet_refuses
           Lifecycle.net_config Lifecycle.nobody (Lifecycle.VStr "localhost")
           (Lifecycle.VInt 8555) (Lifecycle.VInt 9256) (Lifecycle.VInt 8560)
           (Lifecycle.VInt 8559) 8555
           (ClientConnectorError "Cannot connect to host localhost:9256"));
    try (vm_compute; reflexivity).
  right. exists 9256. split; vm_compute; reflexivity.
Defined.

End Instances.
